(** * FetchTV recordings helper: catalogue filter and download pipeline

    A shallow embedding of [fetchtv_upnp.py].  Python strings are Rocq
    strings, a character standing for the code point of its number: the
    strings of the development are the Python strings of code points
    below U+0100, and the string methods below are Python's on these.
    Dictionaries are [gmap]s, and the code that talks to the appliance or
    to the disk runs in a small state and exception monad over an explicit
    [world].  Paths are compared as they are written, without
    normalisation. *)

From Stdlib Require Import ZArith Ascii String List Bool Lia.
From stdpp Require Import base tactics option list strings gmap fin_maps pretty.

Local Open Scope Z_scope.

(** ** Python string methods used by the script *)

Module Str.

(** [str.lower] on a code point below U+0100: the letters A to Z and the
    capital letters U+00C0 to U+00DE, of which U+00D7 is the multiplication
    sign, move up by 32; every other character stays. *)
Definition lower_char (c : ascii) : ascii :=
  let n := nat_of_ascii c in
  if (((65 <=? n) && (n <=? 90))
      || ((192 <=? n) && (n <=? 222) && negb (n =? 215)))%nat
  then ascii_of_nat (n + 32) else c.

Fixpoint lower (s : string) : string :=
  match s with
  | EmptyString => EmptyString
  | String c s' => String (lower_char c) (lower s')
  end.

(** The characters [str.strip] removes, which are those of [str.isspace]:
    below U+0100 these are tab, line feed, vertical tab, form feed,
    carriage return, the four separators 28..31, space, next line (U+0085)
    and no-break space (U+00A0). *)
Definition is_space (c : ascii) : bool :=
  let n := nat_of_ascii c in
  (((9 <=? n) && (n <=? 13)) || ((28 <=? n) && (n <=? 32))
   || (n =? 133) || (n =? 160))%nat.

Fixpoint lstrip (s : string) : string :=
  match s with
  | EmptyString => EmptyString
  | String c s' => if is_space c then lstrip s' else s
  end.

Definition rstrip (s : string) : string := String.rev (lstrip (String.rev s)).

Definition strip (s : string) : string := rstrip (lstrip s).

(** [s.find(sub)]: the lowest index at which [sub] occurs in [s], or -1. *)
Fixpoint find (s sub : string) : Z :=
  if String.prefix sub s then 0
  else match s with
       | EmptyString => -1
       | String _ s' => let i := find s' sub in if i =? -1 then -1 else i + 1
       end.

(** [s.replace(c, r)] for a one-character [c]. *)
Fixpoint replace (c : ascii) (r : string) (s : string) : string :=
  match s with
  | EmptyString => EmptyString
  | String d s' =>
      if Ascii.eqb d c then r +:+ replace c r s' else String d (replace c r s')
  end.

(** [s[:n]] *)
Fixpoint take (n : nat) (s : string) : string :=
  match n, s with
  | S n', String c s' => String c (take n' s')
  | _, _ => EmptyString
  end.

Definition char (n : nat) : string := String (ascii_of_nat n) EmptyString.

(** Truth value of a string: only the empty string is false. *)
Definition truthy (s : string) : bool :=
  match s with EmptyString => false | _ => true end.

End Str.

(** ** Constants of the script *)

Definition SAVE_FILE : string := "fetchtv_save_list.json".
Definition FETCHTV_PORT : Z := 49152.
Definition CONST_LOCK : string := ".lock".
Definition MAX_FILENAME : nat := 255.
Definition REQUEST_TIMEOUT : Z := 5.
Definition MAX_OCTET : Z := 4398046510080.

(** ** Catalogue data, as delivered by [helpers.upnp] *)

Record Item := mkItem {
  item_id : string;
  item_title : string;
  item_url : string;
  item_duration : string;
  item_size : string;
  item_description : string
}.

Record Directory := mkDirectory {
  dir_id : string;
  dir_title : string;
  dir_items : list Item
}.

(** ** [create_valid_filename] *)

Definition create_valid_filename (filename : string) : string :=
  let result := Str.strip filename in
  let result :=
    fold_left (fun acc c => Str.replace c "" acc)
              (list_ascii_of_string ("<>:" +:+ Str.char 34 +:+ "/\|?*")) result in
  let result :=
    fold_left (fun acc c => Str.replace c "_" acc)
              (list_ascii_of_string (Str.char 9 +:+ " ")) result in
  Str.take MAX_FILENAME result.

(** ** Folder and title matching *)

(** [title.lower().find(term.strip().lower()) != -1] *)
Definition term_found (title term : string) : bool :=
  negb (Str.find (Str.lower title) (Str.lower (Str.strip term)) =? -1).

(** [next((t for t in terms if ...), False)]: the first term found in the
    title; [None] stands for the default [False]. *)
Definition next_match (title : string) (terms : list string) : option string :=
  head (filter (fun t => term_found title t = true) terms).

(** Truth value of what [next_match] returns: [False] and the empty string
    are false, every other string is true. *)
Definition next_truthy (o : option string) : bool :=
  match o with None => false | Some t => Str.truthy t end.

(** Truth value of a tuple of terms: false exactly for the empty tuple. *)
Definition nonempty {A} (l : list A) : bool :=
  match l with [] => false | _ => true end.

Definition has_include_folder (recording : Directory) (folder : list string) : bool :=
  negb (nonempty folder && negb (next_truthy (next_match (dir_title recording) folder))).

(** The script returns the value of [exclude and next(...)], which its only
    caller tests for truth; this is that truth value. *)
Definition has_exclude_folder (recording : Directory) (exclude : list string) : bool :=
  nonempty exclude && next_truthy (next_match (dir_title recording) exclude).

Definition has_title_match (item : Item) (title : list string) : bool :=
  negb (nonempty title && negb (next_truthy (next_match (item_title item) title))).

(** ** Python values and exceptions *)

(** The exception classes the script can meet.  [OSError] is also Python's
    [IOError]; [ReqConnectionError], [HTTPError], [ReadTimeout] and
    [ChunkedEncodingError] are those of [requests], [ProtocolError] and
    [IncompleteRead] those of [urllib3]. *)
Inductive exc_class :=
| OSError | FileExistsError | ConnectionResetError
| RequestException | ReqConnectionError | HTTPError | ReadTimeout
| ChunkedEncodingError
| ProtocolError | IncompleteRead
| NameError | UnboundLocalError
| IndexError | AttributeError | TypeError | ValueError.

Global Instance exc_class_eq_dec : EqDecision exc_class.
Proof. solve_decision. Defined.

(** Direct base class, [None] at the roots of the hierarchy. *)
Definition base_class (c : exc_class) : option exc_class :=
  match c with
  | FileExistsError | ConnectionResetError | RequestException => Some OSError
  | ReqConnectionError | HTTPError | ReadTimeout | ChunkedEncodingError =>
      Some RequestException
  | UnboundLocalError => Some NameError
  | _ => None
  end.

Fixpoint subclass_upto (fuel : nat) (c base : exc_class) : bool :=
  bool_decide (c = base) ||
  match fuel, base_class c with
  | S fuel', Some c' => subclass_upto fuel' c' base
  | _, _ => false
  end.

(** The hierarchy above is three levels deep. *)
Definition issubclass (c base : exc_class) : bool := subclass_upto 3 c base.

(** The values found in an exception's [args]. *)
#[warnings="-register-all"]
Inductive pyobj :=
| PyStr (s : string)
| PyInt (z : Z)
| PyErr (cls : exc_class) (args : list pyobj).

Record exn := Exn { exn_class : exc_class; exn_args : list pyobj }.

Definition isinstance (e : exn) (cls : exc_class) : bool :=
  issubclass (exn_class e) cls.

Definition obj_isinstance (o : pyobj) (cls : exc_class) : bool :=
  match o with PyErr c _ => issubclass c cls | _ => false end.

(** ** The outside world *)

(** Value of the [content-length] header as [int(...)] sees it. *)
Inductive header :=
| Absent              (* no such header: [headers.get] gives [None] *)
| Malformed           (* present, not a decimal number *)
| Length (n : Z).

(** A streamed HTTP answer: status line and length header first, then the
    body in chunks; [broken] is the exception with which the chunk iterator
    stops, if the stream does not end normally. *)
Record reply := mkReply {
  status : nat;
  content_length : header;
  body : list string;
  broken : option exn
}.

Inductive response :=
| NoReply             (* connection accepted, headers never sent *)
| Refused             (* no connection *)
| Answer (r : reply).

(** JSON projection of an item, [create_item]. *)
Record item_json := mkItemJson {
  j_id : string;
  j_title : string;
  j_type : string;
  j_duration : string;
  j_size : string;
  j_description : string
}.

(** One entry of the save report: the dictionary with keys [item],
    [recorded] and, when set, [warning] and [error]. *)
Record result := mkResult {
  res_item : item_json;
  recorded : bool;
  warning : option string;
  error : option string
}.

(** The registry object: [__files] and [path]. *)
Record SavedFiles := mkSavedFiles {
  sf_files : gmap string string;
  sf_path : string
}.

(** File contents.  The registry document is kept in decoded form: what
    [jsonpickle.dumps] wrote is what [jsonpickle.loads] gives back. *)
Inductive content :=
| Data (bytes : string)
| Pickle (s : SavedFiles).

Inductive node :=
| FDir
| FFile (c : content).

(** What the script does to the outside, in order.  A request is logged
    when it is issued, a disk effect when it has taken place. *)
Inductive event :=
| EvPrint (line : string)
| EvGet (n : nat) (url : string) (timeout : option Z)
| EvMakedirs (p : string)
| EvCreate (p : string)
| EvWrite (p : string) (chunk : string)
| EvRename (src dst : string)
| EvOpenRegistry (p : string)
| EvTruncate (p : string)
| EvStore (p : string) (s : SavedFiles).

Record world := mkWorld {
  fs : gmap string node;      (* the disk, by path *)
  reqs : nat;                 (* HTTP requests issued so far *)
  ops : nat;                  (* disk operations attempted so far *)
  heap : list result;         (* the report dictionaries, by address *)
  log : list event
}.

Definition set_fs (f : gmap string node → gmap string node) (w : world) : world :=
  mkWorld (f (fs w)) (reqs w) (ops w) (heap w) (log w).
Definition tick_reqs (w : world) : world :=
  mkWorld (fs w) (S (reqs w)) (ops w) (heap w) (log w).
Definition tick_ops (w : world) : world :=
  mkWorld (fs w) (reqs w) (S (ops w)) (heap w) (log w).
Definition set_heap (f : list result → list result) (w : world) : world :=
  mkWorld (fs w) (reqs w) (ops w) (f (heap w)) (log w).
Definition emit (e : event) (w : world) : world :=
  mkWorld (fs w) (reqs w) (ops w) (heap w) (log w ++ [e]).

(** ** The monad: state, exceptions, and calls that never return *)

Inductive outcome (A : Type) :=
| Ret (a : A)
| Raise (e : exn)
| Hang.
Arguments Ret {A} a.
Arguments Raise {A} e.
Arguments Hang {A}.

Definition M (A : Type) : Type := world → outcome A * world.

Definition ret {A} (a : A) : M A := λ w, (Ret a, w).

Definition bind {A B} (m : M A) (k : A → M B) : M B := λ w,
  match m w with
  | (Ret a, w') => k a w'
  | (Raise e, w') => (Raise e, w')
  | (Hang, w') => (Hang, w')
  end.

Declare Scope script_scope.
Delimit Scope script_scope with script.
Notation "x ← m ; k" := (bind m (λ x, k))
  (at level 20, m at level 100, k at level 200, only parsing) : script_scope.
Notation "m ;; k" := (bind m (λ _, k))
  (at level 100, k at level 200, only parsing, right associativity) : script_scope.
Local Open Scope script_scope.

Definition raise {A} (e : exn) : M A := λ w, (Raise e, w).

Definition do (f : world → world) : M unit := λ w, (Ret tt, f w).

Definition get {A} (f : world → A) : M A := λ w, (Ret (f w), w).

(** [try: m except Exception as err: h err] *)
Definition try_except {A} (m : M A) (h : exn → M A) : M A := λ w,
  match m w with
  | (Raise e, w') => h e w'
  | r => r
  end.

(** [for x in xs: s = body x s] *)
Fixpoint for_in {A S} (xs : list A) (body : A → S → M S) (s : S) : M S :=
  match xs with
  | [] => ret s
  | x :: xs' => s' ← body x s; for_in xs' body s'
  end.

(** ** The environment of a run *)

Class Env := {
  (** [os.path.sep]. *)
  sep : string;
  (** The appliance: its answer to the [n]-th request of the run, by URL. *)
  http : nat → string → response;
  (** The disk: [disk n = Some msg] when the [n]-th disk operation of the
      run fails with [OSError(msg)] for a reason the map [fs] does not show
      (disk full, permissions, a missing parent directory). *)
  disk : nat → option string;
  (** Python's [str(err)] on exceptions. *)
  str_of_exn : exn → string;
  (** A failed write: [torn n] is what the [n]-th disk operation, a write
      that fails, has put into the file before it fails; [Some d] is the
      part [d] of the text, which may be empty, and [None] the whole
      text. *)
  torn : nat → option string;
  (** What [SavedFiles.load] raises on a document that [jsonpickle] did
      not write: [jsonpickle.loads] raises [JSONDecodeError], a
      [ValueError], on text that is no JSON, and [inst.path = path] raises
      [AttributeError] on JSON for a value that takes no attribute. *)
  foreign_document : string → exn
}.

(** ** Library calls *)

Section Script.

Context {E : Env}.

(** [print(line)] *)
Definition print (line : string) : M unit := do (emit (EvPrint line)).

(** [requests.get(url, stream=True, timeout=timeout)]: returns once the
    headers are in.  Without a timeout a silent appliance blocks the call
    for good. *)
Definition requests_get (url : string) (timeout : option Z) : M reply := λ w,
  let w' := tick_reqs (emit (EvGet (reqs w) url timeout) w) in
  match http (reqs w) url with
  | NoReply =>
      match timeout with
      | None => (Hang, w')
      | Some _ => (Raise (Exn ReadTimeout []), w')
      end
  | Refused => (Raise (Exn ReqConnectionError []), w')
  | Answer r => (Ret r, w')
  end.

(** [r.raise_for_status()] *)
Definition raise_for_status (r : reply) : M unit :=
  if ((400 <=? status r) && (status r <? 600))%nat
  then raise (Exn HTTPError [PyInt (Z.of_nat (status r))])
  else ret tt.

(** [int(r.headers.get('content-length'))] *)
Definition int_content_length (r : reply) : M Z :=
  match content_length r with
  | Absent => raise (Exn TypeError [])
  | Malformed => raise (Exn ValueError [])
  | Length n => ret n
  end.

(** Entries of the disk below [p]. *)
Definition has_descendant (m : gmap string node) (p : string) : bool :=
  existsb (λ q, String.prefix (p +:+ sep) q) (map fst (map_to_list m)).

(** [os.path.exists(p)]: [p] is an entry, or lies above one.  The path is
    taken as it is written: a name with a doubled or a trailing separator
    is another name than the one without. *)
Definition path_exists (m : gmap string node) (p : string) : bool :=
  bool_decide (is_Some (m !! p)) || has_descendant m p.

(** [os.path.isdir(p)] *)
Definition path_isdir (m : gmap string node) (p : string) : bool :=
  match m !! p with Some FDir => true | _ => false end || has_descendant m p.

Definition os_path_exists (p : string) : M bool := get (λ w, path_exists (fs w) p).

(** Start of every disk operation: it takes its number and may fail. *)
Definition disk_op : M unit := λ w,
  match disk (ops w) with
  | Some msg => (Raise (Exn OSError [PyStr msg]), tick_ops w)
  | None => (Ret tt, tick_ops w)
  end.

(** [os.makedirs(p)] *)
Definition os_makedirs (p : string) : M unit :=
  disk_op;;
  present ← os_path_exists p;
  if present then raise (Exn FileExistsError [PyStr p])
  else do (set_fs (insert p FDir));; do (emit (EvMakedirs p)).

(** [open(p, 'xb')]: exclusive creation. *)
Definition open_x (p : string) : M unit :=
  present ← os_path_exists p;
  if present then raise (Exn FileExistsError [PyStr p])
  else disk_op;; do (set_fs (insert p (FFile (Data ""))));; do (emit (EvCreate p)).

Definition append_data (chunk : string) (n : node) : node :=
  match n with
  | FFile (Data d) => FFile (Data (d +:+ chunk))
  | other => other
  end.

(** [f.write(chunk)] on the file opened at [p]. *)
Definition file_write (p : string) (chunk : string) : M unit :=
  disk_op;; do (set_fs (alter (append_data chunk) p));; do (emit (EvWrite p chunk)).

(** [os.rename(src, dst)]: replaces a file at [dst], refuses a directory. *)
Definition os_rename (src dst : string) : M unit :=
  disk_op;;
  n ← get (λ w, fs w !! src);
  dst_is_dir ← get (λ w, path_isdir (fs w) dst);
  match n with
  | None => raise (Exn OSError [PyStr src])
  | Some n =>
      if dst_is_dir then raise (Exn OSError [PyStr dst])
      else do (set_fs (λ m, <[dst := n]> (delete src m)));;
           do (emit (EvRename src dst))
  end.

(** ** Console output *)

Definition tabs (level : nat) : string :=
  fold_right String.append "" (replicate level (Str.char 9)).

Definition print_item (param : string) (level : nat) : M unit :=
  print (tabs level +:+ " -- " +:+ param).

Definition print_warning (param : string) (level : nat) : M unit :=
  print (tabs level +:+ " -- [!] " +:+ param).

Definition print_error (param : string) (level : nat) : M unit :=
  print (tabs level +:+ " -- [!] " +:+ param).

(** ** [SavedFiles] *)

Definition registry_path (path : string) : string := path +:+ sep +:+ SAVE_FILE.

(** [SavedFiles()] *)
Definition SavedFiles_new : SavedFiles := mkSavedFiles ∅ "".

(** What opening in mode ["a+"] does to the disk: an empty file appears
    where there was none. *)
Definition create_if_missing (p : string) (m : gmap string node) : gmap string node :=
  match m !! p with
  | None => <[p := FFile (Data "")]> m
  | Some _ => m
  end.

(** [SavedFiles.load(path)]: mode ["a+"] creates the document when it is
    missing; an empty document gives a fresh registry, and on a document
    that [jsonpickle] did not write the call fails.  The last case of the
    match is not reached: the path holds a file once it is open. *)
Definition SavedFiles_load (path : string) : M SavedFiles :=
  let p := registry_path path in
  disk_op;;
  is_dir ← get (λ w, path_isdir (fs w) p);
  if is_dir then raise (Exn OSError [PyStr p])
  else
    do (set_fs (create_if_missing p));;
    do (emit (EvOpenRegistry p));;
    content ← get (λ w, fs w !! p);
    match content with
    | Some (FFile (Pickle inst)) => ret (mkSavedFiles (sf_files inst) path)
    | Some (FFile (Data "")) => ret (mkSavedFiles (sf_files SavedFiles_new) path)
    | Some (FFile (Data d)) => raise (foreign_document d)
    | _ => raise (Exn ValueError [])
    end.

(** What a write of the registry [self] that fails leaves in the
    document. *)
Definition torn_document (part : option string) (self : SavedFiles) : node :=
  match part with
  | Some d => FFile (Data d)
  | None => FFile (Pickle self)
  end.

(** Start of the write of the registry document at [p]: a disk operation
    that, when it fails, may have put part of the text on the disk. *)
Definition store_op (p : string) (self : SavedFiles) : M unit := λ w,
  match disk (ops w) with
  | Some msg =>
      (Raise (Exn OSError [PyStr msg]),
       tick_ops (set_fs (insert p (torn_document (torn (ops w)) self)) w))
  | None => (Ret tt, tick_ops w)
  end.

(** [self.add_file(item)]: the updated registry object is returned, and
    the document is truncated and rewritten whole. *)
Definition add_file (self : SavedFiles) (item : Item) : M SavedFiles :=
  let self := mkSavedFiles (<[item_id item := item_title item]> (sf_files self))
                           (sf_path self) in
  let p := registry_path (sf_path self) in
  disk_op;;
  is_dir ← get (λ w, path_isdir (fs w) p);
  if is_dir then raise (Exn OSError [PyStr p])
  else
    do (set_fs (insert p (FFile (Data ""))));;
    do (emit (EvTruncate p));;
    store_op p self;;
    do (set_fs (insert p (FFile (Pickle self))));;
    do (emit (EvStore p self));;
    ret self.

(** [self.contains(item)] *)
Definition contains (self : SavedFiles) (item : Item) : bool :=
  bool_decide (item_id item ∈ dom (sf_files self)).

(** ** [currently_recording] *)

Definition currently_recording (item : Item) : M bool :=
  r ← requests_get (item_url item) None;
  raise_for_status r;;
  total_length ← int_content_length r;
  ret (total_length =? MAX_OCTET).

(** ** [filter_recording_items] *)

(** The dictionary built for each folder: keys [title], [id], [items]. *)
Record listing := mkListing {
  l_title : string;
  l_id : string;
  l_items : list Item
}.

(** Body of the loop over the items of one folder; [items] is
    [result['items']]. *)
Definition filter_item (title : list string) (is_recording : bool)
    (item : Item) (items : list Item) : M (list Item) :=
  if negb (has_title_match item title) then ret items
  else
    keep ← (if negb is_recording then ret true else currently_recording item);
    if keep then ret (items ++ [item]) else ret items.

(** Body of the loop over the folders. *)
Definition filter_recording (folder exclude title : list string)
    (shows is_recording : bool)
    (recording : Directory) (results : list listing) : M (list listing) :=
  if negb (has_include_folder recording folder) || has_exclude_folder recording exclude
  then ret results
  else
    items ← (if negb shows
             then for_in (dir_items recording) (filter_item title is_recording) []
             else ret []);
    let result := mkListing (dir_title recording) (dir_id recording) items in
    let results := results ++ [result] in
    if is_recording
    then ret (filter (λ result, (0 <? length (l_items result))%nat = true) results)
    else ret results.

Definition filter_recording_items (folder exclude title : list string)
    (shows is_recording : bool) (recordings : list Directory) : M (list listing) :=
  for_in recordings (filter_recording folder exclude title shows is_recording) [].

(** ** [create_item] *)

(** [\d] on a code point below U+0100: the decimal digits there are 0 to
    9. *)
Definition is_digit (c : ascii) : bool :=
  let n := nat_of_ascii c in ((48 <=? n) && (n <=? 57))%nat.

Fixpoint skip_digits (s : string) : string :=
  match s with
  | String c s' => if is_digit c then skip_digits s' else s
  | EmptyString => EmptyString
  end.

(** What follows a leading [\d+], if there is one. *)
Definition after_digits (s : string) : option string :=
  match s with
  | String c s' => if is_digit c then Some (skip_digits s') else None
  | EmptyString => None
  end.

(** [re.match('^S\d+ E\d+', s)] finds a match. *)
Definition match_episode (s : string) : bool :=
  match s with
  | String "S" s1 =>
      match after_digits s1 with
      | Some (String " " (String "E" s2)) => bool_decide (is_Some (after_digits s2))
      | _ => false
      end
  | _ => false
  end.

Definition create_item (item : Item) : item_json :=
  let item_type := if match_episode (item_title item) then "episode" else "movie" in
  mkItemJson (item_id item) (item_title item) item_type
             (item_duration item) (item_size item) (item_description item).

(** ** The report dictionaries *)

(** A new dictionary; its address is its position in the heap. *)
Definition alloc (r : result) : M nat := λ w,
  (Ret (length (heap w)), set_heap (λ h, h ++ [r]) w).

(** [d['warning'] = msg] *)
Definition set_warning (d : nat) (msg : string) : M unit :=
  do (set_heap (alter (λ r, mkResult (res_item r) (recorded r) (Some msg) (error r)) d)).

(** [d['error'] = msg] *)
Definition set_error (d : nat) (msg : string) : M unit :=
  do (set_heap (alter (λ r, mkResult (res_item r) (recorded r) (warning r) (Some msg)) d)).

(** [d['recorded'] = b] *)
Definition set_recorded (d : nat) (b : bool) : M unit :=
  do (set_heap (alter (λ r, mkResult (res_item r) b (warning r) (error r)) d)).

(** ** [download_file] *)

(** The [with open(lock, 'xb') as f] block: create the file, write every
    non-empty chunk of the body, and stop as the chunk iterator stops. *)
Definition write_stream (lock : string) (r : reply) : M unit :=
  open_x lock;;
  for_in (body r)
         (λ chunk _, if Str.truthy chunk then file_write lock chunk else ret tt) tt;;
  match broken r with
  | Some err => raise err
  | None => ret tt
  end.

Definition msg_short_read : string :=
  "Final read was short; FetchTV sets the wrong Content-Length header. File should be fine".

Definition msg_chunked (total_length : Z) (err : exn) : string :=
  "Chunked encoding error occurred. Content length was " +:+ pretty total_length
    +:+ ". Error was: " +:+ str_of_exn err.

(** Lines 99 to 105: the value of the local [msg] after the handler's
    [if err.args: try ... except IndexError ...], [None] while it is
    unassigned.  [err.args[0].args] raises [AttributeError] on a value
    that is no exception, and [....args[1]] raises the [IndexError] that
    the inner handler catches. *)
Definition chunked_msg (total_length : Z) (err : exn) : M (option string) :=
  match exn_args err with
  | [] => ret None
  | PyErr _ inner :: _ =>
      match inner !! 1%nat with
      | Some second =>
          if obj_isinstance second IncompleteRead then ret (Some msg_short_read)
          else ret None
      | None => ret (Some (msg_chunked total_length err))
      end
  | _ :: _ => raise (Exn AttributeError [])
  end.

(** Reading a local variable: [UnboundLocalError] while it is unassigned. *)
Definition read_local (name : string) (v : option string) : M string :=
  match v with
  | Some s => ret s
  | None => raise (Exn UnboundLocalError [PyStr name])
  end.

(** The [except] clauses of lines 93 to 112, tried in order.  [Some b]
    is [return b]; [None] falls through to the rename. *)
Definition download_handlers (total_length : Z) (json_result : nat)
    (err : exn) : M (option bool) :=
  if isinstance err FileExistsError then
    let msg := "Already writing (lock file exists) skipping" in
    print_warning msg 2;;
    set_warning json_result msg;;
    ret (Some false)
  else if isinstance err ChunkedEncodingError then
    v ← chunked_msg total_length err;
    msg ← read_local "msg" v;
    print_warning msg 2;;
    set_warning json_result msg;;
    ret None
  else if isinstance err OSError then
    let msg := "Error writing file: " +:+ str_of_exn err in
    print_error msg 2;;
    set_error json_result msg;;
    ret (Some false)
  else raise err.

Definition msg_live : string := "Skipping item it's currently recording".

(** The progress bar of [clint] writes to the terminal only and is left
    out. *)
Definition download_file (item : Item) (filename : string) (json_result : nat)
    : M bool :=
  print_item ("Writing: [" +:+ item_title item +:+ "] to [" +:+ filename +:+ "]") 1;;
  r ← requests_get (item_url item) None;
  raise_for_status r;;
  total_length ← int_content_length r;
  if total_length =? MAX_OCTET then
    print_warning msg_live 2;;
    set_warning json_result msg_live;;
    ret false
  else
    returned ← try_except
      (write_stream (filename +:+ CONST_LOCK) r;; ret None)
      (download_handlers total_length json_result);
    match returned with
    | Some b => ret b
    | None => os_rename (filename +:+ CONST_LOCK) filename;; ret true
    end.

(** ** [save_recordings] *)

(** The locals the two loops update. *)
Record save_state := mkSave {
  some_to_record : bool;
  saved_files : SavedFiles;
  json_result : list nat
}.

Definition show_directory (path : string) (show : listing) : string :=
  path +:+ sep +:+ create_valid_filename (l_title show).

Definition item_file_path (path : string) (show : listing) (item : Item) : string :=
  show_directory path show +:+ sep +:+ create_valid_filename (item_title item) +:+ ".mpeg".

Definition msg_locked (item : Item) : string :=
  "Already writing (lock file exists) skipping: [" +:+ item_title item +:+ "]".

(** Lines 216 and 217: [if not os.path.exists(directory): os.makedirs(directory)] *)
Definition ensure_directory (directory : string) : M unit :=
  present ← os_path_exists directory;
  if negb present then os_makedirs directory else ret tt.

(** Body of the inner loop. *)
Definition save_item (path : string) (overwrite : bool) (show : listing)
    (item : Item) (st : save_state) : M save_state :=
  if overwrite || negb (contains (saved_files st) item) then
    let directory := show_directory path show in
    ensure_directory directory;;
    let file_path := item_file_path path show item in
    result ← alloc (mkResult (create_item item) false None None);
    let st := mkSave true (saved_files st) (json_result st ++ [result]) in
    let lock_file := file_path +:+ CONST_LOCK in
    locked ← os_path_exists lock_file;
    if locked then
      print_item (msg_locked item) 1;;
      set_warning result (msg_locked item);;
      ret st
    else
      ok ← download_file item file_path result;
      if ok then
        set_recorded result true;;
        saved ← add_file (saved_files st) item;
        ret (mkSave (some_to_record st) saved (json_result st))
      else ret st
  else ret st.

Definition msg_nothing_new : string := Str.char 9 +:+ " -- There is nothing new to record".

(** The dictionaries behind a list of addresses. *)
Definition deref (h : list result) (addrs : list nat) : list result :=
  omap (λ a, h !! a) addrs.

Definition save_loop (path : string) (overwrite : bool) (recordings : list listing)
    (st : save_state) : M save_state :=
  for_in recordings (λ show, for_in (l_items show) (save_item path overwrite show)) st.

Definition save_recordings (recordings : list listing) (save_path : string)
    (overwrite : bool) : M (list result) :=
  let path := save_path in
  loaded ← SavedFiles_load path;
  st ← save_loop path overwrite recordings (mkSave false loaded []);
  (if negb (some_to_record st) then print msg_nothing_new else ret tt);;
  get (λ w, deref (heap w) (json_result st)).

End Script.

(** ** [print_recordings] *)

(** The dictionary [print_recordings] builds for a folder: keys [id],
    [title], [items]. *)
Record folder_json := mkFolderJson {
  fj_id : string;
  fj_title : string;
  fj_items : list item_json
}.

(** [print_heading(param, value)] *)
Definition print_heading (param value : string) : M unit :=
  print ("[+] " +:+ param +:+ ": " +:+ value).

Section Listings.

(** [json.dumps(output, indent=2, sort_keys=False)] *)
Variable json_dumps : list folder_json → string.

(** The list [items] is appended to [output] before it is filled; the
    dictionary holds the list itself, so that it shows every item in the
    end.  [None] is the result of the branch without [return]. *)
Definition print_recordings (recordings : list listing) (output_json : bool)
    : M (option string) :=
  if negb output_json then
    print_heading "List Recordings" "";;
    (if negb (nonempty recordings) then print_warning "No recordings found!" 1
     else ret tt);;
    for_in recordings
      (λ recording (_ : unit),
         print_item (l_title recording) 1;;
         for_in (l_items recording)
           (λ item (_ : unit),
              print_item (item_title item +:+ " (" +:+ item_url item +:+ ")") 2) tt)
      tt;;
    ret None
  else
    output ← for_in recordings
      (λ recording output,
         items ← for_in (l_items recording)
                   (λ item items, ret (items ++ [create_item item])) [];
         ret (output ++ [mkFolderJson (l_id recording) (l_title recording) items]))
      [];
    let output := json_dumps output in
    print output;;
    ret (Some output).

End Listings.


(** ** Vocabulary of the specification *)

(** [term] occurs in [title] when case is ignored. *)
Definition ci_substring (term title : string) : Prop :=
  ∃ pre post, Str.lower title = pre +:+ Str.lower term +:+ post.

(** A folder passes the folder criteria. *)
Definition folder_ok (folder exclude : list string) (recording : Directory) : bool :=
  has_include_folder recording folder && negb (has_exclude_folder recording exclude).

(** The folder listing without its items. *)
Definition bare_listing (recording : Directory) : listing :=
  mkListing (dir_title recording) (dir_id recording) [].

(** A listing built from a folder of the catalogue that passes the folder
    criteria. *)
Definition from_catalogue (folder exclude : list string)
    (recordings : list Directory) (l : listing) : Prop :=
  ∃ r, r ∈ recordings ∧ l_title l = dir_title r ∧ l_id l = dir_id r ∧
       folder_ok folder exclude r = true.

(** The exception a probe or download request ends in when the transport
    fails: no connection, or a 4xx/5xx status turned into an exception by
    [raise_for_status]. *)
Definition transport_failure (r : response) : option exn :=
  match r with
  | Refused => Some (Exn ReqConnectionError [])
  | Answer a =>
      if ((400 <=? status a) && (status a <? 600))%nat
      then Some (Exn HTTPError [PyInt (Z.of_nat (status a))])
      else None
  | NoReply => None
  end.

(** A computation only adds to the log, and a request it issues that meets
    a transport failure is the last thing it does: it raises that failure. *)
Definition aborts_on_failure {E : Env} {A} (m : M A) : Prop :=
  ∀ w o w', m w = (o, w') →
    ∃ evs, log w' = log w ++ evs ∧
      ∀ n url t e, EvGet n url t ∈ evs → transport_failure (http n url) = Some e →
        o = Raise e ∧ last evs = Some (EvGet n url t).

(** The pairs of folder and item in the order the two loops of
    [save_recordings] visit them. *)
Definition work (recordings : list listing) : list (listing * Item) :=
  flat_map (λ show, map (pair show) (l_items show)) recordings.

(** One round of the inner loop, on such a pair. *)
Definition save_step {E : Env} (path : string) (overwrite : bool)
    (x : listing * Item) (st : save_state) : M save_state :=
  save_item path overwrite x.1 x.2 st.

(** The run of [save_recordings] that starts in world [w] loads the
    registry [reg], works through the pairs [before] and stands, with the
    locals [st] and in world [w1], in front of the pair of [show] and
    [item]. *)
Definition reaches {E : Env} (path : string) (overwrite : bool)
    (recordings : list listing) (w : world) (reg : SavedFiles)
    (before : list (listing * Item)) (show : listing) (item : Item)
    (st : save_state) (w1 : world) : Prop :=
  ∃ w0 after,
    SavedFiles_load path w = (Ret reg, w0) ∧
    work recordings = before ++ (show, item) :: after ∧
    for_in before (save_step path overwrite) (mkSave false reg []) w0 = (Ret st, w1).


(** The steps of a round between the registry test and the status test:
    the folder is made sure of, the report entry created, the lock marker
    looked for, the request sent.  They return the address of the entry,
    whether the marker exists, and the answer. *)
Definition enter_download {E : Env} (path : string) (show : listing) (item : Item)
    : M (nat * bool * reply) :=
  let file_path := item_file_path path show item in
  ensure_directory (show_directory path show);;
  result ← alloc (mkResult (create_item item) false None None);
  locked ← os_path_exists (file_path +:+ CONST_LOCK);
  r ← (print_item ("Writing: [" +:+ item_title item +:+ "] to [" +:+ file_path +:+ "]") 1;;
       requests_get (item_url item) None);
  ret (result, locked, r).

(** The round of the loop for [item] finds the item due and not locked,
    enters [download_file] with the new report entry at address [result],
    and gets the answer [r], of a status that [raise_for_status] lets
    pass, in world [w1]. *)
Definition starts_download {E : Env} (path : string) (overwrite : bool)
    (show : listing) (item : Item) (st : save_state) (w : world)
    (result : nat) (r : reply) (w1 : world) : Prop :=
  (overwrite || negb (contains (saved_files st) item)) = true ∧
  enter_download path show item w = (Ret (result, false, r), w1) ∧
  ((400 <=? status r) && (status r <? 600))%nat = false.

(** Lines 114 and 115 and then 231 and 232: what the round does once the
    transfer counts as complete. *)
Definition finalize {E : Env} (path : string) (show : listing) (item : Item)
    (st : save_state) (result : nat) : M save_state :=
  let file_path := item_file_path path show item in
  os_rename (file_path +:+ CONST_LOCK) file_path;;
  set_recorded result true;;
  saved ← add_file (saved_files st) item;
  ret (mkSave true saved (json_result st ++ [result])).

(** The file at [p] is a data file. *)
Definition data_at (m : gmap string node) (p : string) : Prop :=
  ∃ d, m !! p = Some (FFile (Data d)).

(** The arguments of a [ChunkedEncodingError] for which the handler assigns
    no message: none at all, or a first argument whose second argument is
    there and is no [IncompleteRead]. *)
Definition no_message (args : list pyobj) : Prop :=
  args = [] ∨
  ∃ cls inner rest second,
    args = PyErr cls inner :: rest ∧ inner !! 1%nat = Some second ∧
    obj_isinstance second IncompleteRead = false.


(** The events the script may produce when all goes by the rules: files
    are created and written under a lock-suffixed media name only, a
    rename takes the lock suffix off, and the only other file opened or
    written is a registry document. *)
Definition orderly {E : Env} (ev : event) : Prop :=
  match ev with
  | EvCreate p | EvWrite p _ => ∃ base, p = base +:+ ".mpeg" +:+ CONST_LOCK
  | EvRename src dst => src = dst +:+ CONST_LOCK
  | EvOpenRegistry p | EvTruncate p | EvStore p _ => ∃ dir, p = registry_path dir
  | _ => True
  end.

(** The paths at which an event changes the disk. *)
Definition touches (p : string) (ev : event) : Prop :=
  match ev with
  | EvMakedirs q | EvCreate q | EvWrite q _
  | EvOpenRegistry q | EvTruncate q | EvStore q _ => q = p
  | EvRename src dst => src = p ∨ dst = p
  | _ => False
  end.

Global Instance touches_dec (p : string) (ev : event) : Decision (touches p ev).
Proof. destruct ev; cbn; apply _. Defined.

(** The events of a transfer of [item] to [file_path] that the script
    takes for complete: the request, the creation of the lock-suffixed
    file, the writing of every non-empty chunk that came in, and the
    rename.  Either the stream ended in order, or it broke with a
    [ChunkedEncodingError] and the warning of the handler is printed
    before the rename. *)
Definition transfer_of {E : Env} (item : Item) (file_path : string)
    (tr : list event) : Prop :=
  ∃ n r warn,
    http n (item_url item) = Answer r ∧
    ((warn = [] ∧ broken r = None) ∨
     (∃ err line, warn = [EvPrint line] ∧ broken r = Some err ∧
                  isinstance err ChunkedEncodingError = true)) ∧
    tr = [EvGet n (item_url item) None; EvCreate (file_path +:+ CONST_LOCK)] ++
         map (EvWrite (file_path +:+ CONST_LOCK))
             (filter (λ c, Str.truthy c = true) (body r)) ++
         warn ++ [EvRename (file_path +:+ CONST_LOCK) file_path].

(** An event that is no rename and no writing of a registry document. *)
Definition unfinished (ev : event) : Prop :=
  match ev with
  | EvRename _ _ | EvTruncate _ | EvStore _ _ => False
  | _ => True
  end.

(** Whatever its outcome, a computation only adds to the log, adds only
    events with property [P], and changes the disk only at paths that one
    of these events touches. *)
Definition traced {A} (P : event → Prop) (m : M A) : Prop :=
  ∀ w o w', m w = (o, w') →
    ∃ evs, log w' = log w ++ evs ∧ Forall P evs ∧
      ∀ p, fs w' !! p = fs w !! p ∨ Exists (touches p) evs.

(** The last character of a string. *)
Fixpoint last_char (s : string) : option ascii :=
  match s with
  | EmptyString => None
  | String c s' =>
      match last_char s' with
      | None => Some c
      | Some d => Some d
      end
  end.


(** [t] is the first term of [terms] that occurs in [title]. *)
Definition first_hit (title : string) (terms : list string) (t : string) : Prop :=
  ∃ pre post, terms = pre ++ t :: post ∧
    ci_substring (Str.strip t) title ∧
    ∀ u, u ∈ pre → ¬ ci_substring (Str.strip u) title.

(** The listing of a folder with the items whose title passes the title
    criteria, in the folder's order. *)
Definition title_listing (title : list string) (recording : Directory) : listing :=
  mkListing (dir_title recording) (dir_id recording)
            (filter (λ item, has_title_match item title = true) (dir_items recording)).

(** Among the events [evs] is a request for the item's URL, without a
    timeout, that the appliance answered with the length of a recording
    in progress. *)
Definition answered_live {E : Env} (evs : list event) (item : Item) : Prop :=
  ∃ n r, EvGet n (item_url item) None ∈ evs ∧
         http n (item_url item) = Answer r ∧
         content_length r = Length MAX_OCTET.


(** A non-empty run of decimal digits. *)
Definition digits (d : string) : Prop :=
  d ≠ "" ∧ Forall (λ c, is_digit c = true) (list_ascii_of_string d).



(** The exception in which the request of [download_file] and the reading
    of its headers end: no connection, a 4xx/5xx status, or a
    [content-length] header that is missing or is no number. *)
Definition request_error (r : response) : option exn :=
  match r with
  | Refused => Some (Exn ReqConnectionError [])
  | Answer a =>
      if ((400 <=? status a) && (status a <? 600))%nat
      then Some (Exn HTTPError [PyInt (Z.of_nat (status a))])
      else match content_length a with
           | Absent => Some (Exn TypeError [])
           | Malformed => Some (Exn ValueError [])
           | Length _ => None
           end
  | NoReply => None
  end.


(** Whatever its outcome, a computation leaves the report dictionaries it
    finds in place, each with the item it was made for. *)
Definition keeps_items {A} (m : M A) : Prop :=
  ∀ w o w', m w = (o, w') → map res_item (heap w') = map res_item (heap w).


(** The world once the events [evs] have been logged. *)
Definition emit_all (evs : list event) (w : world) : world :=
  mkWorld (fs w) (reqs w) (ops w) (heap w) (log w ++ evs).

(** The lines [print_recordings] prints for a folder: its title, then
    title and URL of each of its items. *)
Definition listing_lines (recording : listing) : list event :=
  EvPrint (tabs 1 +:+ " -- " +:+ l_title recording) ::
  map (λ item, EvPrint (tabs 2 +:+ " -- " +:+
                        (item_title item +:+ " (" +:+ item_url item +:+ ")")))
      (l_items recording).

(** The dictionary [print_recordings] hands to [json.dumps] for a folder. *)
Definition folder_json_of (recording : listing) : folder_json :=
  mkFolderJson (l_id recording) (l_title recording)
               (map create_item (l_items recording)).


(** The items of the pairs [xs] that are due when their round starts,
    in the run of the rounds for [xs] from the locals [st] and the world
    [w]: an item is due when [overwrite] is set or the registry of that
    moment does not contain it. *)
Fixpoint due_items {E : Env} (path : string) (overwrite : bool)
    (xs : list (listing * Item)) (st : save_state) (w : world) : list Item :=
  match xs with
  | [] => []
  | (show, item) :: xs' =>
      (if overwrite || negb (contains (saved_files st) item) then [item] else []) ++
      match save_item path overwrite show item st w with
      | (Ret st1, w1) => due_items path overwrite xs' st1 w1
      | _ => []
      end
  end.


(** ** Sample data *)

Module Sample.

Definition empty_world : world := mkWorld ∅ 0 0 [] [].

Definition pilot : Item :=
  mkItem "7" "S01 E02 Pilot" "http://fetch/7" "1800" "900" "First episode".

Definition drama : Directory := mkDirectory "d1" "Drama" [pilot].

Definition drama_listing : listing := mkListing "Drama" "d1" [pilot].

Definition news : Directory := mkDirectory "d2" "Evening News" [].

Definition plain_str (e : exn) : string := "error".

(** An appliance that gives the same response to every request, on a
    disk without faults. *)
Definition appliance (r : response) : Env :=
  {| sep := "/"; http := λ _ _, r; disk := λ _, None; str_of_exn := plain_str;
     torn := λ _, Some ""; foreign_document := λ _, Exn ValueError [] |}.

Definition registry_of_pilot : SavedFiles :=
  mkSavedFiles {[ "7" := "S01 E02 Pilot" ]} "root".

(** A save root in which the lock marker of [pilot] exists. *)
Definition locked_world : world :=
  mkWorld {[ "root/Drama/S01_E02_Pilot.mpeg.lock" := FFile (Data "abc") ]} 0 0 [] [].

(** A save root whose registry holds [pilot]. *)
Definition saved_world : world :=
  mkWorld {[ "root/fetchtv_save_list.json" := FFile (Pickle registry_of_pilot) ]} 0 0 [] [].

(** An answer of status 200 with the given length, body and end of stream. *)
Definition answer (n : Z) (chunks : list string) (stop : option exn) : response :=
  Answer (mkReply 200 (Length n) chunks stop).

(** The stream breaks with a [ChunkedEncodingError] that wraps a
    [ProtocolError] with the given arguments. *)
Definition broken_stream (inner : list pyobj) : response :=
  answer 1000 ["abc"] (Some (Exn ChunkedEncodingError [PyErr ProtocolError inner])).

(** The locals at the start of the loops, with an empty registry loaded. *)
Definition fresh : save_state := mkSave false (mkSavedFiles ∅ "root") [].


(** The empty save root ["root"] once the registry has been loaded. *)
Definition loaded_world : world :=
  mkWorld {[ "root/fetchtv_save_list.json" := FFile (Data "") ]} 0 1 []
          [EvOpenRegistry "root/fetchtv_save_list.json"].


(** [loaded_world] after the first steps of the round for [pilot]: folder
    made, report entry created, request sent. *)
Definition answered_world : world :=
  mkWorld (<[ "root/Drama" := FDir ]> (fs loaded_world)) 1 2
          [mkResult (create_item pilot) false None None]
          [EvOpenRegistry "root/fetchtv_save_list.json";
           EvMakedirs "root/Drama";
           EvPrint (tabs 1 +:+ " -- Writing: [S01 E02 Pilot] to [root/Drama/S01_E02_Pilot.mpeg]");
           EvGet 0 "http://fetch/7" None].

(** [answered_world] after the chunk ["abc"] has been written to the lock
    file. *)
Definition streamed_world : world :=
  mkWorld (<[ "root/Drama/S01_E02_Pilot.mpeg.lock" := FFile (Data "abc") ]>
             (fs answered_world)) 1 4
          (heap answered_world)
          (log answered_world ++
           [EvCreate "root/Drama/S01_E02_Pilot.mpeg.lock";
            EvWrite "root/Drama/S01_E02_Pilot.mpeg.lock" "abc"]).


(** The save root after a run that saved [pilot], body ["abc"]. *)
Definition finished_world : world :=
  mkWorld (<[ "root/fetchtv_save_list.json" := FFile (Pickle registry_of_pilot) ]>
             (<[ "root/Drama/S01_E02_Pilot.mpeg" := FFile (Data "abc") ]>
                (<[ "root/Drama" := FDir ]> ∅))) 1 7
          [mkResult (create_item pilot) true None None]
          (log streamed_world ++
           [EvRename "root/Drama/S01_E02_Pilot.mpeg.lock" "root/Drama/S01_E02_Pilot.mpeg";
            EvTruncate "root/fetchtv_save_list.json";
            EvStore "root/fetchtv_save_list.json" registry_of_pilot]).


(** [loaded_world] after [add_file] has stored the registry that holds
    [pilot]. *)
Definition stored_world : world :=
  mkWorld {[ "root/fetchtv_save_list.json" := FFile (Pickle registry_of_pilot) ]} 0 3 []
          [EvOpenRegistry "root/fetchtv_save_list.json";
           EvTruncate "root/fetchtv_save_list.json";
           EvStore "root/fetchtv_save_list.json" registry_of_pilot].

(** [loaded_world] after the folder of [drama] has been made. *)
Definition directory_world : world :=
  mkWorld (<[ "root/Drama" := FDir ]> (fs loaded_world)) 0 2 []
          [EvOpenRegistry "root/fetchtv_save_list.json"; EvMakedirs "root/Drama"].

(** A disk whose second operation fails, in front of an appliance that
    refuses every connection. *)
Definition full_disk : Env :=
  {| sep := "/"; http := λ _ _, Refused;
     disk := λ n, if (n =? 1)%nat then Some "No space left on device" else None;
     str_of_exn := plain_str;
     torn := λ _, Some ""; foreign_document := λ _, Exn ValueError [] |}.

(** A stand-in for [json.dumps]: the ids of the folders. *)
Definition folder_ids (output : list folder_json) : string :=
  fold_right String.append "" (map fj_id output).


End Sample.

(** * Properties *)

(** ** Strings *)

Lemma prefix_spec (sub s : string) :
  String.prefix sub s = true ↔ ∃ post, s = sub +:+ post.
Proof.
  revert s. induction sub as [|c sub IH]; intros s.
  - destruct s; simpl; (split; [intros _; eauto | done]).
  - destruct s as [|d s]; simpl.
    + split; [done | intros [post Hpost]; discriminate].
    + destruct (Ascii.ascii_dec c d) as [->|Hne].
      * rewrite IH. split; intros [post Hpost]; exists post.
        -- by rewrite Hpost.
        -- by injection Hpost.
      * split; [done | intros [post Hpost]; injection Hpost; congruence].
Qed.

Lemma find_lower_bound (s sub : string) : -1 ≤ Str.find s sub.
Proof.
  induction s as [|c s IH]; cbn [Str.find].
  - destruct (String.prefix sub ""); lia.
  - destruct (String.prefix sub (String c s)); [lia|].
    destruct (Z.eqb_spec (Str.find s sub) (-1)); lia.
Qed.

(** [find] answers -1 exactly when [sub] does not occur in [s]. *)
Lemma find_spec (s sub : string) :
  Str.find s sub ≠ -1 ↔ ∃ pre post, s = pre +:+ sub +:+ post.
Proof.
  induction s as [|c s IH].
  - cbn [Str.find]. destruct (String.prefix sub "") eqn:Hp.
    + split; [intros _ | done].
      apply prefix_spec in Hp as [post Hp]. by exists "", post.
    + split; [done | intros [pre [post Heq]]].
      destruct pre; [|discriminate]. simpl in Heq.
      assert (String.prefix sub "" = true) by (apply prefix_spec; eauto).
      congruence.
  - cbn [Str.find]. destruct (String.prefix sub (String c s)) eqn:Hp.
    + split; [intros _ | done].
      apply prefix_spec in Hp as [post Hp]. by exists "", post.
    + pose proof (find_lower_bound s sub) as Hlb.
      destruct (Z.eqb_spec (Str.find s sub) (-1)) as [Heq|Hne].
      * split; [done | intros [pre [post Hocc]]].
        destruct pre as [|d pre]; simpl in Hocc.
        -- assert (String.prefix sub (String c s) = true)
             by (apply prefix_spec; eauto).
           congruence.
        -- injection Hocc as _ Hocc. exfalso.
           assert (Str.find s sub ≠ -1) by (apply IH; eauto). done.
      * split; [intros _ | lia].
        apply IH in Hne as [pre [post Hocc]].
        exists (String c pre), post. simpl. by rewrite Hocc.
Qed.

Lemma term_found_spec (title term : string) :
  term_found title term = true ↔ ci_substring (Str.strip term) title.
Proof.
  unfold term_found, ci_substring. rewrite negb_true_iff, Z.eqb_neq.
  apply find_spec.
Qed.

(** ** Matching a title against a list of terms *)

Lemma next_match_cons (title t : string) (terms : list string) :
  next_match title (t :: terms) =
  if term_found title t then Some t else next_match title terms.
Proof.
  unfold next_match. rewrite filter_cons.
  destruct (term_found title t); by case_decide.
Qed.

(** Unless the empty string is among the terms, the value [next] returns is
    true exactly when some term is found. *)
Lemma next_truthy_spec (title : string) (terms : list string) :
  "" ∉ terms →
  next_truthy (next_match title terms) = true ↔
  ∃ t, t ∈ terms ∧ ci_substring (Str.strip t) title.
Proof.
  induction terms as [|t terms IH]; intros Hne.
  - split; [done | intros [t [Ht _]]; by apply elem_of_nil in Ht].
  - rewrite next_match_cons. apply not_elem_of_cons in Hne as [Ht Hne].
    destruct (term_found title t) eqn:Hfound.
    + split.
      * intros _. exists t. split; [left | by apply term_found_spec].
      * intros _. destruct t; [done | reflexivity].
    + rewrite (IH Hne). split.
      * intros [t' [Hin Hsub]]. exists t'. split; [by right | done].
      * intros [t' [Hin Hsub]]. apply elem_of_cons in Hin as [->|Hin].
        -- apply term_found_spec in Hsub. congruence.
        -- eauto.
Qed.

Lemma has_include_folder_spec (recording : Directory) (folder : list string) :
  "" ∉ folder →
  has_include_folder recording folder = true ↔
  folder = [] ∨ ∃ t, t ∈ folder ∧ ci_substring (Str.strip t) (dir_title recording).
Proof.
  intros Hne. unfold has_include_folder. destruct folder as [|t folder]; [by split; eauto|].
  cbn [nonempty andb]. rewrite negb_involutive, (next_truthy_spec _ _ Hne).
  split; [eauto | by intros [|]].
Qed.

Lemma has_title_match_spec (item : Item) (title : list string) :
  "" ∉ title →
  has_title_match item title = true ↔
  title = [] ∨ ∃ t, t ∈ title ∧ ci_substring (Str.strip t) (item_title item).
Proof.
  intros Hne. unfold has_title_match. destruct title as [|t title]; [by split; eauto|].
  cbn [nonempty andb]. rewrite negb_involutive, (next_truthy_spec _ _ Hne).
  split; [eauto | by intros [|]].
Qed.

Lemma has_exclude_folder_spec (recording : Directory) (exclude : list string) :
  "" ∉ exclude →
  has_exclude_folder recording exclude = true ↔
  ∃ t, t ∈ exclude ∧ ci_substring (Str.strip t) (dir_title recording).
Proof.
  intros Hne. unfold has_exclude_folder. destruct exclude as [|t exclude].
  - split; [done | intros [t [Ht _]]; by apply elem_of_nil in Ht].
  - cbn [nonempty andb]. by apply next_truthy_spec.
Qed.

(** ** Reasoning about runs *)

Lemma bind_ret {A B} (m : M A) (k : A → M B) (w w' : world) (a : A) :
  m w = (Ret a, w') → bind m k w = k a w'.
Proof. unfold bind. by intros ->. Qed.

Lemma bind_raise {A B} (m : M A) (k : A → M B) (w w' : world) (e : exn) :
  m w = (Raise e, w') → bind m k w = (Raise e, w').
Proof. unfold bind. by intros ->. Qed.

Lemma bind_hang {A B} (m : M A) (k : A → M B) (w w' : world) :
  m w = (Hang, w') → bind m k w = (Hang, w').
Proof. unfold bind. by intros ->. Qed.

(** A bind that returns did so through a first part that returned. *)
Lemma bind_ret_inv {A B} (m : M A) (k : A → M B) (w w' : world) (b : B) :
  bind m k w = (Ret b, w') → ∃ a w1, m w = (Ret a, w1) ∧ k a w1 = (Ret b, w').
Proof.
  unfold bind. destruct (m w) as [[a|e|] w1]; [eauto | done | done].
Qed.

(** A property of the loop variable that every returning round keeps holds
    when the loop returns. *)
Lemma for_in_invariant {A S} (I : S → Prop) (xs : list A) (body : A → S → M S) :
  (∀ x s w s' w', x ∈ xs → I s → body x s w = (Ret s', w') → I s') →
  ∀ s w s' w', I s → for_in xs body s w = (Ret s', w') → I s'.
Proof.
  induction xs as [|x xs IH]; intros Hbody s w s' w' Hs Hrun.
  - injection Hrun as <- _. done.
  - cbn [for_in] in Hrun. apply bind_ret_inv in Hrun as (s1 & w1 & Hx & Hrest).
    eapply IH; [| |exact Hrest].
    + intros. eapply Hbody; [by right | done..].
    + eapply Hbody; [by left | done..].
Qed.

Section Properties.

Context {E : Env}.

(** ** The catalogue filter *)

Lemma filter_recording_from_catalogue folder exclude title shows is_recording
    recordings recording results w results' w' :
  recording ∈ recordings →
  Forall (from_catalogue folder exclude recordings) results →
  filter_recording folder exclude title shows is_recording recording results w
    = (Ret results', w') →
  Forall (from_catalogue folder exclude recordings) results'.
Proof.
  intros Hin Hres. unfold filter_recording.
  destruct (has_include_folder recording folder) eqn:Hinc; cbn [negb orb];
    [destruct (has_exclude_folder recording exclude) eqn:Hexc|].
  - intros [= <- _]. done.
  - intros (items & w1 & _ & Hret)%bind_ret_inv.
    assert (Forall (from_catalogue folder exclude recordings)
              (results ++ [mkListing (dir_title recording) (dir_id recording) items])).
    { apply Forall_app. split; [done|]. apply Forall_singleton.
      exists recording. unfold folder_ok. rewrite Hinc, Hexc. done. }
    destruct is_recording; injection Hret as <- _; [|done].
    apply Forall_forall. intros l [_ Hl]%list_elem_of_filter.
    rewrite Forall_forall in H. auto.
  - intros [= <- _]. done.
Qed.

Lemma filter_recording_items_from_catalogue folder exclude title shows is_recording
    recordings w rs w' :
  filter_recording_items folder exclude title shows is_recording recordings w
    = (Ret rs, w') →
  Forall (from_catalogue folder exclude recordings) rs.
Proof.
  unfold filter_recording_items.
  apply (for_in_invariant (Forall (from_catalogue folder exclude recordings)));
    [|by apply Forall_nil].
  intros x s w0 s' w0' Hx Hs Hbody.
  by eapply filter_recording_from_catalogue.
Qed.

(** C7 (as amended).  On titles and terms of code points below U+0100, a
    term matches a title when the term, stripped of surrounding whitespace
    as [str.strip] does, occurs in the title with case ignored, that is,
    after [str.lower] on both; an empty include list matches every title;
    and, for term lists without the empty string, a folder whose title is
    matched by an exclude term is absent from the result whatever the
    include terms are. *)
Theorem matching_strips_and_ignores_case (folder exclude title : list string) :
  (∀ recording, "" ∉ folder →
     has_include_folder recording folder = true ↔
     folder = [] ∨ ∃ t, t ∈ folder ∧ ci_substring (Str.strip t) (dir_title recording)) ∧
  (∀ item, "" ∉ title →
     has_title_match item title = true ↔
     title = [] ∨ ∃ t, t ∈ title ∧ ci_substring (Str.strip t) (item_title item)) ∧
  (∀ recording item,
     has_include_folder recording [] = true ∧ has_title_match item [] = true) ∧
  (∀ shows is_recording recordings d w rs w',
     "" ∉ exclude →
     (∃ t, t ∈ exclude ∧ ci_substring (Str.strip t) (dir_title d)) →
     filter_recording_items folder exclude title shows is_recording recordings w
       = (Ret rs, w') →
     ∀ l, l ∈ rs → l_title l ≠ dir_title d).
Proof.
  split; [|split; [|split]].
  - intros recording. apply has_include_folder_spec.
  - intros item. apply has_title_match_spec.
  - done.
  - intros shows is_recording recordings d w rs w' Hne Hmatch Hrun l Hl Htitle.
    apply filter_recording_items_from_catalogue in Hrun.
    rewrite Forall_forall in Hrun.
    destruct (Hrun l Hl) as (r & _ & Hr & _ & Hok).
    unfold folder_ok in Hok. apply andb_true_iff in Hok as [_ Hexc].
    apply negb_true_iff in Hexc.
    assert (has_exclude_folder r exclude = true) as Hyes; [|congruence].
    apply has_exclude_folder_spec; [done|].
    destruct Hmatch as (t & Ht & Hsub). exists t. split; [done|].
    by rewrite <- Hr, Htitle.
Qed.

(** With [shows] set, a round of the folder loop touches nothing outside. *)
Lemma filter_recording_shows folder exclude title is_recording recording results w :
  filter_recording folder exclude title true is_recording recording results w =
  (Ret (if folder_ok folder exclude recording
        then let results := results ++ [bare_listing recording] in
             if is_recording
             then filter (λ result, (0 <? length (l_items result))%nat = true) results
             else results
        else results), w).
Proof.
  unfold filter_recording, folder_ok.
  destruct (has_include_folder recording folder),
           (has_exclude_folder recording exclude); cbn; try done.
  by destruct is_recording.
Qed.

Lemma for_in_shows_listing folder exclude title recordings results w :
  for_in recordings (filter_recording folder exclude title true false) results w =
  (Ret (results ++
        map bare_listing (filter (λ r, folder_ok folder exclude r = true) recordings)), w).
Proof.
  revert results. induction recordings as [|r recordings IH]; intros results.
  - cbn. by rewrite app_nil_r.
  - cbn [for_in]. erewrite bind_ret; [|apply filter_recording_shows].
    rewrite IH, filter_cons. destruct (folder_ok folder exclude r); case_decide; try done.
    cbn. by rewrite <- app_assoc.
Qed.

Lemma for_in_shows_live folder exclude title recordings w :
  for_in recordings (filter_recording folder exclude title true true) [] w = (Ret [], w).
Proof.
  induction recordings as [|r recordings IH]; [done|].
  cbn [for_in]. erewrite bind_ret; [|apply filter_recording_shows].
  by destruct (folder_ok folder exclude r).
Qed.

(** C8.  With [shows] set the filter returns at once, in the world it
    started in: no request is issued, so the detector is never called.
    Every listing it returns has an empty item list; unless
    [is_recording] is set as well they are the folders that pass the
    folder criteria, in catalogue order. *)
Theorem shows_only_never_probes folder exclude title is_recording recordings w :
  ∃ rs,
    filter_recording_items folder exclude title true is_recording recordings w
      = (Ret rs, w) ∧
    Forall (λ l, l_items l = []) rs ∧
    rs = if is_recording then []
         else map bare_listing
                  (filter (λ r, folder_ok folder exclude r = true) recordings).
Proof.
  unfold filter_recording_items. destruct is_recording.
  - exists []. by rewrite for_in_shows_live.
  - eexists. rewrite for_in_shows_listing. split; [done|]. split; [|done].
    cbn. apply Forall_forall. intros l (r & -> & _)%list_elem_of_fmap. done.
Qed.

(** ** Probes *)

Lemma aborts_ret {A} (a : A) : aborts_on_failure (ret a).
Proof.
  intros w o w' [= <- <-]. exists []. rewrite app_nil_r. split; [done|].
  intros n url t e Hin. by apply elem_of_nil in Hin.
Qed.

Lemma aborts_bind {A B} (m : M A) (k : A → M B) :
  aborts_on_failure m → (∀ a, aborts_on_failure (k a)) →
  aborts_on_failure (bind m k).
Proof.
  intros Hm Hk w o w' Hrun. unfold bind in Hrun.
  destruct (m w) as [[a|e|] w1] eqn:Hmw.
  - destruct (Hm _ _ _ Hmw) as (evs1 & Hlog1 & H1).
    destruct (Hk a _ _ _ Hrun) as (evs2 & Hlog2 & H2).
    exists (evs1 ++ evs2). split; [by rewrite Hlog2, Hlog1, app_assoc|].
    intros n url t e [Hin|Hin]%elem_of_app Hfail.
    + by destruct (H1 _ _ _ _ Hin Hfail).
    + destruct (H2 _ _ _ _ Hin Hfail) as [-> Hlast]. split; [done|].
      by rewrite last_app, Hlast.
  - injection Hrun as <- <-.
    destruct (Hm _ _ _ Hmw) as (evs & Hlog & H1). exists evs. split; [done|].
    intros n url t e' Hin Hfail.
    destruct (H1 _ _ _ _ Hin Hfail) as [[= ->] Hlast]. done.
  - injection Hrun as <- <-.
    destruct (Hm _ _ _ Hmw) as (evs & Hlog & H1). exists evs. split; [done|].
    intros n url t e' Hin Hfail.
    by destruct (H1 _ _ _ _ Hin Hfail).
Qed.

Lemma aborts_for_in {A S} (xs : list A) (body : A → S → M S) (s : S) :
  (∀ x s, aborts_on_failure (body x s)) → aborts_on_failure (for_in xs body s).
Proof.
  intros Hbody. revert s. induction xs as [|x xs IH]; intros s; cbn [for_in].
  - apply aborts_ret.
  - apply aborts_bind; [apply Hbody | apply IH].
Qed.

Lemma aborts_currently_recording (item : Item) :
  aborts_on_failure (currently_recording item).
Proof.
  intros w o w' Hrun. exists [EvGet (reqs w) (item_url item) None].
  unfold currently_recording, bind, requests_get, raise_for_status,
    int_content_length in Hrun.
  assert (∀ n url t e, EvGet n url t ∈ [EvGet (reqs w) (item_url item) None] →
            transport_failure (http n url) = Some e →
            transport_failure (http (reqs w) (item_url item)) = Some e) as Hsame.
  { intros n url t e Hin Hfail. apply list_elem_of_singleton in Hin.
    by injection Hin as -> -> ->. }
  unfold transport_failure in Hsame.
  destruct (http (reqs w) (item_url item)) as [| |r].
  - injection Hrun as <- <-. split; [done|]. intros n url t e Hin Hfail.
    by specialize (Hsame _ _ _ _ Hin Hfail).
  - injection Hrun as <- <-. split; [done|]. intros n url t e Hin Hfail.
    specialize (Hsame _ _ _ _ Hin Hfail). injection Hsame as <-.
    split; [done|]. apply list_elem_of_singleton in Hin. by rewrite Hin.
  - destruct ((400 <=? status r) && (status r <? 600))%nat.
    + injection Hrun as <- <-. split; [done|]. intros n url t e Hin Hfail.
      specialize (Hsame _ _ _ _ Hin Hfail). injection Hsame as <-.
      split; [done|]. apply list_elem_of_singleton in Hin. by rewrite Hin.
    + assert (log w' = log w ++ [EvGet (reqs w) (item_url item) None]) as Hlog.
      { unfold ret, raise in Hrun.
        destruct (content_length r); by injection Hrun as _ <-. }
      split; [done|]. intros n url t e Hin Hfail.
      by specialize (Hsame _ _ _ _ Hin Hfail).
Qed.

Lemma aborts_filter_item title is_recording item items :
  aborts_on_failure (filter_item title is_recording item items).
Proof.
  unfold filter_item. destruct (negb (has_title_match item title)); [apply aborts_ret|].
  apply aborts_bind.
  - destruct (negb is_recording); [apply aborts_ret | apply aborts_currently_recording].
  - intros []; apply aborts_ret.
Qed.

Lemma aborts_filter_recording folder exclude title shows is_recording recording results :
  aborts_on_failure
    (filter_recording folder exclude title shows is_recording recording results).
Proof.
  unfold filter_recording.
  destruct (negb (has_include_folder recording folder) || has_exclude_folder recording exclude);
    [apply aborts_ret|].
  apply aborts_bind.
  - destruct (negb shows); [|apply aborts_ret].
    apply aborts_for_in. intros. apply aborts_filter_item.
  - intros items. destruct is_recording; apply aborts_ret.
Qed.

(** C2 (as amended).  A probe that meets a transport failure (no
    connection, or a 4xx/5xx status) ends the filtering run: the request
    is the last event of the run, and the run raises the failure instead
    of returning a result. *)
Theorem probe_failure_aborts_filter folder exclude title shows is_recording
    recordings w o w' :
  filter_recording_items folder exclude title shows is_recording recordings w = (o, w') →
  ∃ evs, log w' = log w ++ evs ∧
    ∀ n url t e, EvGet n url t ∈ evs → transport_failure (http n url) = Some e →
      o = Raise e ∧ last evs = Some (EvGet n url t).
Proof.
  apply (aborts_for_in recordings). intros. apply aborts_filter_recording.
Qed.

(** ** Loops *)

Lemma for_in_app {A S} (xs ys : list A) (body : A → S → M S) (s : S) (w : world) :
  for_in (xs ++ ys) body s w = (s' ← for_in xs body s; for_in ys body s') w.
Proof.
  revert s w. induction xs as [|x xs IH]; intros s w; cbn [for_in app].
  - done.
  - unfold bind. destruct (body x s w) as [[s1| |] w1]; [|done..].
    rewrite IH. done.
Qed.

Lemma for_in_map {A B S} (f : A → B) (xs : list A) (body : B → S → M S) (s : S) (w : world) :
  for_in (map f xs) body s w = for_in xs (λ x, body (f x)) s w.
Proof.
  revert s w. induction xs as [|x xs IH]; intros s w; cbn [for_in map]; [done|].
  unfold bind. destruct (body (f x) s w) as [[s1| |] w1]; [apply IH | done..].
Qed.

(** A loop whose rounds all leave locals and world alone does so too. *)
Lemma for_in_idle {A S} (xs : list A) (body : A → S → M S) (s : S) (w : world) :
  (∀ x, x ∈ xs → body x s w = (Ret s, w)) → for_in xs body s w = (Ret s, w).
Proof.
  induction xs as [|x xs IH]; intros Hidle; cbn [for_in]; [done|].
  erewrite bind_ret; [|apply Hidle; by left].
  apply IH. intros. apply Hidle. by right.
Qed.

(** A round that raises ends the loop. *)
Lemma for_in_raise {A S} (xs ys : list A) (x : A) (body : A → S → M S)
    (s s1 : S) (w w1 w2 : world) (e : exn) :
  for_in xs body s w = (Ret s1, w1) →
  body x s1 w1 = (Raise e, w2) →
  for_in (xs ++ x :: ys) body s w = (Raise e, w2).
Proof.
  intros Hxs Hx. rewrite for_in_app. erewrite bind_ret; [|exact Hxs].
  cbn [for_in]. by erewrite bind_raise.
Qed.

(** The two nested loops visit the pairs of [work] in order. *)
Lemma save_loop_work path overwrite recordings st w :
  save_loop path overwrite recordings st w =
  for_in (work recordings) (save_step path overwrite) st w.
Proof.
  unfold save_loop. revert st w.
  induction recordings as [|show recordings IH]; intros st w; [done|].
  cbn [for_in work flat_map]. rewrite for_in_app. unfold bind. rewrite for_in_map.
  change (λ x st0, save_step path overwrite (show, x) st0)
    with (save_item path overwrite show).
  destruct (for_in (l_items show) _ st w) as [[s1| |] w1]; [apply IH | done..].
Qed.


(** ** Paths *)

Lemma string_app_assoc (a b c : string) : (a +:+ b) +:+ c = a +:+ b +:+ c.
Proof.
  induction a as [|x a IH]; [done|].
  change (String x ((a +:+ b) +:+ c) = String x (a +:+ b +:+ c)). by rewrite IH.
Qed.

Lemma prefix_app (a b : string) : String.prefix a (a +:+ b) = true.
Proof. apply prefix_spec. by exists b. Qed.

Lemma has_descendant_spec (m : gmap string node) (p : string) :
  has_descendant m p = true ↔
  ∃ q, is_Some (m !! q) ∧ String.prefix (p +:+ sep) q = true.
Proof.
  unfold has_descendant. rewrite existsb_exists. split.
  - intros (q & Hin & Hpre). exists q. split; [|done].
    apply in_map_iff in Hin as ([q' n] & <- & Hin).
    apply list_elem_of_In, elem_of_map_to_list in Hin. by exists n.
  - intros (q & [n Hn] & Hpre). exists q. split; [|done].
    apply in_map_iff. exists (q, n). split; [done|].
    by apply list_elem_of_In, elem_of_map_to_list.
Qed.

Lemma path_exists_spec (m : gmap string node) (p : string) :
  path_exists m p = true ↔
  ∃ q, is_Some (m !! q) ∧ (q = p ∨ String.prefix (p +:+ sep) q = true).
Proof.
  unfold path_exists. rewrite orb_true_iff, bool_decide_eq_true, has_descendant_spec.
  split.
  - intros [Hp|(q & Hq & Hpre)]; [exists p | exists q]; eauto.
  - intros (q & Hq & [->|Hpre]); eauto.
Qed.

(** Whatever lies below an existing path keeps the path in existence. *)
Lemma path_exists_above (m : gmap string node) (d rest : string) :
  path_exists m (d +:+ sep +:+ rest) = true → path_exists m d = true.
Proof.
  rewrite !path_exists_spec. intros (q & Hq & Hcase). exists q. split; [done|].
  right. destruct Hcase as [->|Hpre].
  - rewrite <- string_app_assoc. apply prefix_app.
  - apply prefix_spec in Hpre as [post ->]. apply prefix_spec.
    exists (rest +:+ sep +:+ post). by rewrite !string_app_assoc.
Qed.

Lemma lock_path_below_directory path show item :
  item_file_path path show item +:+ CONST_LOCK =
  show_directory path show +:+ sep +:+
    (create_valid_filename (item_title item) +:+ ".mpeg" +:+ CONST_LOCK).
Proof. unfold item_file_path. by rewrite !string_app_assoc. Qed.

(** ** Single steps *)

Lemma ensure_directory_present directory w :
  path_exists (fs w) directory = true → ensure_directory directory w = (Ret tt, w).
Proof. intros Hp. unfold ensure_directory, bind, os_path_exists, get. by rewrite Hp. Qed.

Lemma alter_last {A} (f : A → A) (h : list A) (x : A) :
  alter f (length h) (h ++ [x]) = h ++ [f x].
Proof.
  replace (length h) with (length h + 0)%nat by lia. by rewrite alter_app_r.
Qed.

(** ** Items that are not downloaded *)

(** C6.  When the lock marker of a due item exists, the round of the loop
    ends with the report entry "already writing": nothing on disk changes,
    so the marker stays as it is, no disk operation and no request is
    attempted, and the only output is the printed message. *)
Theorem locked_item_is_skipped path overwrite show item st w :
  (overwrite || negb (contains (saved_files st) item)) = true →
  path_exists (fs w) (item_file_path path show item +:+ CONST_LOCK) = true →
  ∃ w',
    save_item path overwrite show item st w
      = (Ret (mkSave true (saved_files st) (json_result st ++ [length (heap w)])), w') ∧
    heap w' = heap w ++ [mkResult (create_item item) false (Some (msg_locked item)) None] ∧
    fs w' = fs w ∧ reqs w' = reqs w ∧ ops w' = ops w ∧
    log w' = log w ++ [EvPrint (tabs 1 +:+ " -- " +:+ msg_locked item)].
Proof.
  intros Hdue Hlock. unfold save_item. rewrite Hdue.
  erewrite bind_ret; [|apply ensure_directory_present].
  2: { rewrite lock_path_below_directory in Hlock. by eapply path_exists_above. }
  unfold bind, alloc, os_path_exists, get. cbn [fs set_heap]. rewrite Hlock.
  eexists. split; [reflexivity|]. cbn. by rewrite alter_last.
Qed.


Lemma save_item_saved path show item st w :
  contains (saved_files st) item = true →
  save_item path false show item st w = (Ret st, w).
Proof. intros Hin. unfold save_item. by rewrite Hin. Qed.

Lemma add_file_ret self item w saved w' :
  add_file self item w = (Ret saved, w') →
  saved = mkSavedFiles (<[item_id item := item_title item]> (sf_files self)) (sf_path self).
Proof.
  unfold add_file. intros (_ & w1 & _ & Hrun)%bind_ret_inv.
  apply bind_ret_inv in Hrun as (is_dir & w2 & _ & Hrun).
  destruct is_dir; [done|].
  repeat (apply bind_ret_inv in Hrun as (_ & ? & _ & Hrun)).
  by injection Hrun as <- _.
Qed.

(** A round of the loop leaves the registry alone or adds its item. *)
Lemma save_item_registry path overwrite show item st w st' w' :
  save_item path overwrite show item st w = (Ret st', w') →
  saved_files st' = saved_files st ∨
  saved_files st' =
    mkSavedFiles (<[item_id item := item_title item]> (sf_files (saved_files st)))
                 (sf_path (saved_files st)).
Proof.
  unfold save_item. destruct (overwrite || negb (contains (saved_files st) item));
    [|intros [= <- _]; by left].
  intros (_ & w1 & _ & Hrun)%bind_ret_inv.
  apply bind_ret_inv in Hrun as (result & w2 & _ & Hrun).
  apply bind_ret_inv in Hrun as (locked & w3 & _ & Hrun).
  destruct locked.
  - apply bind_ret_inv in Hrun as (_ & w4 & _ & Hrun).
    apply bind_ret_inv in Hrun as (_ & w5 & _ & Hrun).
    injection Hrun as <- _. by left.
  - apply bind_ret_inv in Hrun as (ok & w4 & _ & Hrun). destruct ok.
    + apply bind_ret_inv in Hrun as (_ & w5 & _ & Hrun).
      apply bind_ret_inv in Hrun as (saved & w6 & Hadd & Hrun).
      injection Hrun as <- _. right. by apply add_file_ret in Hadd.
    + injection Hrun as <- _. by left.
Qed.

(** The registry only grows during a run. *)
Lemma registry_grows path overwrite (xs : list (listing * Item)) st w st' w' :
  for_in xs (save_step path overwrite) st w = (Ret st', w') →
  dom (sf_files (saved_files st)) ⊆ dom (sf_files (saved_files st')).
Proof.
  apply (for_in_invariant
           (λ s, dom (sf_files (saved_files st)) ⊆ dom (sf_files (saved_files s))));
    [|done].
  intros [show item] s w0 s' w0' _ Hs Hstep.
  apply save_item_registry in Hstep as [->| ->]; [done|].
  cbn [sf_files]. rewrite dom_insert_L. set_solver.
Qed.

(** C5.  An item whose id is in the loaded registry is passed over when
    [overwrite] is off: its round of the loop returns with locals and
    world as they were.  When this holds for every item of the run, the run
    returns an empty report, and the world it leaves is the one in which
    the registry was loaded, plus the printed line that there is nothing
    new to record. *)
Theorem saved_items_are_skipped path recordings w reg :
  (∀ before show item st w1,
     reaches path false recordings w reg before show item st w1 →
     contains reg item = true →
     save_item path false show item st w1 = (Ret st, w1)) ∧
  (∀ w0,
     SavedFiles_load path w = (Ret reg, w0) →
     (∀ show item, (show, item) ∈ work recordings → contains reg item = true) →
     save_recordings recordings path false w
       = (Ret [], emit (EvPrint msg_nothing_new) w0)).
Proof.
  split.
  - intros before show item st w1 (w0 & after & _ & _ & Hrun) Hin.
    apply save_item_saved. apply registry_grows in Hrun. cbn [saved_files] in Hrun.
    unfold contains in *. apply bool_decide_eq_true in Hin.
    apply bool_decide_eq_true. set_solver.
  - intros w0 Hload Hall. unfold save_recordings.
    erewrite bind_ret; [|exact Hload].
    erewrite bind_ret.
    2: { rewrite save_loop_work. apply for_in_idle. intros [show item] Hin.
         apply save_item_saved. cbn [saved_files]. by apply (Hall show). }
    reflexivity.
Qed.


(** ** The transfer *)

Lemma file_write_run p chunk w o w' :
  file_write p chunk w = (o, w') →
  (disk (ops w) = None ∧ o = Ret tt ∧
   w' = emit (EvWrite p chunk) (set_fs (alter (append_data chunk) p) (tick_ops w))) ∨
  (∃ msg, disk (ops w) = Some msg ∧ o = Raise (Exn OSError [PyStr msg]) ∧ w' = tick_ops w).
Proof.
  unfold file_write, bind, disk_op, do. destruct (disk (ops w)) as [msg|].
  - intros [= <- <-]. right. by exists msg.
  - intros [= <- <-]. by left.
Qed.

Lemma data_at_alter chunk m p q :
  data_at m q → data_at (alter (append_data chunk) p m) q.
Proof.
  intros [d Hd]. destruct (decide (p = q)) as [->|Hne].
  - exists (d +:+ chunk). by rewrite lookup_alter_eq, Hd.
  - exists d. by rewrite lookup_alter_ne.
Qed.

(** What the loop over the chunks leaves: the chunks written are logged in
    order, only the file written to has changed, and a failure is a disk
    failure. *)
Lemma write_chunks_run lock chunks w o w' :
  for_in chunks
    (λ chunk _, if Str.truthy chunk then file_write lock chunk else ret tt) tt w
    = (o, w') →
  heap w' = heap w ∧ reqs w' = reqs w ∧
  (∀ q, q ≠ lock → fs w' !! q = fs w !! q) ∧
  (data_at (fs w) lock → data_at (fs w') lock) ∧
  ((o = Ret tt ∧
    log w' = log w ++ map (EvWrite lock) (filter (λ c, Str.truthy c = true) chunks)) ∨
   (∃ msg written,
      o = Raise (Exn OSError [PyStr msg]) ∧
      log w' = log w ++ map (EvWrite lock) written)).
Proof.
  revert w. induction chunks as [|chunk chunks IH]; intros w; cbn [for_in].
  - intros [= <- <-]. repeat split; try done. left. by rewrite app_nil_r.
  - unfold bind. rewrite filter_cons.
    destruct (Str.truthy chunk) eqn:Htruthy.
    + destruct (file_write lock chunk w) as [o1 w1] eqn:Hwrite.
      apply file_write_run in Hwrite as [(_ & -> & ->)|(msg & _ & -> & ->)].
      * intros Hrest.
        apply IH in Hrest as (Hheap & Hreqs & Hframe & Hdata & Hlog).
        cbn [heap reqs fs log emit set_fs tick_ops] in *.
        split; [done|]. split; [done|]. split; [|split].
        -- intros q Hq. rewrite (Hframe q Hq). by apply lookup_alter_ne.
        -- intros Hd. by apply Hdata, data_at_alter.
        -- destruct Hlog as [[Ho Hlog]|(msg & written & Ho & Hlog)].
           ++ left. split; [done|]. rewrite Hlog. case_decide; [|done].
              by rewrite <- app_assoc.
           ++ right. exists msg, (chunk :: written). split; [done|].
              rewrite Hlog. by rewrite <- app_assoc.
      * intros [= <- <-]. repeat split; try done. right.
        exists msg, []. by rewrite app_nil_r.
    + unfold ret at 1. intros Hrest.
      apply IH in Hrest. case_decide; [congruence|done].
Qed.


Lemma bind_inv {A B} (m : M A) (k : A → M B) (w w' : world) (o : outcome B) :
  bind m k w = (o, w') →
  (∃ a w1, m w = (Ret a, w1) ∧ k a w1 = (o, w')) ∨
  (∃ e, m w = (Raise e, w') ∧ o = Raise e) ∨
  (m w = (Hang, w') ∧ o = Hang).
Proof.
  unfold bind. destruct (m w) as [[a|e|] w1].
  - intros Hk. left. eauto.
  - intros [= <- <-]. right. left. eauto.
  - intros [= <- <-]. right. right. eauto.
Qed.

Lemma open_x_run p w o w' :
  open_x p w = (o, w') →
  (path_exists (fs w) p = true ∧ o = Raise (Exn FileExistsError [PyStr p]) ∧ w' = w) ∨
  (path_exists (fs w) p = false ∧
   ∃ msg, disk (ops w) = Some msg ∧ o = Raise (Exn OSError [PyStr msg]) ∧
          w' = tick_ops w) ∨
  (path_exists (fs w) p = false ∧ disk (ops w) = None ∧ o = Ret tt ∧
   w' = emit (EvCreate p) (set_fs (insert p (FFile (Data ""))) (tick_ops w))).
Proof.
  unfold open_x, os_path_exists, disk_op, bind, get, do, raise. cbv beta iota.
  destruct (path_exists (fs w) p); cbv beta iota.
  - intros [= <- <-]. by left.
  - destruct (disk (ops w)) as [msg|]; cbv beta iota; intros [= <- <-].
    + right. left. split; [done|]. by exists msg.
    + right. right. done.
Qed.

(** What the [with open(...)] block leaves, case by case: the lock file
    was there; it could not be created; or it was created, and then either
    a write failed or every chunk of the body was written and the block
    ends as the chunk iterator does. *)
Lemma write_stream_run lock r w o w' :
  write_stream lock r w = (o, w') →
  heap w' = heap w ∧ reqs w' = reqs w ∧
  (∀ q, q ≠ lock → fs w' !! q = fs w !! q) ∧
  ((path_exists (fs w) lock = true ∧
    o = Raise (Exn FileExistsError [PyStr lock]) ∧ w' = w) ∨
   (path_exists (fs w) lock = false ∧
    ∃ msg, disk (ops w) = Some msg ∧ o = Raise (Exn OSError [PyStr msg]) ∧
           w' = tick_ops w) ∨
   (path_exists (fs w) lock = false ∧ disk (ops w) = None ∧ data_at (fs w') lock ∧
    ((∃ msg written,
        o = Raise (Exn OSError [PyStr msg]) ∧
        log w' = log w ++ EvCreate lock :: map (EvWrite lock) written) ∨
     (o = match broken r with Some err => Raise err | None => Ret tt end ∧
      log w' = log w ++ EvCreate lock ::
                 map (EvWrite lock) (filter (λ c, Str.truthy c = true) (body r)))))).
Proof.
  unfold write_stream. intros Hrun.
  apply bind_inv in Hrun as [([] & w1 & Hopen & Hrun)|[(e & Hopen & ->)|[Hopen ->]]].
  - apply open_x_run in Hopen as [(_ & [=] & _)|[(_ & msg & _ & [=] & _)|(Hex & Hdisk & _ & ->)]].
    set (w1 := emit (EvCreate lock) (set_fs (insert lock (FFile (Data ""))) (tick_ops w))) in *.
    assert (data_at (fs w1) lock) as Hnew by (exists ""; apply lookup_insert_eq).
    assert (∀ q, q ≠ lock → fs w1 !! q = fs w !! q) as Hframe1
      by (intros q Hq; by apply lookup_insert_ne).
    assert (log w1 = log w ++ [EvCreate lock]) as Hlog1 by done.
    apply bind_inv in Hrun as [([] & w2 & Hloop & Hend)|[(e & Hloop & ->)|[Hloop ->]]].
    + apply write_chunks_run in Hloop
        as (Hheap & Hreqs & Hframe & Hdata & [[_ Hlog]|(msg & written & [=] & _)]).
      assert (o = match broken r with Some err => Raise err | None => Ret tt end ∧ w' = w2)
        as [-> ->] by (destruct (broken r); by injection Hend as <- <-).
      split; [done|]. split; [done|]. split.
      { intros q Hq. by rewrite Hframe, Hframe1. }
      right. right. split; [done|]. split; [done|]. split; [by apply Hdata|].
      right. split; [done|]. by rewrite Hlog, Hlog1, <- app_assoc.
    + apply write_chunks_run in Hloop
        as (Hheap & Hreqs & Hframe & Hdata & [[[=] _]|(msg & written & [= ->] & Hlog)]).
      split; [done|]. split; [done|]. split.
      { intros q Hq. by rewrite Hframe, Hframe1. }
      right. right. split; [done|]. split; [done|]. split; [by apply Hdata|].
      left. exists msg, written. split; [done|]. by rewrite Hlog, Hlog1, <- app_assoc.
    + apply write_chunks_run in Hloop
        as (_ & _ & _ & _ & [[[=] _]|(msg & written & [=] & _)]).
  - apply open_x_run in Hopen as [(Hex & -> & ->)|[(Hex & msg & Hdisk & -> & ->)|(_ & _ & [=] & _)]].
    + repeat split; try done. by left.
    + repeat split; try done. right. left. split; [done|]. by exists msg.
  - apply open_x_run in Hopen as [(_ & [=] & _)|[(_ & msg & _ & [=] & _)|(_ & _ & [=] & _)]].
Qed.

(** ** [download_file] after the headers *)

(** The part of [download_file] that follows the length check. *)
Lemma download_file_after_headers item filename result w r w1 n :
  (print_item ("Writing: [" +:+ item_title item +:+ "] to [" +:+ filename +:+ "]") 1;;
   requests_get (item_url item) None) w = (Ret r, w1) →
  ((400 <=? status r) && (status r <? 600))%nat = false →
  content_length r = Length n →
  download_file item filename result w =
  (if n =? MAX_OCTET then
     print_warning msg_live 2;; set_warning result msg_live;; ret false
   else
     returned ← try_except
       (write_stream (filename +:+ CONST_LOCK) r;; ret None)
       (download_handlers n result);
     match returned with
     | Some b => ret b
     | None => os_rename (filename +:+ CONST_LOCK) filename;; ret true
     end) w1.
Proof.
  intros Hget Hstatus Hlen. unfold download_file.
  apply bind_ret_inv in Hget as ([] & w0 & Hprint & Hget).
  erewrite bind_ret; [|exact Hprint].
  erewrite bind_ret; [|exact Hget].
  erewrite bind_ret; [|by unfold raise_for_status; rewrite Hstatus].
  erewrite bind_ret; [|by unfold int_content_length; rewrite Hlen].
  done.
Qed.

(** ** A round that enters [download_file] *)

Lemma bind_cong {A B} (m m' : M A) (k : A → M B) (w w' : world) :
  m w = m' w' → bind m k w = bind m' k w'.
Proof. unfold bind. by intros ->. Qed.

Lemma ensure_directory_ret directory w wa :
  ensure_directory directory w = (Ret tt, wa) →
  wa = w ∨
  (path_exists (fs w) directory = false ∧ disk (ops w) = None ∧
   wa = emit (EvMakedirs directory) (set_fs (insert directory FDir) (tick_ops w))).
Proof.
  unfold ensure_directory, os_makedirs, os_path_exists, disk_op, bind, get, do, raise, ret.
  cbv beta iota. destruct (path_exists (fs w) directory) eqn:Hex; cbv beta iota.
  - intros [= <-]. by left.
  - cbn [negb]. cbv beta iota. destruct (disk (ops w)); cbv beta iota; [done|].
    cbn [fs tick_ops]. rewrite Hex. cbv beta iota. intros [= <-]. by right.
Qed.

Lemma request_ret line url w r w1 :
  (print_item line 1;; requests_get url None) w = (Ret r, w1) →
  http (reqs w) url = Answer r ∧
  w1 = tick_reqs (emit (EvGet (reqs w) url None)
                    (emit (EvPrint (tabs 1 +:+ " -- " +:+ line)) w)).
Proof.
  unfold print_item, print, requests_get, bind, do. cbv beta iota. cbn [reqs emit].
  destruct (http (reqs w) url); [done..|]. by intros [= <- <-].
Qed.

Lemma enter_download_ret path show item w result r w1 :
  enter_download path show item w = (Ret (result, false, r), w1) →
  ∃ wa wb,
    (ensure_directory (show_directory path show) w = (Ret tt, wa) ∧
     alloc (mkResult (create_item item) false None None) wa = (Ret result, wb) ∧
     path_exists (fs wb) (item_file_path path show item +:+ CONST_LOCK) = false ∧
     (print_item ("Writing: [" +:+ item_title item +:+ "] to ["
                    +:+ item_file_path path show item +:+ "]") 1;;
      requests_get (item_url item) None) wb = (Ret r, w1)) ∧
    (result = length (heap w) ∧
     heap w1 = heap w ++ [mkResult (create_item item) false None None] ∧
     (fs w1 = fs w ∨
      (path_exists (fs w) (show_directory path show) = false ∧
       fs w1 = <[show_directory path show := FDir]> (fs w))) ∧
     path_exists (fs w1) (item_file_path path show item +:+ CONST_LOCK) = false).
Proof.
  unfold enter_download. intros ([] & wa & Hdir & Hrun)%bind_ret_inv.
  apply bind_ret_inv in Hrun as (result' & wb & Halloc & Hrun).
  apply bind_ret_inv in Hrun as (locked & wb' & Hlocked & Hrun).
  apply bind_ret_inv in Hrun as (r' & w1' & Hget & Hrun).
  injection Hrun as -> -> -> ->. injection Hlocked as Hlock <-.
  exists wa, wb. split; [done|].
  apply request_ret in Hget as [_ ->]. injection Halloc as <- <-.
  cbn [heap fs tick_reqs emit set_heap] in *.
  apply ensure_directory_ret in Hdir as [->|(Hex & _ & ->)]; cbn [heap fs emit set_fs tick_ops].
  - repeat split; try done. by left.
  - repeat split; try done. by right.
Qed.

(** What [starts_download] says about the world in which the answer is in. *)
Lemma starts_download_world path overwrite show item st w result r w1 :
  starts_download path overwrite show item st w result r w1 →
  result = length (heap w) ∧
  heap w1 = heap w ++ [mkResult (create_item item) false None None] ∧
  (fs w1 = fs w ∨
   (path_exists (fs w) (show_directory path show) = false ∧
    fs w1 = <[show_directory path show := FDir]> (fs w))) ∧
  path_exists (fs w1) (item_file_path path show item +:+ CONST_LOCK) = false.
Proof.
  intros (_ & Henter & _).
  apply enter_download_ret in Henter as (wa & wb & _ & Hworld). exact Hworld.
Qed.

(** The round, from the point where the length header has been read. *)
Lemma save_item_after_headers path overwrite show item st w result r w1 n :
  starts_download path overwrite show item st w result r w1 →
  content_length r = Length n →
  let file_path := item_file_path path show item in
  let st1 := mkSave true (saved_files st) (json_result st ++ [result]) in
  save_item path overwrite show item st w =
  (ok ← (if n =? MAX_OCTET then
           print_warning msg_live 2;; set_warning result msg_live;; ret false
         else
           returned ← try_except
             (write_stream (file_path +:+ CONST_LOCK) r;; ret None)
             (download_handlers n result);
           match returned with
           | Some b => ret b
           | None => os_rename (file_path +:+ CONST_LOCK) file_path;; ret true
           end);
   if ok then
     set_recorded result true;;
     saved ← add_file (saved_files st1) item;
     ret (mkSave (some_to_record st1) saved (json_result st1))
   else ret st1) w1.
Proof.
  intros (Hdue & Henter & Hstatus) Hlen.
  apply enter_download_ret in Henter as (wa & wb & (Hdir & Halloc & Hlock & Hget) & _).
  cbv zeta. unfold save_item. rewrite Hdue.
  erewrite bind_ret; [|exact Hdir].
  erewrite bind_ret; [|exact Halloc].
  erewrite bind_ret; [|by unfold os_path_exists, get; rewrite Hlock].
  apply bind_cong. by eapply download_file_after_headers.
Qed.


Lemma try_except_raise {A} (m : M A) (h : exn → M A) (w w' : world) (e : exn) :
  m w = (Raise e, w') → try_except m h w = h e w'.
Proof. unfold try_except. by intros ->. Qed.

Lemma string_length_app (a b : string) :
  String.length (a +:+ b) = (String.length a + String.length b)%nat.
Proof.
  induction a as [|c a IH]; [done|].
  change (S (String.length (a +:+ b)) = S (String.length a + String.length b)).
  by rewrite IH.
Qed.

(** A path with something appended is another path. *)
Lemma string_app_ne (a b : string) : (0 < String.length b)%nat → a +:+ b ≠ a.
Proof.
  intros Hb Heq. apply (f_equal String.length) in Heq.
  rewrite string_length_app in Heq. lia.
Qed.

Lemma lock_path_ne filename : filename +:+ CONST_LOCK ≠ filename.
Proof. apply string_app_ne. cbn. lia. Qed.

Lemma file_path_ne_directory path show item :
  show_directory path show ≠ item_file_path path show item.
Proof.
  unfold item_file_path. intros Heq. symmetry in Heq. revert Heq.
  apply string_app_ne. rewrite !string_length_app. cbn. lia.
Qed.

(** ** Live items *)


(** ** Errors during the transfer *)

Lemma finalize_after_rename path show item st result w :
  let file_path := item_file_path path show item in
  let st1 := mkSave true (saved_files st) (json_result st ++ [result]) in
  (ok ← (os_rename (file_path +:+ CONST_LOCK) file_path;; ret true);
   if ok then
     set_recorded result true;;
     saved ← add_file (saved_files st1) item;
     ret (mkSave (some_to_record st1) saved (json_result st1))
   else ret st1) w
  = finalize path show item st result w.
Proof.
  cbv zeta. unfold finalize, bind. cbn [saved_files some_to_record json_result].
  by destruct (os_rename _ _ w) as [[[]| |] w0].
Qed.

(** C3 (as amended).  The transfer has raised [err].  If [err] is an
    [OSError] (a disk error or one of the transport errors of [requests])
    other than [FileExistsError] and [ChunkedEncodingError], the round ends
    with the report entry "error writing file", not recorded: after the
    error nothing happens but the printed message, so the disk stays as the
    transfer left it, with the lock file if it had been created and
    without a file at the final path, and the registry is as before.  If
    [err] is a [ChunkedEncodingError] whose first argument has an
    [IncompleteRead] as second argument, or has no second argument, the
    warning is recorded and the round goes on as after a complete
    transfer. *)
Theorem transfer_errors path overwrite show item st w result r w1 n err w2 :
  let file_path := item_file_path path show item in
  starts_download path overwrite show item st w result r w1 →
  content_length r = Length n →
  n ≠ MAX_OCTET →
  write_stream (file_path +:+ CONST_LOCK) r w1 = (Raise err, w2) →
  (isinstance err OSError = true →
   isinstance err FileExistsError = false →
   isinstance err ChunkedEncodingError = false →
   let msg := "Error writing file: " +:+ str_of_exn err in
   ∃ w',
     save_item path overwrite show item st w
       = (Ret (mkSave true (saved_files st) (json_result st ++ [result])), w') ∧
     heap w' !! result = Some (mkResult (create_item item) false None (Some msg)) ∧
     fs w' = fs w2 ∧
     fs w' !! file_path = fs w !! file_path ∧
     (disk (ops w1) = None → data_at (fs w') (file_path +:+ CONST_LOCK)) ∧
     ops w' = ops w2 ∧
     log w' = log w2 ++ [EvPrint (tabs 2 +:+ " -- [!] " +:+ msg)]) ∧
  (exn_class err = ChunkedEncodingError →
   ∀ cls inner rest msg,
     exn_args err = PyErr cls inner :: rest →
     match inner !! 1%nat with
     | Some second =>
         obj_isinstance second IncompleteRead = true ∧ msg = msg_short_read
     | None => msg = msg_chunked n err
     end →
     save_item path overwrite show item st w =
     finalize path show item st result
       (set_heap (alter (λ d, mkResult (res_item d) (recorded d) (Some msg) (error d)) result)
          (emit (EvPrint (tabs 2 +:+ " -- [!] " +:+ msg)) w2))).
Proof.
  intros file_path Hstart Hlen Hn Hstream. subst file_path.
  rewrite (save_item_after_headers _ _ _ _ _ _ _ _ _ _ Hstart Hlen).
  apply Z.eqb_neq in Hn. rewrite Hn.
  apply starts_download_world in Hstart as (-> & Hheap & Hfs & Hlock).
  pose proof (write_stream_run _ _ _ _ _ Hstream) as (Hheap2 & _ & Hframe & Hcases).
  assert (try_except
            (write_stream (item_file_path path show item +:+ CONST_LOCK) r;; ret None)
            (download_handlers n (length (heap w))) w1
          = download_handlers n (length (heap w)) err w2) as Htry.
  { apply try_except_raise. by apply bind_raise. }
  split.
  - intros Hos Hfe Hce msg.
    assert (download_handlers n (length (heap w)) err w2
            = (Ret (Some false),
               set_heap (alter (λ d, mkResult (res_item d) (recorded d) (warning d) (Some msg))
                               (length (heap w)))
                 (emit (EvPrint (tabs 2 +:+ " -- [!] " +:+ msg)) w2))) as Hh.
    { unfold download_handlers. by rewrite Hfe, Hce, Hos. }
    rewrite Hh in Htry.
    erewrite bind_ret; [|erewrite bind_ret; [|exact Htry]; reflexivity].
    eexists. split; [reflexivity|]. cbn [heap fs ops log set_heap emit].
    rewrite Hheap2, Hheap, alter_last.
    split; [by apply list_lookup_middle|]. split; [done|]. split; [|split; [|done]].
    + rewrite Hframe by (symmetry; apply lock_path_ne).
      destruct Hfs as [->|[_ ->]]; [done|].
      apply lookup_insert_ne, file_path_ne_directory.
    + intros Hdisk.
      destruct Hcases as [(Hex & _)|[(_ & m & Hm & _)|(_ & _ & Hdata & _)]];
        [congruence | congruence | done].
  - intros Hcls cls inner rest msg Hargs Hmsg.
    assert (download_handlers n (length (heap w)) err w2
            = (Ret None,
               set_heap (alter (λ d, mkResult (res_item d) (recorded d) (Some msg) (error d))
                               (length (heap w)))
                 (emit (EvPrint (tabs 2 +:+ " -- [!] " +:+ msg)) w2))) as Hh.
    { unfold download_handlers, isinstance. rewrite Hcls.
      change (issubclass ChunkedEncodingError FileExistsError) with false.
      change (issubclass ChunkedEncodingError ChunkedEncodingError) with true.
      cbv iota. unfold chunked_msg. rewrite Hargs.
      destruct (inner !! 1%nat) as [second|].
      - destruct Hmsg as [-> ->]. reflexivity.
      - rewrite Hmsg. reflexivity. }
    rewrite Hh in Htry.
    rewrite <- finalize_after_rename. apply bind_cong.
    erewrite bind_ret; [|exact Htry]. reflexivity.
Qed.

(** A round that raises ends the run. *)
Lemma run_raises_with_round path overwrite recordings w reg before show item st w1 e w2 :
  reaches path overwrite recordings w reg before show item st w1 →
  save_item path overwrite show item st w1 = (Raise e, w2) →
  save_recordings recordings path overwrite w = (Raise e, w2).
Proof.
  intros (w0 & after & Hload & Hwork & Hbefore) Hround. unfold save_recordings.
  erewrite bind_ret; [|exact Hload].
  apply bind_raise. rewrite save_loop_work, Hwork.
  by eapply for_in_raise.
Qed.

(** C10.  The transfer has raised a [ChunkedEncodingError] without
    arguments, or one whose first argument has a second argument that is
    no [IncompleteRead].  The handler then reads [msg] before any
    assignment to it: the round raises [UnboundLocalError], a [NameError],
    with the report entry still as it was created, without warning and
    without error; and the run the round belongs to ends with that
    exception instead of returning its report. *)
Theorem unassigned_message_aborts_run path overwrite show item st w result r w1 n err w2 :
  starts_download path overwrite show item st w result r w1 →
  content_length r = Length n →
  n ≠ MAX_OCTET →
  write_stream (item_file_path path show item +:+ CONST_LOCK) r w1 = (Raise err, w2) →
  exn_class err = ChunkedEncodingError →
  no_message (exn_args err) →
  let e := Exn UnboundLocalError [PyStr "msg"] in
  isinstance e NameError = true ∧
  save_item path overwrite show item st w = (Raise e, w2) ∧
  heap w2 !! result = Some (mkResult (create_item item) false None None) ∧
  (∀ recordings w_init reg before,
     reaches path overwrite recordings w_init reg before show item st w →
     save_recordings recordings path overwrite w_init = (Raise e, w2)).
Proof.
  intros Hstart Hlen Hn Hstream Hcls Hargs e.
  assert (save_item path overwrite show item st w = (Raise e, w2)) as Hround.
  { rewrite (save_item_after_headers _ _ _ _ _ _ _ _ _ _ Hstart Hlen).
    apply Z.eqb_neq in Hn. rewrite Hn.
    apply bind_raise, bind_raise.
    erewrite try_except_raise; [|by apply bind_raise].
    unfold download_handlers, isinstance. rewrite Hcls.
    change (issubclass ChunkedEncodingError FileExistsError) with false.
    change (issubclass ChunkedEncodingError ChunkedEncodingError) with true.
    cbv iota. unfold chunked_msg.
    destruct Hargs as [->|(cls & inner & rest & second & -> & -> & ->)]; reflexivity. }
  split; [done|]. split; [done|]. split.
  - apply starts_download_world in Hstart as (-> & Hheap & _).
    apply write_stream_run in Hstream as (-> & _).
    rewrite Hheap. by apply list_lookup_middle.
  - intros recordings w_init reg before Hreach. by eapply run_raises_with_round.
Qed.


(** ** What a run may log *)

Section Traced.

Context {A : Type} (P : event → Prop).

(** A step that leaves log and disk alone. *)
Lemma traced_idle (m : M A) :
  (∀ w o w', m w = (o, w') → log w' = log w ∧ fs w' = fs w) → traced P m.
Proof.
  intros Hidle w o w' Hrun. destruct (Hidle _ _ _ Hrun) as [Hlog Hfs].
  exists []. rewrite app_nil_r, Hfs. split; [done|]. split; [done|]. by left.
Qed.

Lemma traced_ret (a : A) : traced P (ret a).
Proof. apply traced_idle. by intros w o w' [= <- <-]. Qed.

Lemma traced_raise (e : exn) : traced P (raise (A := A) e).
Proof. apply traced_idle. by intros w o w' [= <- <-]. Qed.

Lemma traced_get (f : world → A) : traced P (get f).
Proof. apply traced_idle. by intros w o w' [= <- <-]. Qed.

(** Two traces one after the other. *)
Lemma traced_app (w w1 w' : world) (evs1 evs2 : list event) :
  log w1 = log w ++ evs1 ∧ Forall P evs1 ∧
    (∀ p, fs w1 !! p = fs w !! p ∨ Exists (touches p) evs1) →
  log w' = log w1 ++ evs2 ∧ Forall P evs2 ∧
    (∀ p, fs w' !! p = fs w1 !! p ∨ Exists (touches p) evs2) →
  log w' = log w ++ evs1 ++ evs2 ∧ Forall P (evs1 ++ evs2) ∧
    (∀ p, fs w' !! p = fs w !! p ∨ Exists (touches p) (evs1 ++ evs2)).
Proof.
  intros (Hlog1 & HP1 & Hfs1) (Hlog2 & HP2 & Hfs2).
  split; [by rewrite Hlog2, Hlog1, app_assoc|]. split; [by apply Forall_app|].
  intros p. rewrite Exists_app.
  destruct (Hfs1 p) as [Heq1|?], (Hfs2 p) as [Heq2|?]; eauto.
  left. by rewrite Heq2.
Qed.

Lemma traced_bind {B} (m : M B) (k : B → M A) :
  traced P m → (∀ b, traced P (k b)) → traced P (bind m k).
Proof.
  intros Hm Hk w o w' Hrun.
  apply bind_inv in Hrun as [(b & w1 & Hmw & Hkw)|[(e & Hmw & ->)|[Hmw ->]]].
  - destruct (Hm _ _ _ Hmw) as (evs1 & H1).
    destruct (Hk _ _ _ _ Hkw) as (evs2 & H2).
    exists (evs1 ++ evs2). by eapply traced_app.
  - by destruct (Hm _ _ _ Hmw) as (evs & H1); exists evs.
  - by destruct (Hm _ _ _ Hmw) as (evs & H1); exists evs.
Qed.

Lemma traced_try_except (m : M A) (h : exn → M A) :
  traced P m → (∀ e, traced P (h e)) → traced P (try_except m h).
Proof.
  intros Hm Hh w o w' Hrun. unfold try_except in Hrun.
  destruct (m w) as [[a|e|] w1] eqn:Hmw.
  - injection Hrun as <- <-. by apply Hm in Hmw.
  - destruct (Hm _ _ _ Hmw) as (evs1 & H1).
    destruct (Hh _ _ _ _ Hrun) as (evs2 & H2).
    exists (evs1 ++ evs2). by eapply traced_app.
  - injection Hrun as <- <-. by apply Hm in Hmw.
Qed.

Lemma traced_for_in {B} (xs : list B) (body : B → A → M A) (s : A) :
  (∀ x s, traced P (body x s)) → traced P (for_in xs body s).
Proof.
  intros Hbody. revert s. induction xs as [|x xs IH]; intros s; cbn [for_in].
  - apply traced_ret.
  - apply traced_bind; [apply Hbody | apply IH].
Qed.

(** A change of the disk with the event that records it, followed by
    more: the change must stay within the paths the event touches. *)
Lemma traced_effect_then (f : gmap string node → gmap string node) (ev : event)
    (k : M A) :
  P ev →
  (∀ m q, ¬ touches q ev → f m !! q = m !! q) →
  traced P k →
  traced P (bind (do (set_fs f)) (λ _, bind (do (emit ev)) (λ _, k))).
Proof.
  intros Hev Hframe Hk w o w' Hrun. unfold bind, do in Hrun. cbv beta iota in Hrun.
  destruct (Hk _ _ _ Hrun) as (evs & Hlog & HP & Hfs).
  exists (ev :: evs). cbn [log fs emit set_fs] in *.
  split; [by rewrite Hlog, <- app_assoc|]. split; [by constructor|].
  intros p. rewrite Exists_cons. destruct (Hfs p) as [Heq|?]; [|by eauto].
  destruct (decide (touches p ev)); [by eauto|]. left. by rewrite Heq, Hframe.
Qed.

End Traced.

(** The same, as the last thing done. *)
Lemma traced_effect (P : event → Prop) (f : gmap string node → gmap string node)
    (ev : event) :
  P ev →
  (∀ m q, ¬ touches q ev → f m !! q = m !! q) →
  traced P (bind (do (set_fs f)) (λ _, do (emit ev))).
Proof.
  intros Hev Hframe w o w' [= <- <-]. exists [ev]. cbn [log fs emit set_fs].
  split; [done|]. split; [by apply Forall_singleton|].
  intros p. rewrite Exists_cons. destruct (decide (touches p ev)); [by eauto|].
  left. by apply Hframe.
Qed.

Lemma traced_quiet P (f : world → world) :
  (∀ w, log (f w) = log w ∧ fs (f w) = fs w) → traced P (do f).
Proof. intros Hf. apply traced_idle. intros w o w' [= <- <-]. apply Hf. Qed.

Lemma traced_emit (P : event → Prop) (ev : event) : P ev → traced P (do (emit ev)).
Proof.
  intros Hev w o w' [= <- <-]. exists [ev]. split; [done|].
  split; [by apply Forall_singleton | by left].
Qed.

Lemma traced_disk_op P : traced P disk_op.
Proof.
  apply traced_idle. intros w o w' Hrun. unfold disk_op in Hrun.
  destruct (disk (ops w)); by injection Hrun as <- <-.
Qed.

Lemma traced_alloc P r : traced P (alloc r).
Proof. apply traced_idle. by intros w o w' [= <- <-]. Qed.

Lemma traced_requests_get url timeout : traced orderly (requests_get url timeout).
Proof.
  intros w o w' Hrun. unfold requests_get in Hrun.
  exists [EvGet (reqs w) url timeout].
  assert (w' = tick_reqs (emit (EvGet (reqs w) url timeout) w)) as ->.
  { destruct (http (reqs w) url); [destruct timeout|..]; by injection Hrun as <- <-. }
  split; [done|]. split; [by apply Forall_singleton | by left].
Qed.

Lemma traced_print line : traced orderly (print line).
Proof. by apply traced_emit. Qed.

(** The disk changes of the script stay within the paths of their events. *)
Ltac solve_frame :=
  let m := fresh "m" in
  let q := fresh "q" in
  let Hq := fresh "Hq" in
  intros m q Hq; cbn [touches] in Hq;
  first
    [ by apply lookup_insert_ne
    | by apply lookup_alter_ne
    | rewrite lookup_insert_ne, lookup_delete_ne by (intros ?; apply Hq; auto); done
    | unfold create_if_missing; destruct (m !! _); [done|]; by apply lookup_insert_ne ].

Ltac traced_step :=
  first
    [ apply traced_ret | apply traced_raise | apply traced_get | apply traced_disk_op
    | apply traced_alloc | apply traced_print | apply traced_requests_get
    | apply traced_quiet; intros ?; split; reflexivity
    | apply traced_effect_then; [|solve_frame|]
    | apply traced_effect; [|solve_frame]
    | apply traced_emit
    | apply traced_bind; [|intros ?]
    | apply traced_for_in; intros ? ?
    | match goal with
      | |- traced _ (if ?b then _ else _) => destruct b
      | |- traced _ (match ?x with _ => _ end) => destruct x
      end ].

Lemma traced_ensure_directory directory : traced orderly (ensure_directory directory).
Proof.
  unfold ensure_directory, os_makedirs, os_path_exists. repeat traced_step. done.
Qed.

Lemma store_op_run p self w o w' :
  store_op p self w = (o, w') →
  (disk (ops w) = None ∧ o = Ret tt ∧ w' = tick_ops w) ∨
  (∃ msg, disk (ops w) = Some msg ∧ o = Raise (Exn OSError [PyStr msg]) ∧
          w' = tick_ops (set_fs (insert p (torn_document (torn (ops w)) self)) w)).
Proof.
  unfold store_op. destruct (disk (ops w)) as [msg|]; intros [= <- <-].
  - right. by exists msg.
  - by left.
Qed.

Lemma store_op_ret p self w w1 :
  store_op p self w = (Ret tt, w1) → disk (ops w) = None ∧ w1 = tick_ops w.
Proof. unfold store_op. destruct (disk (ops w)); [done|]. by intros [= <-]. Qed.


Lemma store_op_fail p self w msg :
  disk (ops w) = Some msg →
  store_op p self w =
  (Raise (Exn OSError [PyStr msg]),
   tick_ops (set_fs (insert p (torn_document (torn (ops w)) self)) w)).
Proof. unfold store_op. by intros ->. Qed.

(** The write of the document, which the truncation precedes. *)
Lemma traced_store p self :
  (∃ dir, p = registry_path dir) →
  ∀ w o w',
    (store_op p self;; do (set_fs (insert p (FFile (Pickle self))));;
     do (emit (EvStore p self));; ret self) w = (o, w') →
    ∃ evs, log w' = log w ++ evs ∧ Forall orderly evs ∧
      ∀ q, q ≠ p → fs w' !! q = fs w !! q.
Proof.
  intros Hp w o w' Hrun.
  apply bind_inv in Hrun as [([] & w1 & Hop & Hrun)|[(e & Hop & _)|[Hop _]]].
  - apply store_op_run in Hop as [(_ & _ & ->)|(msg & _ & [=] & _)].
    injection Hrun as _ <-. exists [EvStore p self]. split; [done|].
    split; [by apply Forall_singleton|].
    intros q Hq. cbn. by apply lookup_insert_ne.
  - apply store_op_run in Hop as [(_ & [=] & _)|(msg & _ & _ & ->)].
    exists []. rewrite app_nil_r. split; [done|]. split; [done|].
    intros q Hq. cbn. by apply lookup_insert_ne.
  - apply store_op_run in Hop as [(_ & [=] & _)|(msg & _ & [=] & _)].
Qed.

Lemma traced_add_file self item : traced orderly (add_file self item).
Proof.
  unfold add_file. cbn [sf_path].
  set (p := registry_path (sf_path self)).
  set (new := mkSavedFiles _ _).
  apply traced_bind; [apply traced_disk_op|]. intros [].
  apply traced_bind; [apply traced_get|]. intros [|]; [apply traced_raise|].
  intros w o w' Hrun. unfold bind at 1 2, do at 1 2 in Hrun. cbv beta iota in Hrun.
  apply traced_store in Hrun as (evs & Hlog & Hevs & Hframe); [|by exists (sf_path self)].
  exists (EvTruncate p :: evs). cbn [log fs emit set_fs] in *.
  split; [by rewrite Hlog, <- app_assoc|].
  split; [constructor; [by exists (sf_path self) | done]|].
  intros q. destruct (decide (q = p)) as [->|Hne].
  - right. by left.
  - left. rewrite (Hframe q Hne). by apply lookup_insert_ne.
Qed.

Lemma traced_load path : traced orderly (SavedFiles_load path).
Proof.
  unfold SavedFiles_load. repeat traced_step; cbn; eauto.
Qed.

Lemma last_char_app (a b : string) :
  last_char (a +:+ b) =
  match last_char b with Some d => Some d | None => last_char a end.
Proof.
  induction a as [|c a IH].
  - change ("" +:+ b) with b. by destruct (last_char b).
  - change (String c a +:+ b) with (String c (a +:+ b)). cbn [last_char].
    rewrite IH. by destruct (last_char b), (last_char a).
Qed.

Lemma item_file_path_mpeg path show item :
  ∃ base, item_file_path path show item = base +:+ ".mpeg".
Proof.
  exists (show_directory path show +:+ sep +:+ create_valid_filename (item_title item)).
  unfold item_file_path. by rewrite !string_app_assoc.
Qed.

(** The only orderly events that touch the final path of an item are the
    rename of its lock-suffixed file onto it and the making of a folder. *)
Lemma orderly_touch_final ev path show item :
  let file_path := item_file_path path show item in
  orderly ev → touches file_path ev →
  ev = EvRename (file_path +:+ CONST_LOCK) file_path ∨ ev = EvMakedirs file_path.
Proof.
  cbv zeta. destruct (item_file_path_mpeg path show item) as [base' ->].
  assert (∀ base, base +:+ ".mpeg" +:+ CONST_LOCK ≠ base' +:+ ".mpeg") as Hlock.
  { intros base Heq. apply (f_equal last_char) in Heq.
    rewrite !last_char_app in Heq. cbn in Heq. discriminate. }
  assert (∀ dst, dst +:+ CONST_LOCK ≠ base' +:+ ".mpeg") as Hsrc.
  { intros dst Heq. apply (f_equal last_char) in Heq.
    rewrite !last_char_app in Heq. cbn in Heq. discriminate. }
  assert (∀ dir, registry_path dir ≠ base' +:+ ".mpeg") as Hreg.
  { intros dir Heq. apply (f_equal last_char) in Heq. unfold registry_path in Heq.
    rewrite !last_char_app in Heq. cbn in Heq. discriminate. }
  destruct ev; cbn; try done.
  - intros _ ->. by right.
  - intros [base ->] Heq. by apply Hlock in Heq.
  - intros [base ->] Heq. by apply Hlock in Heq.
  - intros -> [Heq| ->]; [by apply Hsrc in Heq | by left].
  - intros [dir ->] Heq. by apply Hreg in Heq.
  - intros [dir ->] Heq. by apply Hreg in Heq.
  - intros [dir ->] Heq. by apply Hreg in Heq.
Qed.

Lemma traced_write_stream lock r :
  (∃ base, lock = base +:+ ".mpeg" +:+ CONST_LOCK) →
  traced orderly (write_stream lock r).
Proof.
  intros Hlock. unfold write_stream, open_x, file_write, os_path_exists.
  repeat traced_step; done.
Qed.

Lemma traced_download_handlers n result err :
  traced orderly (download_handlers n result err).
Proof.
  unfold download_handlers, chunked_msg, read_local, print_warning, print_error,
    set_warning, set_error.
  repeat traced_step; done.
Qed.

Lemma traced_download_file item filename result :
  (∃ base, filename = base +:+ ".mpeg") →
  traced orderly (download_file item filename result).
Proof.
  intros [base ->]. unfold download_file, print_item, print_warning, set_warning,
    raise_for_status, int_content_length, os_rename.
  repeat first
    [ apply traced_try_except; [|intros ?]
    | apply traced_download_handlers
    | apply traced_write_stream; exists base; by rewrite string_app_assoc
    | traced_step ]; done.
Qed.

Lemma traced_save_item path overwrite show item st :
  traced orderly (save_item path overwrite show item st).
Proof.
  unfold save_item, print_item, set_warning, set_recorded, os_path_exists.
  repeat first
    [ apply traced_ensure_directory
    | apply traced_download_file; apply item_file_path_mpeg
    | apply traced_add_file
    | traced_step ]; done.
Qed.

Lemma traced_save_recordings recordings path overwrite :
  traced orderly (save_recordings recordings path overwrite).
Proof.
  unfold save_recordings, save_loop.
  repeat first [ apply traced_load | apply traced_save_item | traced_step ]; done.
Qed.


(** ** Rounds that register their item *)

Lemma try_except_ret_inv {A} (m : M A) (h : exn → M A) (w w' : world) (a : A) :
  try_except m h w = (Ret a, w') →
  m w = (Ret a, w') ∨ ∃ e w1, m w = (Raise e, w1) ∧ h e w1 = (Ret a, w').
Proof.
  unfold try_except. destruct (m w) as [[b|e|] w1]; [by left | right; eauto | done].
Qed.

(** A handler that returns either returns [False] or, for a
    [ChunkedEncodingError] with a message, falls through after the
    warning. *)
Lemma download_handlers_ret n result err w v w' :
  download_handlers n result err w = (Ret v, w') →
  v = Some false ∨
  (v = None ∧ isinstance err FileExistsError = false ∧
   isinstance err ChunkedEncodingError = true ∧
   ∃ line, log w' = log w ++ [EvPrint line]).
Proof.
  unfold download_handlers.
  destruct (isinstance err FileExistsError) eqn:Hfe.
  { intros Hrun. repeat (apply bind_ret_inv in Hrun as (? & ? & _ & Hrun)).
    injection Hrun as <- _. by left. }
  destruct (isinstance err ChunkedEncodingError) eqn:Hce.
  { intros Hrun.
    apply bind_ret_inv in Hrun as (v0 & w1 & Hmsg & Hrun).
    apply bind_ret_inv in Hrun as (msg & w2 & Hread & Hrun).
    apply bind_ret_inv in Hrun as ([] & w3 & Hprint & Hrun).
    apply bind_ret_inv in Hrun as ([] & w4 & Hset & Hrun).
    injection Hrun as <- <-. right. repeat split; try done.
    assert (w1 = w) as ->.
    { unfold chunked_msg in Hmsg.
      repeat match type of Hmsg with
             | context [match ?x with _ => _ end] => destruct x
             end; by injection Hmsg. }
    assert (w2 = w) as -> by (destruct v0; by injection Hread).
    injection Hprint as <-. injection Hset as <-. eauto. }
  destruct (isinstance err OSError).
  - intros Hrun. repeat (apply bind_ret_inv in Hrun as (? & ? & _ & Hrun)).
    injection Hrun as <- _. by left.
  - done.
Qed.

Lemma disk_op_ret w w1 :
  disk_op w = (Ret tt, w1) → disk (ops w) = None ∧ w1 = tick_ops w.
Proof. unfold disk_op. destruct (disk (ops w)); [done|]. by intros [= <-]. Qed.

Lemma os_rename_ret src dst w w' :
  os_rename src dst w = (Ret tt, w') → log w' = log w ++ [EvRename src dst].
Proof.
  unfold os_rename. intros ([] & w1 & Hop & Hrun)%bind_ret_inv.
  apply bind_ret_inv in Hrun as (n & w2 & [= <- <-] & Hrun).
  apply bind_ret_inv in Hrun as (is_dir & w3 & [= <- <-] & Hrun).
  apply disk_op_ret in Hop as [_ ->]. cbn [fs tick_ops] in Hrun.
  destruct (fs w !! src); [|done]. destruct (path_isdir (fs w) dst); [done|].
  apply bind_ret_inv in Hrun as ([] & w4 & [= <-] & [= <-]). done.
Qed.

Lemma add_file_log self item w saved w' :
  add_file self item w = (Ret saved, w') →
  log w' = log w ++ [EvTruncate (registry_path (sf_path self));
                     EvStore (registry_path (sf_path self)) saved].
Proof.
  unfold add_file. cbn [sf_path]. intros ([] & w1 & Hop & Hrun)%bind_ret_inv.
  apply disk_op_ret in Hop as [_ ->].
  apply bind_ret_inv in Hrun as (is_dir & w2 & [= <- <-] & Hrun).
  cbn [fs tick_ops] in Hrun. destruct (path_isdir (fs w) _); [done|].
  apply bind_ret_inv in Hrun as ([] & w3 & [= <-] & Hrun).
  apply bind_ret_inv in Hrun as ([] & w4 & [= <-] & Hrun).
  apply bind_ret_inv in Hrun as ([] & w5 & Hop2 & Hrun).
  apply bind_ret_inv in Hrun as ([] & w6 & [= <-] & Hrun).
  apply bind_ret_inv in Hrun as ([] & w7 & [= <-] & [= <- <-]).
  apply store_op_ret in Hop2 as [_ ->]. cbn. by rewrite <- app_assoc.
Qed.

(** A download that returns [True] has logged its start and then a
    completed transfer. *)
Lemma download_file_true item filename result w w' :
  download_file item filename result w = (Ret true, w') →
  ∃ line tr, log w' = log w ++ [EvPrint line] ++ tr ∧ transfer_of item filename tr.
Proof.
  unfold download_file. intros ([] & w0 & [= <-] & Hrun)%bind_ret_inv.
  apply bind_ret_inv in Hrun as (r & w1 & Hget & Hrun).
  assert (http (reqs w) (item_url item) = Answer r ∧
          log w1 = log w ++ [EvPrint (tabs 1 +:+ " -- Writing: [" +:+ item_title item
                                        +:+ "] to [" +:+ filename +:+ "]");
                             EvGet (reqs w) (item_url item) None]) as [Hanswer Hlog1].
  { unfold requests_get in Hget. cbn [reqs emit] in Hget.
    destruct (http (reqs w) (item_url item)); [done..|].
    injection Hget as <- <-. split; [done|]. cbn. by rewrite <- app_assoc. }
  apply bind_ret_inv in Hrun as ([] & w1' & Hstatus & Hrun).
  assert (w1' = w1) as ->.
  { unfold raise_for_status in Hstatus. destruct (_ && _); by injection Hstatus. }
  apply bind_ret_inv in Hrun as (n & w1' & Hlen & Hrun).
  assert (w1' = w1) as ->.
  { unfold int_content_length in Hlen. destruct (content_length r); by injection Hlen. }
  destruct (n =? MAX_OCTET).
  { repeat (apply bind_ret_inv in Hrun as (? & ? & _ & Hrun)). done. }
  apply bind_ret_inv in Hrun as (returned & w3 & Htry & Hrun).
  assert (∃ warn, ((warn = [] ∧ broken r = None) ∨
                   (∃ err line, warn = [EvPrint line] ∧ broken r = Some err ∧
                                isinstance err ChunkedEncodingError = true)) ∧
            returned = None ∧
            log w3 = log w1 ++ EvCreate (filename +:+ CONST_LOCK) ::
                       map (EvWrite (filename +:+ CONST_LOCK))
                           (filter (λ c, Str.truthy c = true) (body r)) ++ warn)
    as (warn & Hwarn & -> & Hlog3).
  { apply try_except_ret_inv in Htry as [Hok|(e & w2 & Hraise & Hhandle)].
    - apply bind_ret_inv in Hok as ([] & w2 & Hstream & [= <- <-]).
      apply write_stream_run in Hstream
        as (_ & _ & _ & [(_ & [=] & _)|[(_ & m & _ & [=] & _)|(_ & _ & _ & Hcase)]]).
      destruct Hcase as [(m & written & [=] & _)|[Ho Hlog]].
      exists []. rewrite app_nil_r. split; [|done].
      left. split; [done|]. by destruct (broken r).
    - apply bind_inv in Hraise as [(? & ? & _ & [=])|[(e' & Hstream & [= <-])|[_ [=]]]].
      apply download_handlers_ret in Hhandle
        as [->|(-> & Hfe & Hce & line & Hlog)].
      { discriminate Hrun. }
      apply write_stream_run in Hstream
        as (_ & _ & _ & [(_ & [= ->] & _)|[(_ & m & _ & [= ->] & _)|(_ & _ & _ & Hcase)]]);
        [done..|].
      destruct Hcase as [(m & written & [= ->] & _)|[Ho Hlog2]]; [done|].
      exists [EvPrint line]. split; [|split; [done|]].
      + right. exists e, line. split; [done|]. split; [|done].
        destruct (broken r) as [err|]; [by injection Ho as -> | discriminate].
      + rewrite Hlog, Hlog2. by rewrite <- app_assoc. }
  apply bind_ret_inv in Hrun as ([] & w4 & Hrename & [= <-]).
  apply os_rename_ret in Hrename.
  eexists _, _. split; [|exists (reqs w), r, warn; eauto].
  rewrite Hrename, Hlog3, Hlog1. cbn. rewrite <- !app_assoc. cbn.
  by rewrite <- !app_assoc.
Qed.


Lemma transfer_ends_in_rename item file_path tr :
  transfer_of item file_path tr →
  EvRename (file_path +:+ CONST_LOCK) file_path ∈ tr.
Proof.
  intros (n & r & warn & _ & _ & ->).
  rewrite !elem_of_app. right. right. right. by apply list_elem_of_singleton.
Qed.

(** ** Rounds that do not finish a transfer *)

Lemma calm_ensure_directory directory : traced unfinished (ensure_directory directory).
Proof.
  unfold ensure_directory, os_makedirs, os_path_exists. repeat traced_step. done.
Qed.

Lemma calm_transfer lock r n result :
  traced unfinished
    (try_except (write_stream lock r;; ret None) (download_handlers n result)).
Proof.
  unfold write_stream, open_x, file_write, os_path_exists, download_handlers,
    chunked_msg, read_local, print_warning, print_error, print, set_warning, set_error.
  repeat first [ apply traced_try_except; [|intros ?] | traced_step ]; done.
Qed.

(** A download that returns [False] has renamed nothing. *)
Lemma download_file_false item filename result w w' :
  download_file item filename result w = (Ret false, w') →
  ∃ evs, log w' = log w ++ evs ∧ Forall unfinished evs.
Proof.
  unfold download_file. intros ([] & w0 & [= <-] & Hrun)%bind_ret_inv.
  apply bind_ret_inv in Hrun as (r & w1 & Hget & Hrun).
  assert (log w1 = log w ++ [EvPrint (tabs 1 +:+ " -- Writing: [" +:+ item_title item
                                        +:+ "] to [" +:+ filename +:+ "]");
                             EvGet (reqs w) (item_url item) None]) as Hlog1.
  { unfold requests_get in Hget. cbn [reqs emit] in Hget.
    destruct (http (reqs w) (item_url item)); [done..|].
    injection Hget as <- <-. cbn. by rewrite <- app_assoc. }
  apply bind_ret_inv in Hrun as ([] & w1' & Hstatus & Hrun).
  assert (w1' = w1) as ->.
  { unfold raise_for_status in Hstatus. destruct (_ && _); by injection Hstatus. }
  apply bind_ret_inv in Hrun as (n & w1' & Hlen & Hrun).
  assert (w1' = w1) as ->.
  { unfold int_content_length in Hlen. destruct (content_length r); by injection Hlen. }
  destruct (n =? MAX_OCTET).
  { apply bind_ret_inv in Hrun as ([] & w2 & [= <-] & Hrun).
    apply bind_ret_inv in Hrun as ([] & w3 & [= <-] & [= <-]).
    eexists. split.
    - cbn [log set_heap emit]. rewrite Hlog1, <- app_assoc. reflexivity.
    - by repeat constructor. }
  apply bind_ret_inv in Hrun as (returned & w3 & Htry & Hrun).
  apply calm_transfer in Htry as (evs & Hlog3 & Hcalm & _).
  destruct returned as [b|].
  - injection Hrun as _ <-. eexists. split.
    + rewrite Hlog3, Hlog1, <- app_assoc. reflexivity.
    + apply Forall_app. split; [by repeat constructor | done].
  - by apply bind_ret_inv in Hrun as ([] & w4 & _ & [=]).
Qed.

(** A round that returns has renamed nothing and left the registry alone,
    or it ends with a completed transfer followed at once by the rewriting
    of the registry document. *)
Lemma saving_round path overwrite show item st w st' w' :
  let file_path := item_file_path path show item in
  let document := registry_path (sf_path (saved_files st)) in
  save_item path overwrite show item st w = (Ret st', w') →
  ∃ evs, log w' = log w ++ evs ∧
    ((saved_files st' = saved_files st ∧ Forall unfinished evs) ∨
     ∃ pre tr,
       evs = pre ++ tr ++ [EvTruncate document; EvStore document (saved_files st')] ∧
       Forall unfinished pre ∧
       transfer_of item file_path tr ∧
       sf_files (saved_files st') =
         <[item_id item := item_title item]> (sf_files (saved_files st))).
Proof.
  cbv zeta. unfold save_item.
  destruct (overwrite || negb (contains (saved_files st) item)).
  2:{ intros [= <- <-]. exists []. rewrite app_nil_r. split; [done|]. by left. }
  intros ([] & wa & Hdir & Hrun)%bind_ret_inv.
  apply calm_ensure_directory in Hdir as (evs_dir & Hlog_dir & Hcalm_dir & _).
  apply bind_ret_inv in Hrun as (result & wb & [= <- <-] & Hrun).
  apply bind_ret_inv in Hrun as (locked & wc & [= <- <-] & Hrun).
  destruct (path_exists _ _).
  - apply bind_ret_inv in Hrun as ([] & w4 & [= <-] & Hrun).
    apply bind_ret_inv in Hrun as ([] & w5 & [= <-] & [= <- <-]).
    eexists. split.
    + cbn [log set_heap emit]. rewrite Hlog_dir, <- app_assoc. reflexivity.
    + left. split; [done|]. apply Forall_app. split; [done | by repeat constructor].
  - apply bind_ret_inv in Hrun as (ok & w4 & Hdownload & Hrun). destruct ok.
    + apply download_file_true in Hdownload as (line & tr & Hlog_dl & Htransfer).
      apply bind_ret_inv in Hrun as ([] & w5 & [= <-] & Hrun).
      apply bind_ret_inv in Hrun as (saved & w6 & Hadd & [= <- <-]).
      pose proof (add_file_ret _ _ _ _ _ Hadd) as ->.
      apply add_file_log in Hadd. cbn [saved_files sf_files sf_path] in *.
      eexists. split.
      * rewrite Hadd. cbn [log set_heap] in *. rewrite Hlog_dl, Hlog_dir.
        rewrite <- !app_assoc. reflexivity.
      * right. exists (evs_dir ++ [EvPrint line]), tr.
        split; [by rewrite <- !app_assoc|]. split; [|done].
        apply Forall_app. split; [done | by repeat constructor].
    + injection Hrun as <- <-.
      apply download_file_false in Hdownload as (evs & Hlog_dl & Hcalm).
      eexists. split.
      * rewrite Hlog_dl. cbn [log set_heap]. rewrite Hlog_dir, <- app_assoc. reflexivity.
      * left. split; [done|]. by apply Forall_app.
Qed.

Lemma for_in_invariant_w {A S} (I : S → world → Prop) (xs : list A)
    (body : A → S → M S) :
  (∀ x s w s' w', x ∈ xs → I s w → body x s w = (Ret s', w') → I s' w') →
  ∀ s w s' w', I s w → for_in xs body s w = (Ret s', w') → I s' w'.
Proof.
  induction xs as [|x xs IH]; intros Hbody s w s' w' Hs Hrun.
  - by injection Hrun as <- <-.
  - cbn [for_in] in Hrun. apply bind_ret_inv in Hrun as (s1 & w1 & Hx & Hrest).
    eapply IH; [| |exact Hrest].
    + intros. eapply Hbody; [by right | done..].
    + eapply Hbody; [by left | done..].
Qed.

(** Between two rounds, every entry of the registry was loaded with it or
    belongs to an item handled so far whose lock-suffixed file has been
    renamed to its final path. *)
Lemma entries_loaded_or_renamed path overwrite before reg w0 st w1 :
  for_in before (save_step path overwrite) (mkSave false reg []) w0 = (Ret st, w1) →
  ∃ evs, log w1 = log w0 ++ evs ∧
    ∀ id title, sf_files (saved_files st) !! id = Some title →
      sf_files reg !! id = Some title ∨
      ∃ show item,
        (show, item) ∈ before ∧ item_id item = id ∧ item_title item = title ∧
        EvRename (item_file_path path show item +:+ CONST_LOCK)
                 (item_file_path path show item) ∈ evs.
Proof.
  apply (for_in_invariant_w
           (λ s w, ∃ evs, log w = log w0 ++ evs ∧
              ∀ id title, sf_files (saved_files s) !! id = Some title →
                sf_files reg !! id = Some title ∨
                ∃ show item,
                  (show, item) ∈ before ∧ item_id item = id ∧ item_title item = title ∧
                  EvRename (item_file_path path show item +:+ CONST_LOCK)
                           (item_file_path path show item) ∈ evs)).
  - intros [show item] s w s' w' Hin (evs & Hlog & Hentries) Hround.
    unfold save_step in Hround. cbn [fst snd] in Hround.
    apply saving_round in Hround as (evs' & Hlog' & Hround).
    exists (evs ++ evs'). split; [by rewrite Hlog', Hlog, app_assoc|].
    intros id title Hentry.
    assert (sf_files (saved_files s) !! id = Some title →
            sf_files reg !! id = Some title ∨
            ∃ show0 item0,
              (show0, item0) ∈ before ∧ item_id item0 = id ∧ item_title item0 = title ∧
              EvRename (item_file_path path show0 item0 +:+ CONST_LOCK)
                       (item_file_path path show0 item0) ∈ evs ++ evs') as Hold.
    { intros Hs. destruct (Hentries _ _ Hs) as [|(show0 & item0 & ? & ? & ? & ?)];
        [by left|].
      right. exists show0, item0. repeat split; try done. apply elem_of_app. by left. }
    destruct Hround as [[Hsame _]|(pre & tr & -> & _ & Htransfer & Hsaved)].
    + apply Hold. by rewrite <- Hsame.
    + rewrite Hsaved in Hentry.
      destruct (decide (item_id item = id)) as [Hid|Hid].
      * rewrite <- Hid, lookup_insert_eq in Hentry. injection Hentry as Htitle.
        right. exists show, item. repeat split; try done. apply elem_of_app. right.
        rewrite !elem_of_app. right. left. by apply (transfer_ends_in_rename item).
      * rewrite lookup_insert_ne in Hentry by done. by apply Hold.
  - exists []. rewrite app_nil_r. split; [done|]. intros id title Hentry. by left.
Qed.

(** C1 (as amended).  Whatever the outcome of a run, the disk changes only
    at paths that a logged event touches, and the only events that touch
    the final path of an item are the rename of that path plus lock suffix
    onto it and the making of a folder: no file is created, written or
    truncated under a final name.  A round that returns has either renamed
    nothing and written no registry document, and leaves the registry as
    it was, or it ends, whether the item was in the registry before or
    not, with the events of a transfer taken for complete (request,
    creation of the lock-suffixed file, every non-empty chunk that came
    in, rename) followed at once, as its last two events, by the rewriting
    of the registry document with the item added; the transfer is taken
    for complete when the stream ended in order, and also when it broke
    with a [ChunkedEncodingError] for which the handler prints its
    warning, so that the renamed file may be short.  Between two rounds
    every entry of the registry either came with the loaded registry or
    belongs to an item of the run whose rename is in the log. *)
Theorem registry_follows_rename path overwrite recordings :
  (∀ w o w',
     save_recordings recordings path overwrite w = (o, w') →
     ∃ evs, log w' = log w ++ evs ∧
       (∀ p, fs w' !! p = fs w !! p ∨ Exists (touches p) evs) ∧
       ∀ ev show item,
         ev ∈ evs → touches (item_file_path path show item) ev →
         ev = EvRename (item_file_path path show item +:+ CONST_LOCK)
                       (item_file_path path show item) ∨
         ev = EvMakedirs (item_file_path path show item)) ∧
  (∀ show item st w st' w',
     save_item path overwrite show item st w = (Ret st', w') →
     ∃ evs, log w' = log w ++ evs ∧
       ((saved_files st' = saved_files st ∧ Forall unfinished evs) ∨
        ∃ pre tr,
          evs = pre ++ tr ++
                  [EvTruncate (registry_path (sf_path (saved_files st)));
                   EvStore (registry_path (sf_path (saved_files st))) (saved_files st')] ∧
          Forall unfinished pre ∧
          transfer_of item (item_file_path path show item) tr ∧
          sf_files (saved_files st') =
            <[item_id item := item_title item]> (sf_files (saved_files st)))) ∧
  (∀ w reg w0 before after st w1,
     SavedFiles_load path w = (Ret reg, w0) →
     work recordings = before ++ after →
     for_in before (save_step path overwrite) (mkSave false reg []) w0 = (Ret st, w1) →
     ∃ evs, log w1 = log w0 ++ evs ∧
       ∀ id title, sf_files (saved_files st) !! id = Some title →
         sf_files reg !! id = Some title ∨
         ∃ show item,
           (show, item) ∈ work recordings ∧ item_id item = id ∧ item_title item = title ∧
           EvRename (item_file_path path show item +:+ CONST_LOCK)
                    (item_file_path path show item) ∈ evs).
Proof.
  split; [|split].
  - intros w o w' Hrun.
    apply traced_save_recordings in Hrun as (evs & Hlog & Horderly & Hfs).
    exists evs. split; [done|]. split; [done|]. intros ev show item Hin.
    apply orderly_touch_final. rewrite Forall_forall in Horderly. auto.
  - intros show item st w st' w'. apply saving_round.
  - intros w reg w0 before after st w1 _ Hwork Hrun.
    apply entries_loaded_or_renamed in Hrun as (evs & Hlog & Hentries).
    exists evs. split; [done|]. intros id title Hentry.
    destruct (Hentries _ _ Hentry) as [|(show & item & Hin & ? & ? & ?)]; [by left|].
    right. exists show, item. repeat split; try done.
    rewrite Hwork. apply elem_of_app. by left.
Qed.


(** * Further properties of the script *)

(** ** [create_valid_filename] *)

Lemma chars_app (a b : string) :
  list_ascii_of_string (a +:+ b) = list_ascii_of_string a ++ list_ascii_of_string b.
Proof.
  induction a as [|c a IH]; [done|].
  change (String c a +:+ b) with (String c (a +:+ b)). cbn. by rewrite IH.
Qed.

(** Replacing [c] by a string without [d] brings no [d] in, and takes
    [d] out when [d] is [c]. *)
Lemma replace_absent (c d : ascii) (r s : string) :
  d ∉ list_ascii_of_string r →
  d = c ∨ d ∉ list_ascii_of_string s →
  d ∉ list_ascii_of_string (Str.replace c r s).
Proof.
  intros Hr. induction s as [|x s IH]; intros Hs; cbn [Str.replace].
  - cbn. apply not_elem_of_nil.
  - assert (d = c ∨ d ∉ list_ascii_of_string s) as Hs'.
    { destruct Hs as [|Hs]; [by left|]. right. cbn in Hs.
      by apply not_elem_of_cons in Hs as [_ ?]. }
    destruct (Ascii.eqb_spec x c) as [->|Hne].
    + rewrite chars_app. apply not_elem_of_app. split; [done | by apply IH].
    + cbn. apply not_elem_of_cons. split; [|by apply IH].
      intros ->. destruct Hs as [->|Hs]; [done|].
      cbn in Hs. apply not_elem_of_cons in Hs as [? _]. done.
Qed.

Lemma fold_replace_absent (cs : list ascii) (d : ascii) (r s : string) :
  d ∉ list_ascii_of_string r →
  d ∈ cs ∨ d ∉ list_ascii_of_string s →
  d ∉ list_ascii_of_string (fold_left (λ acc c, Str.replace c r acc) cs s).
Proof.
  intros Hr. revert s. induction cs as [|c cs IH]; intros s Hs; cbn [fold_left].
  - destruct Hs as [Hs|]; [by apply elem_of_nil in Hs | done].
  - apply IH. destruct Hs as [[->|Hs]%elem_of_cons|Hs].
    + right. apply replace_absent; [done | by left].
    + by left.
    + right. apply replace_absent; [done | by right].
Qed.

Lemma take_chars (n : nat) (s : string) (d : ascii) :
  d ∈ list_ascii_of_string (Str.take n s) → d ∈ list_ascii_of_string s.
Proof.
  revert s. induction n as [|n IH]; intros [|c s]; cbn; try by intros ?%elem_of_nil.
  intros [->|Hin]%elem_of_cons; [by left | right; by apply IH].
Qed.

Lemma take_length (n : nat) (s : string) : (String.length (Str.take n s) ≤ n)%nat.
Proof.
  revert s. induction n as [|n IH]; intros [|c s]; cbn; try lia.
  specialize (IH s). lia.
Qed.

(** X1.  Whatever the title, the file name made from it contains none of
    the characters that the function removes (less-than, greater-than,
    colon, double quote, slash, backslash, bar, question mark, star),
    no tab and no space. *)
Theorem valid_filename_has_no_special_character (filename : string) (c : ascii) :
  c ∈ list_ascii_of_string ("<>:" +:+ Str.char 34 +:+ "/\|?*" +:+ Str.char 9 +:+ " ") →
  c ∉ list_ascii_of_string (create_valid_filename filename).
Proof.
  intros Hc Hin. unfold create_valid_filename in Hin. apply take_chars in Hin.
  revert Hin. apply fold_replace_absent.
  - intros Hu%list_elem_of_singleton. subst c. vm_compute in Hc.
    repeat (apply elem_of_cons in Hc as [[=]|Hc]). by apply elem_of_nil in Hc.
  - vm_compute in Hc.
    repeat (apply elem_of_cons in Hc as [->|Hc]); try by apply elem_of_nil in Hc.
    all: try (left; vm_compute; set_solver).
    all: right; apply fold_replace_absent;
      [apply not_elem_of_nil | left; vm_compute; set_solver].
Qed.

(** X2.  The file name is at most [MAX_FILENAME] characters long. *)
Theorem valid_filename_is_short (filename : string) :
  (String.length (create_valid_filename filename) ≤ MAX_FILENAME)%nat.
Proof. apply take_length. Qed.


Lemma chars_rev_app (s1 s2 : string) :
  list_ascii_of_string (String.rev_app s1 s2)
  = reverse (list_ascii_of_string s1) ++ list_ascii_of_string s2.
Proof.
  revert s2. induction s1 as [|c s1 IH]; intros s2; [done|].
  cbn [String.rev_app list_ascii_of_string].
  rewrite IH, reverse_cons, <- app_assoc. done.
Qed.

Lemma chars_rev (s : string) :
  list_ascii_of_string (String.rev s) = reverse (list_ascii_of_string s).
Proof. unfold String.rev. rewrite chars_rev_app. cbn. by rewrite app_nil_r. Qed.

Lemma chars_inj (s t : string) :
  list_ascii_of_string s = list_ascii_of_string t → s = t.
Proof.
  intros Heq. rewrite <- (string_of_list_ascii_of_string s),
    <- (string_of_list_ascii_of_string t). by rewrite Heq.
Qed.

Lemma rev_rev (s : string) : String.rev (String.rev s) = s.
Proof. apply chars_inj. by rewrite !chars_rev, reverse_involutive. Qed.

Lemma lstrip_clean (s : string) :
  (∀ c, c ∈ list_ascii_of_string s → Str.is_space c = false) → Str.lstrip s = s.
Proof.
  destruct s as [|c s]; [done|]. intros Hs. cbn.
  rewrite (Hs c); [done | cbn; by left].
Qed.

Lemma strip_clean (s : string) :
  (∀ c, c ∈ list_ascii_of_string s → Str.is_space c = false) → Str.strip s = s.
Proof.
  intros Hs. unfold Str.strip, Str.rstrip. rewrite (lstrip_clean s Hs).
  rewrite lstrip_clean; [apply rev_rev|].
  intros c Hc. apply Hs. rewrite chars_rev in Hc. by rewrite elem_of_reverse in Hc.
Qed.

Lemma replace_clean (c : ascii) (r s : string) :
  c ∉ list_ascii_of_string s → Str.replace c r s = s.
Proof.
  induction s as [|x s IH]; [done|]. cbn. intros [Hx Hs]%not_elem_of_cons.
  destruct (Ascii.eqb_spec x c) as [->|_]; [done|]. by rewrite IH.
Qed.

Lemma fold_replace_clean (cs : list ascii) (r s : string) :
  (∀ c, c ∈ cs → c ∉ list_ascii_of_string s) →
  fold_left (λ acc c, Str.replace c r acc) cs s = s.
Proof.
  induction cs as [|c cs IH]; intros Hs; cbn [fold_left]; [done|].
  rewrite replace_clean by (apply Hs; by left).
  apply IH. intros d Hd. apply Hs. by right.
Qed.

Lemma take_all (n : nat) (s : string) :
  (String.length s ≤ n)%nat → Str.take n s = s.
Proof.
  revert s. induction n as [|n IH]; intros [|c s]; cbn; try done; try lia.
  intros Hle. rewrite IH; [done | lia].
Qed.

(** X3.  A title of at most [MAX_FILENAME] characters, all of code points
    below U+0100, that holds no character that [str.isspace] takes for
    white space and none of the removed characters is its own file
    name. *)
Theorem clean_title_is_its_own_filename (filename : string) :
  (String.length filename ≤ MAX_FILENAME)%nat →
  (∀ c, c ∈ list_ascii_of_string filename →
        Str.is_space c = false
        ∧ c ∉ list_ascii_of_string ("<>:" +:+ Str.char 34 +:+ "/\|?*")) →
  create_valid_filename filename = filename.
Proof.
  intros Hlen Hclean. unfold create_valid_filename.
  rewrite strip_clean by (intros c Hc; by apply Hclean).
  rewrite (fold_replace_clean _ "" filename).
  - rewrite fold_replace_clean; [by apply take_all|].
    intros c Hc Hin. apply Hclean in Hin as [Hsp _].
    vm_compute in Hc.
    repeat (apply elem_of_cons in Hc as [->|Hc]); try by apply elem_of_nil in Hc.
    all: by vm_compute in Hsp.
  - intros c Hc Hin. by apply Hclean in Hin as [_ Hno].
Qed.


(** ** The matchers on any list of terms *)

Lemma next_match_first_hit (title : string) (terms : list string) (t : string) :
  next_match title terms = Some t ↔ first_hit title terms t.
Proof.
  induction terms as [|u terms IH].
  - split; [done|]. intros (pre & post & Heq & _). by destruct pre.
  - rewrite next_match_cons. destruct (term_found title u) eqn:Hu.
    + split.
      * intros [= ->]. exists [], terms. split; [done|]. split.
        -- by apply term_found_spec.
        -- intros x Hx. by apply elem_of_nil in Hx.
      * intros (pre & post & Heq & Ht & Hpre). destruct pre as [|x pre].
        -- by injection Heq as ->.
        -- injection Heq as Hux _. subst x. exfalso. apply (Hpre u); [by left|].
           by apply term_found_spec.
    + rewrite IH. split.
      * intros (pre & post & -> & Ht & Hpre). exists (u :: pre), post.
        split; [done|]. split; [done|].
        intros x [->|Hx]%elem_of_cons; [|by apply Hpre].
        rewrite <- term_found_spec. congruence.
      * intros (pre & post & Heq & Ht & Hpre). destruct pre as [|x pre].
        -- injection Heq as -> _. apply term_found_spec in Ht. congruence.
        -- injection Heq as Hux Hterms. subst x terms. exists pre, post. split; [done|].
           split; [done|]. intros y Hy. apply Hpre. by right.
Qed.

Lemma next_truthy_first_hit (title : string) (terms : list string) :
  next_truthy (next_match title terms) = true ↔
  ∃ t, first_hit title terms t ∧ t ≠ "".
Proof.
  destruct (next_match title terms) as [t|] eqn:Hnext.
  - apply next_match_first_hit in Hnext as Hhit. split.
    + intros Ht. exists t. split; [done|]. by intros ->.
    + intros (t' & Hhit' & Hne). apply next_match_first_hit in Hhit'.
      assert (t' = t) as -> by congruence. by destruct t.
  - split; [done|]. intros (t & Hhit & _).
    apply next_match_first_hit in Hhit. congruence.
Qed.

(** X4.  On any list of terms, of code points below U+0100 like the
    title, the matchers look only at the first term that occurs in the
    title, stripped as [str.strip] does and with case ignored as by
    [str.lower]: an include list or a title list matches when it is empty
    or that first term is not the empty string, and an exclude list
    matches when that first term exists and is not the empty string. *)
Theorem matchers_follow_first_hit (recording : Directory) (item : Item)
    (terms : list string) :
  (has_include_folder recording terms = true ↔
     terms = [] ∨ ∃ t, first_hit (dir_title recording) terms t ∧ t ≠ "") ∧
  (has_exclude_folder recording terms = true ↔
     ∃ t, first_hit (dir_title recording) terms t ∧ t ≠ "") ∧
  (has_title_match item terms = true ↔
     terms = [] ∨ ∃ t, first_hit (item_title item) terms t ∧ t ≠ "").
Proof.
  unfold has_include_folder, has_exclude_folder, has_title_match.
  destruct terms as [|u terms].
  - cbn [nonempty andb negb]. split; [|split].
    + split; [by left | done].
    + split; [done|]. intros (t & (pre & post & Heq & _) & _). by destruct pre.
    + split; [by left | done].
  - cbn [nonempty andb]. rewrite !negb_involutive, !next_truthy_first_hit.
    split; [|split].
    + split; [by right | by intros [|]].
    + done.
    + split; [by right | by intros [|]].
Qed.

(** ** The filter without probes *)

Lemma filter_item_pure (title : list string) (item : Item) (acc : list Item) w :
  filter_item title false item acc w =
  (Ret (if has_title_match item title then acc ++ [item] else acc), w).
Proof. unfold filter_item. by destruct (has_title_match item title). Qed.

Lemma for_in_filter_item_pure (title : list string) (items acc : list Item) w :
  for_in items (filter_item title false) acc w =
  (Ret (acc ++ filter (λ item, has_title_match item title = true) items), w).
Proof.
  revert acc. induction items as [|item items IH]; intros acc.
  - cbn. by rewrite app_nil_r.
  - cbn [for_in]. erewrite bind_ret; [|apply filter_item_pure].
    rewrite IH, filter_cons.
    destruct (has_title_match item title); case_decide; try done.
    by rewrite <- app_assoc.
Qed.

Lemma filter_recording_pure folder exclude title recording results w :
  filter_recording folder exclude title false false recording results w =
  (Ret (if folder_ok folder exclude recording
        then results ++ [title_listing title recording] else results), w).
Proof.
  unfold filter_recording, folder_ok.
  destruct (has_include_folder recording folder),
           (has_exclude_folder recording exclude); cbn [negb orb andb]; try done.
  erewrite bind_ret; [|apply for_in_filter_item_pure]. done.
Qed.

Lemma for_in_filter_recording_pure folder exclude title recordings results w :
  for_in recordings (filter_recording folder exclude title false false) results w =
  (Ret (results ++
        map (title_listing title)
            (filter (λ r, folder_ok folder exclude r = true) recordings)), w).
Proof.
  revert results. induction recordings as [|r recordings IH]; intros results.
  - cbn. by rewrite app_nil_r.
  - cbn [for_in]. erewrite bind_ret; [|apply filter_recording_pure].
    rewrite IH, filter_cons.
    destruct (folder_ok folder exclude r); case_decide; try done.
    cbn. by rewrite <- app_assoc.
Qed.

(** X5.  Without [shows] and [is_recording] the filter issues no request
    and changes nothing: it returns, in catalogue order, the folders that
    pass the folder criteria, each with those of its items, in their
    order, whose title passes the title criteria. *)
Theorem filter_without_probe folder exclude title recordings w :
  filter_recording_items folder exclude title false false recordings w =
  (Ret (map (title_listing title)
            (filter (λ r, folder_ok folder exclude r = true) recordings)), w).
Proof. unfold filter_recording_items. by rewrite for_in_filter_recording_pure. Qed.

(** X6.  With no criterion at all the filter returns every folder of the
    catalogue with all its items, in catalogue order. *)
Theorem filter_without_criteria_keeps_all recordings w :
  filter_recording_items [] [] [] false false recordings w =
  (Ret (map (λ r, mkListing (dir_title r) (dir_id r) (dir_items r)) recordings), w).
Proof.
  unfold filter_recording_items. rewrite for_in_filter_recording_pure. cbn [app].
  f_equal. f_equal. induction recordings as [|r recordings IH]; [done|].
  rewrite filter_cons. case_decide as Hok; [|done]. cbn [map]. rewrite IH. f_equal.
  unfold title_listing. f_equal. clear.
  induction (dir_items r) as [|i items IH]; [done|].
  rewrite filter_cons. case_decide; [by rewrite IH | done].
Qed.

(** ** The filter with probes *)

(** X7.  With [is_recording] set, no folder with an empty item list is
    returned. *)
Theorem live_filter_returns_no_empty_folder folder exclude title shows recordings
    w rs w' :
  filter_recording_items folder exclude title shows true recordings w = (Ret rs, w') →
  Forall (λ l, l_items l ≠ []) rs.
Proof.
  unfold filter_recording_items.
  apply (for_in_invariant (Forall (λ l, l_items l ≠ []))); [|by apply Forall_nil].
  intros r results w0 results' w0' _ Hres. unfold filter_recording.
  destruct (negb (has_include_folder r folder) || has_exclude_folder r exclude).
  - by intros [= <- _].
  - intros (items & w1 & _ & [= <- _])%bind_ret_inv.
    apply Forall_forall. intros l [Hl _]%list_elem_of_filter.
    intros Hempty. rewrite Hempty in Hl. done.
Qed.


Lemma currently_recording_ret item w b w' :
  currently_recording item w = (Ret b, w') →
  log w' = log w ++ [EvGet (reqs w) (item_url item) None] ∧
  (b = true → ∃ r, http (reqs w) (item_url item) = Answer r ∧
                   content_length r = Length MAX_OCTET).
Proof.
  unfold currently_recording.
  intros (r & w1 & Hget & (u & w2 & Hstatus & (n & w3 & Hlen & Hret)%bind_ret_inv)
            %bind_ret_inv)%bind_ret_inv.
  unfold requests_get in Hget.
  destruct (http (reqs w) (item_url item)) as [| |r'] eqn:Hhttp;
    [by destruct (None : option Z) | done |].
  injection Hget as Hr Hw1. subst r' w1.
  unfold raise_for_status in Hstatus.
  destruct ((400 <=? status r) && (status r <? 600))%nat; [done|].
  injection Hstatus as Hw2. subst w2.
  unfold int_content_length in Hlen.
  destruct (content_length r) as [| |m] eqn:Hcl; [done..|].
  injection Hlen as Hn Hw3. subst n w3. injection Hret as Hb Hw'. subst b w'.
  split; [done|]. intros Heq%Z.eqb_eq. subst m. eauto.
Qed.

Lemma answered_live_app (evs1 evs2 : list event) (item : Item) :
  answered_live evs1 item ∨ answered_live evs2 item →
  answered_live (evs1 ++ evs2) item.
Proof.
  intros [(n & r & Hin & Hr)|(n & r & Hin & Hr)]; exists n, r;
    (split; [apply elem_of_app; auto | done]).
Qed.

Lemma for_in_filter_item_live title items w0 :
  ∀ acc w acc' w',
    (∃ evs, log w = log w0 ++ evs ∧
       Forall (λ i, has_title_match i title = true ∧ answered_live evs i) acc) →
    for_in items (filter_item title true) acc w = (Ret acc', w') →
    ∃ evs, log w' = log w0 ++ evs ∧
       Forall (λ i, has_title_match i title = true ∧ answered_live evs i) acc'.
Proof.
  apply (for_in_invariant_w
           (λ acc w, ∃ evs, log w = log w0 ++ evs ∧
              Forall (λ i, has_title_match i title = true ∧ answered_live evs i) acc)).
  intros item acc w acc' w' _ (evs & Hlog & Hacc). unfold filter_item.
  destruct (has_title_match item title) eqn:Hm; cbn [negb].
  - intros (b & w1 & Hprobe & Hret)%bind_ret_inv.
    apply currently_recording_ret in Hprobe as [Hlog1 Hlive].
    exists (evs ++ [EvGet (reqs w) (item_url item) None]).
    assert (Forall (λ i, has_title_match i title = true ∧
                         answered_live (evs ++ [EvGet (reqs w) (item_url item) None]) i)
                   acc) as Hacc'.
    { eapply Forall_impl; [exact Hacc|]. intros i [? ?]. split; [done|].
      apply answered_live_app. by left. }
    destruct b; injection Hret as <- <-.
    + split; [by rewrite Hlog1, Hlog, app_assoc|].
      apply Forall_app. split; [done|]. apply Forall_singleton. split; [done|].
      apply answered_live_app. right.
      destruct (Hlive eq_refl) as (r & Hr & Hcl). exists (reqs w), r.
      split; [by left | done].
    + split; [by rewrite Hlog1, Hlog, app_assoc | done].
  - intros [= <- <-]. eauto.
Qed.

(** X8.  With [is_recording] set, every item the filter returns passes
    the title criteria and was probed during the call: a request for its
    URL was sent, and the appliance answered it with the length that
    marks a recording in progress. *)
Theorem live_filter_items_were_answered_live folder exclude title shows recordings
    w rs w' :
  filter_recording_items folder exclude title shows true recordings w = (Ret rs, w') →
  ∃ evs, log w' = log w ++ evs ∧
    ∀ l item, l ∈ rs → item ∈ l_items l →
      has_title_match item title = true ∧ answered_live evs item.
Proof.
  unfold filter_recording_items. intros Hrun.
  pose (I := λ (results : list listing) (w1 : world),
          ∃ evs, log w1 = log w ++ evs ∧
            Forall (λ l, Forall (λ i, has_title_match i title = true ∧
                                      answered_live evs i) (l_items l)) results).
  assert (I rs w') as (evs & Hlog & Hrs).
  { revert Hrun. apply (for_in_invariant_w I).
    - intros r results w1 results' w1' _ (evs & Hlog & Hres). unfold filter_recording.
      destruct (negb (has_include_folder r folder) || has_exclude_folder r exclude).
      + intros [= <- <-]. exists evs. done.
      + intros (items & w2 & Hitems & [= <- <-])%bind_ret_inv.
        assert (∃ evs1, log w2 = log w1 ++ evs1 ∧
                  Forall (λ i, has_title_match i title = true ∧ answered_live evs1 i)
                         items) as (evs1 & Hlog1 & Hitems1).
        { destruct shows; cbn [negb] in Hitems.
          - injection Hitems as <- <-. exists []. by rewrite app_nil_r.
          - eapply for_in_filter_item_live; [|exact Hitems].
            exists []. by rewrite app_nil_r. }
        exists (evs ++ evs1). split; [by rewrite Hlog1, Hlog, app_assoc|].
        apply Forall_forall. intros l [_ Hl]%list_elem_of_filter.
        apply elem_of_app in Hl as [Hl|Hl%list_elem_of_singleton].
        * rewrite Forall_forall in Hres. eapply Forall_impl; [by apply Hres|].
          intros i [? ?]. split; [done|]. apply answered_live_app. by left.
        * subst l. cbn [l_items]. eapply Forall_impl; [exact Hitems1|].
          intros i [? ?]. split; [done|]. apply answered_live_app. by right.
    - exists []. by rewrite app_nil_r. }
  exists evs. split; [done|]. intros l item Hl Hitem.
  rewrite Forall_forall in Hrs. specialize (Hrs l Hl).
  rewrite Forall_forall in Hrs. by apply Hrs.
Qed.


(** ** [create_item] *)

Lemma skip_digits_split (s : string) :
  ∃ d, Forall (λ c, is_digit c = true) (list_ascii_of_string d) ∧
       s = d +:+ skip_digits s.
Proof.
  induction s as [|c s (d & Hd & Heq)]; [by exists ""|].
  cbn [skip_digits]. destruct (is_digit c) eqn:Hc.
  - exists (String c d). split; [by constructor|].
    change (String c d +:+ skip_digits s) with (String c (d +:+ skip_digits s)).
    by rewrite <- Heq.
  - by exists "".
Qed.

Lemma skip_digits_app (d t : string) :
  Forall (λ c, is_digit c = true) (list_ascii_of_string d) →
  skip_digits (d +:+ t) = skip_digits t.
Proof.
  induction d as [|c d IH]; [done|]. cbn [list_ascii_of_string].
  intros [Hc Hd]%Forall_cons.
  change (String c d +:+ t) with (String c (d +:+ t)). cbn [skip_digits].
  rewrite Hc. by apply IH.
Qed.

Lemma after_digits_app (d t : string) :
  digits d → after_digits (d +:+ t) = Some (skip_digits t).
Proof.
  intros [Hne Hd]. destruct d as [|c d]; [done|].
  cbn [list_ascii_of_string] in Hd. apply Forall_cons in Hd as [Hc Hd].
  change (String c d +:+ t) with (String c (d +:+ t)). cbn [after_digits].
  rewrite Hc. by rewrite skip_digits_app.
Qed.

Lemma after_digits_inv (s t : string) :
  after_digits s = Some t → ∃ d, digits d ∧ s = d +:+ t.
Proof.
  destruct s as [|c s]; [done|]. cbn [after_digits].
  destruct (is_digit c) eqn:Hc; [|done]. intros [= <-].
  destruct (skip_digits_split s) as (d & Hd & Heq).
  exists (String c d). split; [split; [done | by constructor]|].
  change (String c d +:+ skip_digits s) with (String c (d +:+ skip_digits s)).
  by rewrite <- Heq.
Qed.

Lemma match_episode_spec (s : string) :
  match_episode s = true ↔
  ∃ d1 d2 rest, digits d1 ∧ digits d2 ∧ s = "S" +:+ d1 +:+ " E" +:+ d2 +:+ rest.
Proof.
  split.
  - unfold match_episode. destruct s as [|c s1]; [done|].
    destruct (Ascii.eqb_spec c "S") as [->|Hne].
    2:{ intros Hm. exfalso. revert Hm.
        destruct c as [[] [] [] [] [] [] [] []]; try done. }
    destruct (after_digits s1) as [t|] eqn:H1; [|done].
    destruct t as [|c1 [|c2 s2]]; try done.
    { by destruct c1 as [[] [] [] [] [] [] [] []]. }
    destruct (Ascii.eqb_spec c1 " ") as [->|Hne1].
    2:{ intros Hm. exfalso. revert Hm.
        destruct c1 as [[] [] [] [] [] [] [] []]; try done. }
    destruct (Ascii.eqb_spec c2 "E") as [->|Hne2].
    2:{ intros Hm. exfalso. revert Hm.
        destruct c2 as [[] [] [] [] [] [] [] []]; try done. }
    intros [t2 H2]%bool_decide_eq_true.
    apply after_digits_inv in H1 as (d1 & Hd1 & ->).
    apply after_digits_inv in H2 as (d2 & Hd2 & ->).
    by exists d1, d2, t2.
  - intros (d1 & d2 & rest & Hd1 & Hd2 & ->).
    change ("S" +:+ d1 +:+ " E" +:+ d2 +:+ rest)
      with (String "S" (d1 +:+ String " " (String "E" (d2 +:+ rest)))).
    cbn [match_episode]. rewrite (after_digits_app _ _ Hd1). cbn [skip_digits].
    change (is_digit " ") with false. cbv beta iota.
    rewrite (after_digits_app _ _ Hd2). by apply bool_decide_eq_true.
Qed.

(** X9.  The report entry of an item copies its id, title, duration,
    size and description.  For a title of code points below U+0100, where
    the decimal digits are 0 to 9, its type is [episode] exactly when the
    title starts with [S], digits, a space, [E] and digits; every other
    such title gives [movie]. *)
Theorem create_item_types_by_title (item : Item) :
  j_id (create_item item) = item_id item ∧
  j_title (create_item item) = item_title item ∧
  j_duration (create_item item) = item_duration item ∧
  j_size (create_item item) = item_size item ∧
  j_description (create_item item) = item_description item ∧
  (j_type (create_item item) = "episode" ∨ j_type (create_item item) = "movie") ∧
  (j_type (create_item item) = "episode" ↔
     ∃ d1 d2 rest, digits d1 ∧ digits d2 ∧
       item_title item = "S" +:+ d1 +:+ " E" +:+ d2 +:+ rest).
Proof.
  repeat (split; [done|]). rewrite <- match_episode_spec.
  unfold create_item. cbn [j_type].
  destruct (match_episode (item_title item)); [by split; [left|] | ].
  split; [by right | by split].
Qed.


(** ** The registry *)

Lemma disk_op_ok w : disk (ops w) = None → disk_op w = (Ret tt, tick_ops w).
Proof. unfold disk_op. by intros ->. Qed.

Lemma disk_op_fail w msg :
  disk (ops w) = Some msg → disk_op w = (Raise (Exn OSError [PyStr msg]), tick_ops w).
Proof. unfold disk_op. by intros ->. Qed.

Lemma add_file_run self item w saved w' :
  add_file self item w = (Ret saved, w') →
  path_isdir (fs w) (registry_path (sf_path self)) = false ∧
  saved = mkSavedFiles (<[item_id item := item_title item]> (sf_files self))
                       (sf_path self) ∧
  fs w' = <[registry_path (sf_path self) := FFile (Pickle saved)]>
            (<[registry_path (sf_path self) := FFile (Data "")]> (fs w)) ∧
  heap w' = heap w.
Proof.
  unfold add_file. cbn [sf_path]. intros ([] & w1 & Hop & Hrun)%bind_ret_inv.
  apply disk_op_ret in Hop as [_ ->].
  apply bind_ret_inv in Hrun as (is_dir & w2 & [= <- <-] & Hrun).
  cbn [fs tick_ops] in Hrun. destruct (path_isdir (fs w) _); [done|].
  apply bind_ret_inv in Hrun as ([] & w3 & [= <-] & Hrun).
  apply bind_ret_inv in Hrun as ([] & w4 & [= <-] & Hrun).
  apply bind_ret_inv in Hrun as ([] & w5 & Hop2 & Hrun).
  apply bind_ret_inv in Hrun as ([] & w6 & [= <-] & Hrun).
  apply bind_ret_inv in Hrun as ([] & w7 & [= <-] & [= <- <-]).
  apply store_op_ret in Hop2 as [_ ->]. done.
Qed.

Lemma prefix_own_child (p : string) :
  String.prefix (p +:+ sep) p = true → sep = "".
Proof.
  intros [post Heq]%prefix_spec. apply (f_equal String.length) in Heq.
  rewrite !string_length_app in Heq. destruct sep; [done | cbn in Heq; lia].
Qed.

(** A file put at [p] does not turn [p] into a directory. *)
Lemma path_isdir_insert_file (m : gmap string node) (p : string) (c : content) :
  sep ≠ "" → path_isdir m p = false → path_isdir (<[p := FFile c]> m) p = false.
Proof.
  intros Hsep Hdir. unfold path_isdir in *. rewrite lookup_insert_eq. cbn [orb].
  apply orb_false_iff in Hdir as [_ Hdesc].
  apply not_true_is_false. intros (q & Hq & Hpre)%has_descendant_spec.
  destruct (decide (q = p)) as [->|Hne].
  - by apply prefix_own_child in Hpre.
  - rewrite lookup_insert_ne in Hq by done.
    assert (has_descendant m p = true) by (apply has_descendant_spec; eauto).
    congruence.
Qed.

(** Loading where a document written by [add_file] lies. *)
Lemma load_stored path inst w :
  disk (ops w) = None →
  path_isdir (fs w) (registry_path path) = false →
  fs w !! registry_path path = Some (FFile (Pickle inst)) →
  SavedFiles_load path w =
  (Ret (mkSavedFiles (sf_files inst) path),
   emit (EvOpenRegistry (registry_path path)) (tick_ops w)).
Proof.
  intros Hdisk Hdir Hdoc. unfold SavedFiles_load.
  erewrite bind_ret; [|by apply disk_op_ok].
  erewrite bind_ret; [|reflexivity]. cbn [fs tick_ops]. rewrite Hdir.
  erewrite bind_ret; [|reflexivity]. erewrite bind_ret; [|reflexivity].
  erewrite bind_ret; [|reflexivity]. cbn [fs set_fs emit tick_ops].
  unfold create_if_missing. rewrite !Hdoc. unfold ret, emit, set_fs, tick_ops.
  cbn. by rewrite Hdoc.
Qed.

(** Loading where an empty document lies, or none. *)
Lemma load_empty path w :
  disk (ops w) = None →
  path_isdir (fs w) (registry_path path) = false →
  create_if_missing (registry_path path) (fs w) !! registry_path path
    = Some (FFile (Data "")) →
  SavedFiles_load path w =
  (Ret (mkSavedFiles ∅ path),
   emit (EvOpenRegistry (registry_path path))
        (set_fs (create_if_missing (registry_path path)) (tick_ops w))).
Proof.
  intros Hdisk Hdir Hdoc. unfold SavedFiles_load.
  erewrite bind_ret; [|by apply disk_op_ok].
  erewrite bind_ret; [|reflexivity]. cbn [fs tick_ops]. rewrite Hdir.
  erewrite bind_ret; [|reflexivity]. erewrite bind_ret; [|reflexivity].
  erewrite bind_ret; [|reflexivity]. cbn [fs set_fs emit tick_ops].
  by rewrite Hdoc.
Qed.

(** X10.  What [add_file] has stored, [load] reads back: loading from
    the same save root right after a successful [add_file] returns the
    registry that [add_file] built, which contains the added item and
    every item the registry contained before; the disk is left as it
    was. *)
Theorem added_entry_survives_reload self item w saved w1 :
  add_file self item w = (Ret saved, w1) →
  sep ≠ "" →
  disk (ops w1) = None →
  ∃ w2, SavedFiles_load (sf_path self) w1 = (Ret saved, w2) ∧
        fs w2 = fs w1 ∧
        contains saved item = true ∧
        ∀ other, contains self other = true → contains saved other = true.
Proof.
  intros (Hdir & Hsaved & Hfs & _)%add_file_run Hsep Hdisk.
  assert (path_isdir (fs w1) (registry_path (sf_path self)) = false) as Hdir1.
  { rewrite Hfs. by do 2 (apply path_isdir_insert_file; [done|]). }
  assert (fs w1 !! registry_path (sf_path self) = Some (FFile (Pickle saved))) as Hdoc.
  { rewrite Hfs. by rewrite lookup_insert_eq. }
  exists (emit (EvOpenRegistry (registry_path (sf_path self))) (tick_ops w1)).
  split; [|split; [reflexivity|]].
  - rewrite (load_stored _ _ _ Hdisk Hdir1 Hdoc). by rewrite Hsaved.
  - rewrite Hsaved. unfold contains. cbn [sf_files]. split.
    + apply bool_decide_eq_true. rewrite dom_insert. set_solver.
    + intros other Hin%bool_decide_eq_true. apply bool_decide_eq_true.
      rewrite dom_insert. set_solver.
Qed.

(** X11.  On a save root without a registry document, [load] creates an
    empty document and returns a registry that contains no item. *)
Theorem load_creates_missing_document path w :
  disk (ops w) = None →
  path_exists (fs w) (registry_path path) = false →
  ∃ w', SavedFiles_load path w = (Ret (mkSavedFiles ∅ path), w') ∧
        fs w' = <[registry_path path := FFile (Data "")]> (fs w) ∧
        ∀ item, contains (mkSavedFiles ∅ path) item = false.
Proof.
  intros Hdisk Hex. unfold path_exists in Hex.
  apply orb_false_iff in Hex as [Hp Hdesc].
  apply bool_decide_eq_false in Hp. rewrite <- eq_None_not_Some in Hp.
  assert (create_if_missing (registry_path path) (fs w)
          = <[registry_path path := FFile (Data "")]> (fs w)) as Hnew.
  { unfold create_if_missing. by rewrite Hp. }
  eexists. split; [|split].
  - apply load_empty; [done| |].
    + unfold path_isdir. by rewrite Hp, Hdesc.
    + by rewrite Hnew, lookup_insert_eq.
  - cbn [fs emit set_fs tick_ops]. done.
  - intros item. unfold contains. cbn [sf_files]. apply bool_decide_eq_false.
    rewrite dom_empty. set_solver.
Qed.

(** X12.  However it ends, [load] changes nothing on the disk except
    that it creates the registry document, empty, where there was
    none. *)
Theorem load_only_creates_the_document path w o w' :
  SavedFiles_load path w = (o, w') →
  fs w' = fs w ∨
  (fs w !! registry_path path = None ∧
   fs w' = <[registry_path path := FFile (Data "")]> (fs w)).
Proof.
  unfold SavedFiles_load. intros Hrun.
  apply bind_inv in Hrun as [([] & w1 & Hop & Hrun)|[(e & Hop & _)|[Hop _]]].
  2:{ unfold disk_op in Hop. left. by destruct (disk (ops w)); injection Hop as _ <-. }
  2:{ unfold disk_op in Hop. by destruct (disk (ops w)). }
  apply disk_op_ret in Hop as [_ ->].
  apply bind_inv in Hrun as [(is_dir & w2 & [= <- <-] & Hrun)|[(e & [=] & _)|[[=] _]]].
  cbn [fs tick_ops] in Hrun.
  destruct (path_isdir (fs w) (registry_path path)); [injection Hrun as _ <-; by left|].
  apply bind_inv in Hrun as [([] & w3 & [= <-] & Hrun)|[(e & [=] & _)|[[=] _]]].
  apply bind_inv in Hrun as [([] & w4 & [= <-] & Hrun)|[(e & [=] & _)|[[=] _]]].
  apply bind_inv in Hrun as [(c & w5 & [= <- <-] & Hrun)|[(e & [=] & _)|[[=] _]]].
  assert (fs w' = create_if_missing (registry_path path) (fs w)) as ->.
  { cbn [fs emit set_fs tick_ops] in Hrun.
    destruct (create_if_missing (registry_path path) (fs w) !! registry_path path)
      as [[|[[|]|]]|]; by injection Hrun as _ <-. }
  unfold create_if_missing.
  destruct (fs w !! registry_path path) eqn:Hdoc; [by left | by right].
Qed.

(** Loading where a document lies that [jsonpickle] did not write. *)
Lemma load_foreign path d w :
  disk (ops w) = None →
  path_isdir (fs w) (registry_path path) = false →
  fs w !! registry_path path = Some (FFile (Data d)) →
  d ≠ "" →
  SavedFiles_load path w =
  (Raise (foreign_document d),
   emit (EvOpenRegistry (registry_path path)) (tick_ops w)).
Proof.
  intros Hdisk Hdir Hdoc Hd. unfold SavedFiles_load.
  erewrite bind_ret; [|by apply disk_op_ok].
  erewrite bind_ret; [|reflexivity]. cbn [fs tick_ops]. rewrite Hdir.
  erewrite bind_ret; [|reflexivity]. erewrite bind_ret; [|reflexivity].
  erewrite bind_ret; [|reflexivity]. cbn [fs set_fs emit tick_ops].
  unfold create_if_missing. rewrite !Hdoc. unfold raise, emit, set_fs, tick_ops.
  cbn. rewrite Hdoc. by destruct d.
Qed.

(** X13.  When the disk fails while [add_file] writes the document it
    has just truncated, [add_file] raises the [OSError], and the document
    holds what reached the disk of the new text.  When nothing did, the
    document is empty and the next [load] returns a registry without any
    of the entries saved before; when a part did, the next [load] fails;
    when all did, the next [load] returns the new registry. *)
Theorem failed_store_empties_the_registry self item w msg :
  let p := registry_path (sf_path self) in
  let saved := mkSavedFiles (<[item_id item := item_title item]> (sf_files self))
                            (sf_path self) in
  sep ≠ "" →
  disk (ops w) = None →
  path_isdir (fs w) p = false →
  disk (S (ops w)) = Some msg →
  ∃ w',
    add_file self item w = (Raise (Exn OSError [PyStr msg]), w') ∧
    fs w' !! p = Some (torn_document (torn (S (ops w))) saved) ∧
    (disk (S (S (ops w))) = None →
     match torn (S (ops w)) with
     | Some "" =>
         ∃ w'', SavedFiles_load (sf_path self) w'
                = (Ret (mkSavedFiles ∅ (sf_path self)), w'')
     | Some d =>
         ∃ w'', SavedFiles_load (sf_path self) w' = (Raise (foreign_document d), w'')
     | None =>
         ∃ w'', SavedFiles_load (sf_path self) w' = (Ret saved, w'')
     end).
Proof.
  intros p saved Hsep Hd0 Hdir Hd1.
  pose (w3 := emit (EvTruncate p) (set_fs (insert p (FFile (Data ""))) (tick_ops w))).
  pose (w' := tick_ops (set_fs (insert p (torn_document (torn (ops w3)) saved)) w3)).
  assert (fs w' !! p = Some (torn_document (torn (S (ops w))) saved)) as Hdoc.
  { cbn. by rewrite lookup_insert_eq. }
  exists w'. split; [|split; [done|]].
  - unfold add_file. cbn [sf_path]. fold p. fold saved.
    erewrite bind_ret; [|by apply disk_op_ok].
    erewrite bind_ret; [|reflexivity]. cbn [fs tick_ops]. rewrite Hdir.
    erewrite bind_ret; [|reflexivity]. erewrite bind_ret; [|reflexivity].
    erewrite bind_raise; [reflexivity|]. by apply store_op_fail.
  - intros Hd2.
    assert (disk (ops w') = None) as Hops by done.
    assert (path_isdir (fs w') p = false) as Hdir'.
    { cbn [fs w' w3 tick_ops emit set_fs ops].
      destruct (torn (S (ops w))) as [d|]; cbn [torn_document];
        by do 2 (apply path_isdir_insert_file; [done|]). }
    destruct (torn (S (ops w))) as [d|] eqn:Htorn; cbn [torn_document] in Hdoc.
    + destruct d as [|c d].
      * eexists. apply load_empty; [done..|]. fold p.
        unfold create_if_missing. by rewrite !Hdoc.
      * eexists. by apply load_foreign.
    + eexists. by rewrite (load_stored _ _ _ Hops Hdir' Hdoc).
Qed.

(** ** Transfers that complete *)



Lemma prefix_longer (a b : string) :
  (String.length b < String.length a)%nat → String.prefix a b = false.
Proof.
  intros Hlen. apply not_true_is_false. intros [post Heq]%prefix_spec.
  apply (f_equal String.length) in Heq. rewrite string_length_app in Heq. lia.
Qed.







Lemma request_ok line url w r :
  http (reqs w) url = Answer r →
  (print_item line 1;; requests_get url None) w =
  (Ret r, tick_reqs (emit (EvGet (reqs w) url None)
                       (emit (EvPrint (tabs 1 +:+ " -- " +:+ line)) w))).
Proof.
  intros Hhttp. unfold print_item, print.
  erewrite bind_ret; [|reflexivity]. unfold requests_get. cbn [reqs emit].
  by rewrite Hhttp.
Qed.










(** ** Requests that fail *)

Lemma download_file_request_error item filename result w e :
  request_error (http (reqs w) (item_url item)) = Some e →
  download_file item filename result w =
  (Raise e,
   tick_reqs (emit (EvGet (reqs w) (item_url item) None)
                (emit (EvPrint (tabs 1 +:+ " -- " +:+
                         ("Writing: [" +:+ item_title item +:+ "] to [" +:+ filename +:+ "]")))
                   w))).
Proof.
  intros Herr. unfold download_file, print_item, print.
  erewrite bind_ret; [|reflexivity].
  destruct (http (reqs w) (item_url item)) as [| |a] eqn:Hhttp; [done| |].
  - injection Herr as <-. apply bind_raise.
    unfold requests_get. cbn [reqs emit]. by rewrite Hhttp.
  - erewrite bind_ret; [|by unfold requests_get; cbn [reqs emit]; rewrite Hhttp].
    cbn [request_error] in Herr. unfold raise_for_status.
    destruct ((400 <=? status a) && (status a <? 600))%nat.
    + injection Herr as <-. by apply bind_raise.
    + erewrite bind_ret; [|reflexivity]. unfold int_content_length.
      destruct (content_length a); [| |done]; injection Herr as <-; by apply bind_raise.
Qed.

(** X16.  [download_file] catches nothing that goes wrong before the
    body is read.  When the request of a due, unlocked item is refused,
    comes back with a 4xx/5xx status, or carries a [content-length] that
    is missing or no number, the round raises that exception with no
    file created and the report entry as it was made; the run it belongs
    to ends with the exception instead of returning a report. *)
Theorem failed_download_request_ends_the_run path overwrite show item st w wa e :
  (overwrite || negb (contains (saved_files st) item)) = true →
  ensure_directory (show_directory path show) w = (Ret tt, wa) →
  path_exists (fs wa) (item_file_path path show item +:+ CONST_LOCK) = false →
  request_error (http (reqs wa) (item_url item)) = Some e →
  ∃ w',
    save_item path overwrite show item st w = (Raise e, w') ∧
    fs w' = fs wa ∧
    heap w' = heap w ++ [mkResult (create_item item) false None None] ∧
    ∀ recordings w_init reg before,
      reaches path overwrite recordings w_init reg before show item st w →
      save_recordings recordings path overwrite w_init = (Raise e, w').
Proof.
  intros Hdue Hdir Hlock Herr.
  assert (heap wa = heap w) as Hheap.
  { by apply ensure_directory_ret in Hdir as [->|(_ & _ & ->)]. }
  eexists. split; [|split; [|split]].
  - unfold save_item. rewrite Hdue.
    erewrite bind_ret; [|exact Hdir].
    erewrite bind_ret; [|reflexivity].
    erewrite bind_ret; [|by unfold os_path_exists, get; cbn [fs set_heap]; rewrite Hlock].
    cbv beta iota. apply bind_raise.
    by apply download_file_request_error.
  - done.
  - cbn [heap tick_reqs emit set_heap]. by rewrite Hheap.
  - intros recordings w_init reg before Hreach.
    eapply run_raises_with_round; [exact Hreach|].
    unfold save_item. rewrite Hdue.
    erewrite bind_ret; [|exact Hdir].
    erewrite bind_ret; [|reflexivity].
    erewrite bind_ret; [|by unfold os_path_exists, get; cbn [fs set_heap]; rewrite Hlock].
    cbv beta iota. apply bind_raise.
    by apply download_file_request_error.
Qed.

(** X17.  [download_file] does not touch a lock file that is already
    there: it returns [False] with the warning in the report entry, and
    the disk is as before. *)
Theorem download_refuses_existing_lock item filename result w r n :
  http (reqs w) (item_url item) = Answer r →
  ((400 <=? status r) && (status r <? 600))%nat = false →
  content_length r = Length n →
  n ≠ MAX_OCTET →
  path_exists (fs w) (filename +:+ CONST_LOCK) = true →
  ∃ w', download_file item filename result w = (Ret false, w') ∧
        fs w' = fs w ∧ ops w' = ops w ∧
        heap w' = alter (λ d, mkResult (res_item d) (recorded d)
                                (Some "Already writing (lock file exists) skipping")
                                (error d)) result (heap w).
Proof.
  intros Hhttp Hstatus Hlen Hn Hlock.
  rewrite (download_file_after_headers _ _ _ _ _ _ _ (request_ok _ _ _ _ Hhttp)
             Hstatus Hlen).
  apply Z.eqb_neq in Hn. rewrite Hn.
  set (w1 := tick_reqs _).
  assert (write_stream (filename +:+ CONST_LOCK) r w1
          = (Raise (Exn FileExistsError [PyStr (filename +:+ CONST_LOCK)]), w1)) as Hstream.
  { unfold write_stream. apply bind_raise. unfold open_x.
    erewrite bind_ret; [|by unfold os_path_exists, get; cbn [fs w1 tick_reqs emit];
                          rewrite Hlock].
    done. }
  erewrite bind_ret.
  2:{ erewrite try_except_raise; [|by apply bind_raise; exact Hstream].
      unfold download_handlers. cbn [isinstance]. reflexivity. }
  eexists. split; [reflexivity|]. done.
Qed.


(** ** The registry during a run *)

Lemma save_item_registry_due path overwrite show item st w st' w' :
  save_item path overwrite show item st w = (Ret st', w') →
  saved_files st' = saved_files st ∨
  ((overwrite || negb (contains (saved_files st) item)) = true ∧
   saved_files st' =
     mkSavedFiles (<[item_id item := item_title item]> (sf_files (saved_files st)))
                  (sf_path (saved_files st))).
Proof.
  intros Hrun. destruct (overwrite || negb (contains (saved_files st) item)) eqn:Hdue.
  - apply save_item_registry in Hrun as [?|?]; [by left | by right].
  - unfold save_item in Hrun. rewrite Hdue in Hrun. injection Hrun as <- _. by left.
Qed.

(** X18.  A run never takes an entry out of the registry and never
    moves the registry to another save root; without [overwrite] it
    never changes the title of an entry either. *)
Theorem registry_only_grows path overwrite recordings st w st' w' :
  save_loop path overwrite recordings st w = (Ret st', w') →
  sf_path (saved_files st') = sf_path (saved_files st) ∧
  ∀ id title, sf_files (saved_files st) !! id = Some title →
    ∃ title', sf_files (saved_files st') !! id = Some title' ∧
              (overwrite = false → title' = title).
Proof.
  rewrite save_loop_work.
  apply (for_in_invariant
           (λ s, sf_path (saved_files s) = sf_path (saved_files st) ∧
                 ∀ id title, sf_files (saved_files st) !! id = Some title →
                   ∃ title', sf_files (saved_files s) !! id = Some title' ∧
                             (overwrite = false → title' = title))).
  - intros [show item] s w0 s' w0' _ [Hpath Hkeep] Hstep.
    apply save_item_registry_due in Hstep as [->|[Hdue ->]]; [done|].
    cbn [sf_path sf_files]. split; [done|]. intros id title Hid.
    destruct (Hkeep id title Hid) as (title' & Hid' & Htitle).
    destruct (decide (id = item_id item)) as [->|Hne].
    + exists (item_title item). rewrite lookup_insert_eq. split; [done|].
      intros ->. cbn [orb] in Hdue. apply negb_true_iff in Hdue.
      unfold contains in Hdue. apply bool_decide_eq_false in Hdue.
      exfalso. apply Hdue. apply elem_of_dom. eauto.
    + exists title'. by rewrite lookup_insert_ne.
  - split; [done|]. intros id title Hid. eauto.
Qed.

(** ** The report *)

Lemma alter_keeps_items (f : result → result) (i : nat) (h : list result) :
  (∀ r, res_item (f r) = res_item r) →
  map res_item (alter f i h) = map res_item h.
Proof.
  intros Hf. revert i. induction h as [|r h IH]; intros [|i]; cbn; try done.
  - by rewrite Hf.
  - by rewrite IH.
Qed.

Section Keeps.

Context {A : Type}.

Lemma keeps_same (m : M A) :
  (∀ w o w', m w = (o, w') → heap w' = heap w) → keeps_items m.
Proof. intros Hsame w o w' Hrun. by rewrite (Hsame _ _ _ Hrun). Qed.

Lemma keeps_ret (a : A) : keeps_items (ret a).
Proof. apply keeps_same. by intros w o w' [= <- <-]. Qed.

Lemma keeps_raise (e : exn) : keeps_items (raise (A := A) e).
Proof. apply keeps_same. by intros w o w' [= <- <-]. Qed.

Lemma keeps_get (f : world → A) : keeps_items (get f).
Proof. apply keeps_same. by intros w o w' [= <- <-]. Qed.

Lemma keeps_bind {B} (m : M B) (k : B → M A) :
  keeps_items m → (∀ b, keeps_items (k b)) → keeps_items (bind m k).
Proof.
  intros Hm Hk w o w' Hrun.
  apply bind_inv in Hrun as [(b & w1 & Hmw & Hkw)|[(e & Hmw & ->)|[Hmw ->]]].
  - by rewrite (Hk _ _ _ _ Hkw), (Hm _ _ _ Hmw).
  - by apply Hm in Hmw.
  - by apply Hm in Hmw.
Qed.

Lemma keeps_try_except (m : M A) (h : exn → M A) :
  keeps_items m → (∀ e, keeps_items (h e)) → keeps_items (try_except m h).
Proof.
  intros Hm Hh w o w' Hrun. unfold try_except in Hrun.
  destruct (m w) as [[a|e|] w1] eqn:Hmw.
  - injection Hrun as <- <-. by apply Hm in Hmw.
  - by rewrite (Hh _ _ _ _ Hrun), (Hm _ _ _ Hmw).
  - injection Hrun as <- <-. by apply Hm in Hmw.
Qed.

Lemma keeps_for_in {B} (xs : list B) (body : B → A → M A) (s : A) :
  (∀ x s, keeps_items (body x s)) → keeps_items (for_in xs body s).
Proof.
  intros Hbody. revert s. induction xs as [|x xs IH]; intros s; cbn [for_in].
  - apply keeps_ret.
  - apply keeps_bind; [apply Hbody | apply IH].
Qed.

End Keeps.

Lemma keeps_do (f : world → world) :
  (∀ w, map res_item (heap (f w)) = map res_item (heap w)) → keeps_items (do f).
Proof. intros Hf w o w' [= <- <-]. apply Hf. Qed.

Lemma keeps_disk_op : keeps_items disk_op.
Proof.
  apply keeps_same. intros w o w' Hrun. unfold disk_op in Hrun.
  destruct (disk (ops w)); by injection Hrun as <- <-.
Qed.

Lemma keeps_requests_get url timeout : keeps_items (requests_get url timeout).
Proof.
  apply keeps_same. intros w o w' Hrun. unfold requests_get in Hrun.
  destruct (http (reqs w) url); [destruct timeout|..]; by injection Hrun as <- <-.
Qed.

Ltac keeps_step :=
  first
    [ apply keeps_ret | apply keeps_raise | apply keeps_get | apply keeps_disk_op
    | apply keeps_requests_get
    | apply keeps_do; intros ?; cbn [heap set_heap set_fs emit tick_ops tick_reqs];
      first [ reflexivity | by apply alter_keeps_items ]
    | apply keeps_bind; [|intros ?]
    | apply keeps_try_except; [|intros ?]
    | apply keeps_for_in; intros ? ?
    | match goal with
      | |- keeps_items (if ?b then _ else _) => destruct b
      | |- keeps_items (match ?x with _ => _ end) => destruct x
      end ].

Lemma keeps_ensure_directory directory : keeps_items (ensure_directory directory).
Proof. unfold ensure_directory, os_makedirs, os_path_exists. repeat keeps_step. Qed.

Lemma keeps_store_op p self : keeps_items (store_op p self).
Proof.
  apply keeps_same. intros w o w' Hrun.
  by apply store_op_run in Hrun as [(_ & _ & ->)|(msg & _ & _ & ->)].
Qed.

Lemma keeps_add_file self item : keeps_items (add_file self item).
Proof. unfold add_file. repeat first [ apply keeps_store_op | keeps_step ]. Qed.

Lemma keeps_load path : keeps_items (SavedFiles_load path).
Proof. unfold SavedFiles_load. repeat keeps_step. Qed.

Lemma keeps_download_file item filename result :
  keeps_items (download_file item filename result).
Proof.
  unfold download_file, write_stream, open_x, file_write, os_rename, download_handlers,
    chunked_msg, read_local, raise_for_status, int_content_length, os_path_exists,
    print_item, print_warning, print_error, print, set_warning, set_error.
  repeat keeps_step.
Qed.

(** A round adds one dictionary to the report when its item is due, and
    none when it is not. *)
Lemma save_item_report path overwrite show item st w st' w' :
  save_item path overwrite show item st w = (Ret st', w') →
  let due := overwrite || negb (contains (saved_files st) item) in
  map res_item (heap w') =
    map res_item (heap w) ++ (if due then [create_item item] else []) ∧
  json_result st' = json_result st ++ (if due then [length (heap w)] else []).
Proof.
  cbv zeta. unfold save_item.
  destruct (overwrite || negb (contains (saved_files st) item)).
  2:{ intros [= <- <-]. by rewrite !app_nil_r. }
  intros ([] & wa & Hdir & Hrun)%bind_ret_inv.
  apply keeps_ensure_directory in Hdir as Hitems.
  assert (length (heap wa) = length (heap w)) as Hlen.
  { by rewrite <- (length_map res_item), Hitems, length_map. }
  apply bind_ret_inv in Hrun as (result & wb & [= <- <-] & Hrun).
  split.
  - assert (keeps_items
              (locked ← os_path_exists (item_file_path path show item +:+ CONST_LOCK);
               if locked then
                 print_item (msg_locked item) 1;;
                 set_warning (length (heap wa)) (msg_locked item);;
                 ret (mkSave true (saved_files st) (json_result st ++ [length (heap wa)]))
               else
                 ok ← download_file item (item_file_path path show item) (length (heap wa));
                 if ok then
                   set_recorded (length (heap wa)) true;;
                   saved ← add_file (saved_files st) item;
                   ret (mkSave true saved (json_result st ++ [length (heap wa)]))
                 else ret (mkSave true (saved_files st)
                                  (json_result st ++ [length (heap wa)]))))
      as Hkeeps.
    { unfold os_path_exists, print_item, print, set_warning, set_recorded.
      repeat first [ apply keeps_download_file | apply keeps_add_file | keeps_step ]. }
    rewrite (Hkeeps _ _ _ Hrun). cbn [heap set_heap].
    by rewrite map_app, Hitems.
  - rewrite <- Hlen.
    apply bind_ret_inv in Hrun as (locked & wc & _ & Hrun). destruct locked.
    + apply bind_ret_inv in Hrun as (? & ? & _ & Hrun).
      apply bind_ret_inv in Hrun as (? & ? & _ & Hrun). by injection Hrun as <- _.
    + apply bind_ret_inv in Hrun as (ok & ? & _ & Hrun). destruct ok.
      * apply bind_ret_inv in Hrun as (? & ? & _ & Hrun).
        apply bind_ret_inv in Hrun as (? & ? & _ & Hrun). by injection Hrun as <- _.
      * by injection Hrun as <- _.
Qed.

Lemma save_steps_report path overwrite (xs : list (listing * Item)) :
  ∀ st w st' w',
    for_in xs (save_step path overwrite) st w = (Ret st', w') →
    map res_item (heap w') =
      map res_item (heap w) ++ map create_item (due_items path overwrite xs st w) ∧
    json_result st' =
      json_result st ++ seq (length (heap w)) (length (due_items path overwrite xs st w)).
Proof.
  induction xs as [|[show item] xs IH]; intros st w st' w' Hrun.
  - injection Hrun as <- <-. cbn. by rewrite !app_nil_r.
  - cbn [for_in] in Hrun. apply bind_ret_inv in Hrun as (st1 & w1 & Hstep & Hrest).
    unfold save_step in Hstep. cbn [fst snd] in Hstep.
    cbn [due_items]. rewrite Hstep.
    apply save_item_report in Hstep as [Hitems1 Hjson1].
    apply IH in Hrest as [Hitems Hjson].
    assert (length (heap w1) =
            (length (heap w) +
             length (if overwrite || negb (contains (saved_files st) item)
                     then [create_item item] else []))%nat) as Hlen.
    { by rewrite <- (length_map res_item (heap w1)), Hitems1, length_app, length_map. }
    rewrite Hitems, Hitems1, Hjson, Hjson1, Hlen.
    destruct (overwrite || negb (contains (saved_files st) item)); cbn [length app map].
    + rewrite <- !app_assoc. cbn [app seq]. by rewrite Nat.add_1_r.
    + by rewrite !app_nil_r, Nat.add_0_r.
Qed.

(** With [overwrite], every item is due. *)
Lemma due_items_overwrite path (xs : list (listing * Item)) :
  ∀ st w st' w',
    for_in xs (save_step path true) st w = (Ret st', w') →
    due_items path true xs st w = map snd xs.
Proof.
  induction xs as [|[show item] xs IH]; intros st w st' w' Hrun; [done|].
  cbn [for_in] in Hrun. apply bind_ret_inv in Hrun as (st1 & w1 & Hstep & Hrest).
  unfold save_step in Hstep. cbn [fst snd] in Hstep.
  cbn [due_items orb map snd app]. rewrite Hstep. f_equal. by eapply IH.
Qed.

(** Without [overwrite], and when no two items of the run share an id,
    the items due are those that the registry did not contain when the
    rounds began. *)
Lemma due_items_fresh path reg (xs : list (listing * Item)) :
  ∀ st w st' w',
    for_in xs (save_step path false) st w = (Ret st', w') →
    NoDup (map (λ x, item_id x.2) xs) →
    (∀ x, x ∈ xs → contains (saved_files st) x.2 = contains reg x.2) →
    due_items path false xs st w =
    filter (λ item, contains reg item = false) (map snd xs).
Proof.
  induction xs as [|[show item] xs IH]; intros st w st' w' Hrun Hnodup Hsame; [done|].
  cbn [for_in] in Hrun. apply bind_ret_inv in Hrun as (st1 & w1 & Hstep & Hrest).
  unfold save_step in Hstep. cbn [fst snd] in Hstep.
  cbn [map fst snd] in Hnodup. apply NoDup_cons in Hnodup as [Hfresh Hnodup].
  cbn [due_items orb map snd]. rewrite Hstep, filter_cons.
  pose proof (Hsame (show, item) ltac:(by left)) as Hitem. cbn [snd] in Hitem.
  rewrite Hitem.
  assert (due_items path false xs st1 w1
          = filter (λ item0, contains reg item0 = false) (map snd xs)) as ->.
  { eapply IH; [exact Hrest | done |]. intros [show' item'] Hin. cbn [snd].
    pose proof (Hsame (show', item') ltac:(by right)) as Hother. cbn [snd] in Hother.
    rewrite <- Hother.
    apply save_item_registry in Hstep as [->| ->]; [done|].
    unfold contains. cbn [sf_files]. apply bool_decide_ext.
    rewrite dom_insert, elem_of_union, elem_of_singleton.
    split; [|by right]. intros [Heq|?]; [|done]. exfalso. apply Hfresh.
    apply list_elem_of_fmap. exists (show', item'). by split. }
  destruct (contains reg item); cbn [negb]; by case_decide.
Qed.

Lemma deref_seq (h : list result) (n k : nat) :
  (n + k ≤ length h)%nat → deref h (seq n k) = take k (drop n h).
Proof.
  revert n. induction k as [|k IH]; intros n Hle; [done|].
  cbn [seq]. unfold deref in *.
  destruct (lookup_lt_is_Some_2 h n) as [r Hr]; [lia|].
  rewrite (drop_S _ _ _ Hr). cbn [take].
  change (omap (λ a, h !! a) (n :: seq (S n) k))
    with (match h !! n with
          | Some x => x :: omap (λ a, h !! a) (seq (S n) k)
          | None => omap (λ a, h !! a) (seq (S n) k)
          end).
  rewrite Hr. f_equal. apply IH. lia.
Qed.

(** X19.  The report that [save_recordings] returns holds, in the order
    of the run, the dictionaries that [create_item] makes of the items
    that were due when their round began, one for each, and none for the
    other items.  With [overwrite] these are all the items of the
    listings; without it, and when no two items of the listings share an
    id, they are the items that the loaded registry does not contain. *)
Theorem report_lists_the_due_items recordings path overwrite w reg w0 report w' :
  SavedFiles_load path w = (Ret reg, w0) →
  save_recordings recordings path overwrite w = (Ret report, w') →
  map res_item report =
    map create_item
        (due_items path overwrite (work recordings) (mkSave false reg []) w0) ∧
  (overwrite = true →
   map res_item report = map create_item (map snd (work recordings))) ∧
  (overwrite = false →
   NoDup (map (λ x, item_id x.2) (work recordings)) →
   map res_item report =
     map create_item
         (filter (λ item, contains reg item = false) (map snd (work recordings)))).
Proof.
  intros Hload Hrun. unfold save_recordings in Hrun.
  erewrite bind_ret in Hrun; [|exact Hload].
  apply bind_ret_inv in Hrun as (st & w1 & Hloop & Hrun).
  apply bind_ret_inv in Hrun as ([] & w2 & Hprint & [= <- <-]).
  rewrite save_loop_work in Hloop.
  pose proof (save_steps_report _ _ _ _ _ _ _ Hloop) as [Hitems Hjson].
  assert (map res_item (deref (heap w2) (json_result st)) =
          map create_item
              (due_items path overwrite (work recordings) (mkSave false reg []) w0))
    as Hreport.
  { assert (heap w2 = heap w1) as ->.
    { destruct (negb (some_to_record st)); by injection Hprint as <-. }
    cbn [json_result app] in Hjson. rewrite Hjson.
    assert (length (heap w1) =
            (length (heap w0) +
             length (due_items path overwrite (work recordings)
                       (mkSave false reg []) w0))%nat) as Hlen.
    { by rewrite <- (length_map res_item (heap w1)), Hitems, length_app, !length_map. }
    rewrite deref_seq by lia.
    rewrite take_ge by (rewrite length_drop; lia).
    rewrite <- skipn_map, Hitems.
    rewrite <- (length_map res_item (heap w0)). apply drop_app_length. }
  split; [done|]. split.
  - intros ->. rewrite Hreport. f_equal. by eapply due_items_overwrite.
  - intros -> Hnodup. rewrite Hreport. f_equal.
    by eapply due_items_fresh.
Qed.

(** ** Listings without items *)

Lemma work_bare (recordings : list Directory) :
  work (map bare_listing recordings) = [].
Proof. induction recordings as [|r recordings IH]; [done|]. cbn. exact IH. Qed.

(** X20.  Saving what the filter returns with [shows] set downloads
    nothing: the listings carry no items, so after the registry has been
    loaded the run only prints that there is nothing new to record and
    returns an empty report. *)
Theorem folder_listings_save_nothing folder exclude title is_recording recordings
    path overwrite w reg w0 :
  SavedFiles_load path w = (Ret reg, w0) →
  (rs ← filter_recording_items folder exclude title true is_recording recordings;
   save_recordings rs path overwrite) w
  = (Ret [], emit (EvPrint msg_nothing_new) w0).
Proof.
  intros Hload. unfold filter_recording_items.
  assert (∀ rs, work rs = [] →
            save_recordings rs path overwrite w
            = (Ret [], emit (EvPrint msg_nothing_new) w0)) as Hsave.
  { intros rs Hwork. unfold save_recordings.
    erewrite bind_ret; [|exact Hload].
    erewrite bind_ret; [|by rewrite save_loop_work, Hwork]. reflexivity. }
  destruct is_recording.
  - erewrite bind_ret; [|apply for_in_shows_live]. by apply Hsave.
  - erewrite bind_ret; [|apply for_in_shows_listing]. apply Hsave, work_bare.
Qed.

(** ** [print_recordings] *)

Lemma emit_emit_all (ev : event) (evs : list event) (w : world) :
  emit ev (emit_all evs w) = emit_all (evs ++ [ev]) w.
Proof. unfold emit, emit_all. cbn. by rewrite <- app_assoc. Qed.

Lemma emit_all_emit_all (evs1 evs2 : list event) (w : world) :
  emit_all evs2 (emit_all evs1 w) = emit_all (evs1 ++ evs2) w.
Proof. unfold emit_all. cbn. by rewrite <- app_assoc. Qed.

Lemma emit_all_nil (w : world) : emit_all [] w = w.
Proof. destruct w. unfold emit_all. cbn. by rewrite app_nil_r. Qed.

Lemma print_items_run (items : list Item) (w : world) :
  for_in items
    (λ item (_ : unit),
       print_item (item_title item +:+ " (" +:+ item_url item +:+ ")") 2) tt w
  = (Ret tt,
     emit_all (map (λ item, EvPrint (tabs 2 +:+ " -- " +:+
                              (item_title item +:+ " (" +:+ item_url item +:+ ")")))
                   items) w).
Proof.
  revert w. induction items as [|item items IH]; intros w.
  - cbn. by rewrite emit_all_nil.
  - cbn [for_in map]. erewrite bind_ret; [|reflexivity]. rewrite IH.
    f_equal. destruct w. unfold emit_all, emit. cbn. by rewrite <- app_assoc.
Qed.

Lemma print_listings_run (recordings : list listing) (w : world) :
  for_in recordings
    (λ recording (_ : unit),
       print_item (l_title recording) 1;;
       for_in (l_items recording)
         (λ item (_ : unit),
            print_item (item_title item +:+ " (" +:+ item_url item +:+ ")") 2) tt) tt w
  = (Ret tt, emit_all (flat_map listing_lines recordings) w).
Proof.
  revert w. induction recordings as [|r recordings IH]; intros w.
  - cbn. by rewrite emit_all_nil.
  - cbn [for_in flat_map]. erewrite bind_ret.
    2:{ erewrite bind_ret; [|reflexivity]. apply print_items_run. }
    rewrite IH. f_equal. destruct w. unfold emit_all, emit, listing_lines. cbn.
    by rewrite <- !app_assoc.
Qed.

Lemma json_items_run (items : list Item) (acc : list item_json) (w : world) :
  for_in items (λ item items, ret (items ++ [create_item item])) acc w
  = (Ret (acc ++ map create_item items), w).
Proof.
  revert acc. induction items as [|item items IH]; intros acc.
  - cbn. by rewrite app_nil_r.
  - cbn [for_in map]. erewrite bind_ret; [|reflexivity]. rewrite IH.
    by rewrite <- app_assoc.
Qed.

Lemma json_listings_run (recordings : list listing) (acc : list folder_json) (w : world) :
  for_in recordings
    (λ recording output,
       items ← for_in (l_items recording)
                 (λ item items, ret (items ++ [create_item item])) [];
       ret (output ++ [mkFolderJson (l_id recording) (l_title recording) items])) acc w
  = (Ret (acc ++ map folder_json_of recordings), w).
Proof.
  revert acc. induction recordings as [|r recordings IH]; intros acc.
  - cbn. by rewrite app_nil_r.
  - cbn [for_in map]. erewrite bind_ret.
    2:{ erewrite bind_ret; [|apply json_items_run]. reflexivity. }
    rewrite IH. by rewrite <- app_assoc.
Qed.

(** X21.  [print_recordings] only prints.  In text mode it prints the
    heading and then, in the order of the listings, the title of each
    folder followed by title and URL of each of its items, or the one
    warning when there is no listing, and returns nothing; in JSON mode it
    prints and returns the one document that [json.dumps] makes of the
    folders in order, each with the report form of its items. *)
Theorem print_recordings_prints_the_listings json_dumps recordings w :
  print_recordings json_dumps recordings false w
  = (Ret None,
     emit_all (EvPrint "[+] List Recordings: " ::
               (if nonempty recordings then flat_map listing_lines recordings
                else [EvPrint (tabs 1 +:+ " -- [!] No recordings found!")])) w) ∧
  print_recordings json_dumps recordings true w
  = (Ret (Some (json_dumps (map folder_json_of recordings))),
     emit_all [EvPrint (json_dumps (map folder_json_of recordings))] w).
Proof.
  split.
  - unfold print_recordings, print_heading, print_warning, print. cbn [negb].
    erewrite bind_ret; [|reflexivity].
    erewrite bind_ret.
    2:{ instantiate (1 := emit_all
                            (if nonempty recordings then []
                             else [EvPrint (tabs 1 +:+ " -- [!] No recordings found!")])
                            (emit (EvPrint "[+] List Recordings: ") w)).
        instantiate (1 := tt).
        destruct recordings; cbn [nonempty negb]; [done|].
        by rewrite emit_all_nil. }
    erewrite bind_ret; [|apply print_listings_run].
    unfold ret. f_equal. rewrite emit_all_emit_all.
    destruct w. unfold emit_all, emit. cbn. f_equal.
    destruct recordings; cbn; by rewrite <- ?app_assoc.
  - unfold print_recordings, print. cbn [negb].
    erewrite bind_ret; [|apply json_listings_run]. cbn [app].
    erewrite bind_ret; [|reflexivity]. done.
Qed.


(** Case and white space beyond ASCII: the term [café] between two
    no-break spaces is found in the title [CAFÉ], and the next-line
    character is stripped like a space. *)
Lemma term_found_beyond_ascii :
  term_found ("CAF" +:+ Str.char 201)
             (Str.char 160 +:+ "caf" +:+ Str.char 233 +:+ Str.char 160) = true ∧
  Str.strip (Str.char 133 +:+ "Pilot" +:+ Str.char 160) = "Pilot".
Proof. split; reflexivity. Qed.


End Properties.

(** C2, counterexample.  One folder with one item and a live-only filter;
    the appliance refuses the connection.  Treating the item as not live
    would return the empty list; the run raises instead. *)
Lemma refused_probe_is_fatal :
  filter_recording_items (E := Sample.appliance Refused)
    [] [] [] false true [Sample.drama] Sample.empty_world
  = (Raise (Exn ReqConnectionError []),
     mkWorld ∅ 1 0 [] [EvGet 0 "http://fetch/7" None]).
Proof. reflexivity. Qed.

(** C2 on the run above: the refused request is the last event and the run
    raises [ConnectionError]. *)
Lemma probe_failure_aborts_filter_witness :
  ∃ evs,
    log (mkWorld ∅ 1 0 [] [EvGet 0%nat "http://fetch/7" None])
      = log Sample.empty_world ++ evs ∧
    ∀ n url t e, EvGet n url t ∈ evs →
      transport_failure (http (Env := Sample.appliance Refused) n url) = Some e →
      Raise (A := list listing) (Exn ReqConnectionError []) = Raise e ∧
      last evs = Some (EvGet n url t).
Proof.
  apply (probe_failure_aborts_filter (E := Sample.appliance Refused)
           [] [] [] false true [Sample.drama] Sample.empty_world).
  reflexivity.
Defined.

(** C9, the failing run.  The probe passes no timeout to [requests.get]
    although the script defines [REQUEST_TIMEOUT]; when the appliance
    accepts the connection and never answers, the probe never returns. *)
Theorem probe_blocks_on_silent_appliance (item : Item) (w : world) :
  currently_recording (E := Sample.appliance NoReply) item w
  = (Hang, tick_reqs (emit (EvGet (reqs w) (item_url item) None) w)).
Proof. reflexivity. Qed.

(** C7, counterexample.  The include term [" a"] does not occur in ["ba"],
    yet the folder is matched, because terms are stripped first.  And the
    exclude term [""] occurs in every title, yet the folder stays in the
    result, because the script tests the truth value of the matching term
    and the empty string is false. *)
Lemma padded_and_empty_terms_break_matching :
  (has_include_folder (mkDirectory "d3" "ba" []) [" a"] = true ∧
   ¬ ci_substring " a" "ba") ∧
  (ci_substring "" "Drama" ∧
   filter_recording_items (E := Sample.appliance Refused)
     [] [""] [] true false [Sample.drama] Sample.empty_world
   = (Ret [bare_listing Sample.drama], Sample.empty_world)).
Proof.
  split; split.
  - reflexivity.
  - intros Hsub. apply find_spec in Hsub. by apply Hsub.
  - by exists "", "drama".
  - reflexivity.
Qed.

(** C7 on sample data: the padded term [" DRA "] matches ["Drama"], and the
    exclude term ["news"] keeps ["Evening News"] out of the result. *)
Lemma matching_strips_and_ignores_case_witness :
  (has_include_folder Sample.drama [" DRA "] = true ↔
   [" DRA "] = [] ∨ ∃ t, t ∈ [" DRA "] ∧ ci_substring (Str.strip t) "Drama") ∧
  (∀ l, l ∈ [bare_listing Sample.drama] → l_title l ≠ "Evening News").
Proof.
  destruct (matching_strips_and_ignores_case (E := Sample.appliance Refused)
              [" DRA "] ["news"] ["pilot"]) as (Hinc & _ & _ & Hexc).
  split.
  - apply Hinc. by intros [=]%list_elem_of_singleton.
  - apply (Hexc true false [Sample.drama; Sample.news] Sample.news
             Sample.empty_world _ Sample.empty_world).
    + by intros [=]%list_elem_of_singleton.
    + exists "news". split; [by left|]. by exists "evening ", "".
    + reflexivity.
Defined.

(** C6 on the save root in which the lock marker of the pilot exists. *)
Lemma locked_item_is_skipped_witness :
  ∃ w',
    save_item (E := Sample.appliance Refused) "root" false Sample.drama_listing
      Sample.pilot Sample.fresh Sample.locked_world
      = (Ret (mkSave true (mkSavedFiles ∅ "root") [0%nat]), w') ∧
    fs w' = fs Sample.locked_world ∧ reqs w' = 0%nat ∧ ops w' = 0%nat.
Proof.
  destruct (locked_item_is_skipped (E := Sample.appliance Refused) "root" false
              Sample.drama_listing Sample.pilot Sample.fresh Sample.locked_world)
    as (w' & Hrun & _ & Hfs & Hreqs & Hops & _); [reflexivity | reflexivity |].
  exists w'. eauto.
Defined.

(** C5 on the save root whose registry holds the pilot. *)
Lemma saved_items_are_skipped_witness :
  save_item (E := Sample.appliance Refused) "root" false Sample.drama_listing
    Sample.pilot (mkSave false Sample.registry_of_pilot [])
    (mkWorld (fs Sample.saved_world) 0 1 [] [EvOpenRegistry "root/fetchtv_save_list.json"])
  = (Ret (mkSave false Sample.registry_of_pilot []),
     mkWorld (fs Sample.saved_world) 0 1 [] [EvOpenRegistry "root/fetchtv_save_list.json"]) ∧
  save_recordings (E := Sample.appliance Refused) [Sample.drama_listing] "root" false
    Sample.saved_world
  = (Ret [],
     mkWorld (fs Sample.saved_world) 0 1 []
       [EvOpenRegistry "root/fetchtv_save_list.json"; EvPrint msg_nothing_new]).
Proof.
  destruct (saved_items_are_skipped (E := Sample.appliance Refused) "root"
              [Sample.drama_listing] Sample.saved_world Sample.registry_of_pilot)
    as [Hround Hrun].
  split.
  - apply (Hround []); [|reflexivity].
    exists (mkWorld (fs Sample.saved_world) 0 1 []
              [EvOpenRegistry "root/fetchtv_save_list.json"]), [].
    repeat split; reflexivity.
  - apply (Hrun (mkWorld (fs Sample.saved_world) 0 1 []
                   [EvOpenRegistry "root/fetchtv_save_list.json"])); [reflexivity|].
    intros show item Hin. apply list_elem_of_singleton in Hin.
    injection Hin as -> ->. reflexivity.
Defined.



(** C3, counterexample.  The stream breaks with a [ChunkedEncodingError]
    whose [ProtocolError] has a single argument: not the short final read,
    for no [IncompleteRead] is involved.  The item is not reported as
    failed: the warning is recorded, the lock-suffixed file is renamed to
    the final path and the registry gains the item. *)
Lemma other_chunked_error_is_finalized :
  let run :=
    save_recordings (E := Sample.appliance (Sample.broken_stream [PyStr "Connection broken"]))
      [Sample.drama_listing] "root" false Sample.empty_world in
  run.1 = Ret [mkResult (create_item Sample.pilot) true
                 (Some "Chunked encoding error occurred. Content length was 1000. Error was: error")
                 None] ∧
  fs run.2 !! "root/Drama/S01_E02_Pilot.mpeg" = Some (FFile (Data "abc")) ∧
  fs run.2 !! "root/Drama/S01_E02_Pilot.mpeg.lock" = None ∧
  fs run.2 !! "root/fetchtv_save_list.json" = Some (FFile (Pickle Sample.registry_of_pilot)).
Proof. vm_compute. repeat split; reflexivity. Qed.

(** C3 on the sample save root: a connection error after the chunk ["abc"]
    fails the item, the short final read is finalized with its warning. *)
Lemma transfer_errors_witness :
  (∃ w',
     save_item (E := Sample.appliance
                       (Sample.answer 1000 ["abc"] (Some (Exn ReqConnectionError []))))
       "root" false Sample.drama_listing Sample.pilot Sample.fresh Sample.loaded_world
     = (Ret (mkSave true (mkSavedFiles ∅ "root") [0%nat]), w') ∧
     heap w' !! 0%nat
       = Some (mkResult (create_item Sample.pilot) false None
                 (Some "Error writing file: error")) ∧
     fs w' = fs Sample.streamed_world) ∧
  save_item (E := Sample.appliance
                    (Sample.broken_stream [PyStr "Connection broken"; PyErr IncompleteRead []]))
    "root" false Sample.drama_listing Sample.pilot Sample.fresh Sample.loaded_world
  = finalize (E := Sample.appliance
                    (Sample.broken_stream [PyStr "Connection broken"; PyErr IncompleteRead []]))
      "root" Sample.drama_listing Sample.pilot Sample.fresh 0
      (set_heap (alter (λ d, mkResult (res_item d) (recorded d) (Some msg_short_read) (error d))
                       0%nat)
         (emit (EvPrint (tabs 2 +:+ " -- [!] " +:+ msg_short_read)) Sample.streamed_world)).
Proof.
  split.
  - destruct (transfer_errors
                (E := Sample.appliance
                        (Sample.answer 1000 ["abc"] (Some (Exn ReqConnectionError []))))
                "root" false Sample.drama_listing Sample.pilot Sample.fresh
                Sample.loaded_world 0%nat
                (mkReply 200 (Length 1000) ["abc"] (Some (Exn ReqConnectionError [])))
                Sample.answered_world 1000 (Exn ReqConnectionError [])
                Sample.streamed_world)
      as [Hio _].
    + repeat split; vm_compute; reflexivity.
    + reflexivity.
    + vm_compute. discriminate.
    + vm_compute. reflexivity.
    + destruct Hio as (w' & Hround & Hheap & Hfs & _);
        [vm_compute; reflexivity..|].
      exists w'. eauto.
  - apply (transfer_errors
             (E := Sample.appliance
                     (Sample.broken_stream
                        [PyStr "Connection broken"; PyErr IncompleteRead []]))
             "root" false Sample.drama_listing Sample.pilot Sample.fresh
             Sample.loaded_world 0%nat
             (mkReply 200 (Length 1000) ["abc"]
                (Some (Exn ChunkedEncodingError
                         [PyErr ProtocolError
                            [PyStr "Connection broken"; PyErr IncompleteRead []]])))
             Sample.answered_world 1000
             (Exn ChunkedEncodingError
                [PyErr ProtocolError [PyStr "Connection broken"; PyErr IncompleteRead []]])
             Sample.streamed_world)
      with (cls := ProtocolError)
           (inner := [PyStr "Connection broken"; PyErr IncompleteRead []])
           (rest := @nil pyobj).
    + repeat split; vm_compute; reflexivity.
    + reflexivity.
    + vm_compute. discriminate.
    + vm_compute. reflexivity.
    + reflexivity.
    + reflexivity.
    + split; reflexivity.
Defined.

(** C10 on the sample save root: the connection is reset mid-stream, the
    run ends with [UnboundLocalError]. *)
Lemma unassigned_message_aborts_run_witness :
  save_recordings
    (E := Sample.appliance
            (Sample.broken_stream [PyStr "Connection broken"; PyErr ConnectionResetError []]))
    [Sample.drama_listing] "root" false Sample.empty_world
  = (Raise (Exn UnboundLocalError [PyStr "msg"]), Sample.streamed_world) ∧
  heap Sample.streamed_world !! 0%nat
  = Some (mkResult (create_item Sample.pilot) false None None).
Proof.
  destruct (unassigned_message_aborts_run
              (E := Sample.appliance
                      (Sample.broken_stream
                         [PyStr "Connection broken"; PyErr ConnectionResetError []]))
              "root" false Sample.drama_listing Sample.pilot Sample.fresh
              Sample.loaded_world 0%nat
              (mkReply 200 (Length 1000) ["abc"]
                 (Some (Exn ChunkedEncodingError
                          [PyErr ProtocolError
                             [PyStr "Connection broken"; PyErr ConnectionResetError []]])))
              Sample.answered_world 1000
              (Exn ChunkedEncodingError
                 [PyErr ProtocolError
                    [PyStr "Connection broken"; PyErr ConnectionResetError []]])
              Sample.streamed_world)
    as (_ & _ & Hheap & Hrun).
  - repeat split; vm_compute; reflexivity.
  - reflexivity.
  - vm_compute. discriminate.
  - vm_compute. reflexivity.
  - reflexivity.
  - right. exists ProtocolError, [PyStr "Connection broken"; PyErr ConnectionResetError []],
      [], (PyErr ConnectionResetError []). repeat split; reflexivity.
  - split; [|exact Hheap].
    apply (Hrun [Sample.drama_listing] Sample.empty_world (mkSavedFiles ∅ "root") []).
    exists Sample.loaded_world, []. repeat split; vm_compute; reflexivity.
Defined.

(** C1, counterexample.  The appliance announces 1000 bytes, sends the
    chunk ["abc"], and the stream breaks with the short final read that the
    handler tolerates: the run returns, the file of three bytes stands
    under the final name without a lock file, and the item is reported as
    recorded and entered in the registry. *)
Lemma short_read_reaches_the_final_name :
  let run :=
    save_recordings
      (E := Sample.appliance
              (Sample.broken_stream [PyStr "Connection broken"; PyErr IncompleteRead []]))
      [Sample.drama_listing] "root" false Sample.empty_world in
  run.1 = Ret [mkResult (create_item Sample.pilot) true (Some msg_short_read) None] ∧
  fs run.2 !! "root/Drama/S01_E02_Pilot.mpeg" = Some (FFile (Data "abc")) ∧
  fs run.2 !! "root/Drama/S01_E02_Pilot.mpeg.lock" = None ∧
  fs run.2 !! "root/fetchtv_save_list.json"
    = Some (FFile (Pickle Sample.registry_of_pilot)).
Proof. vm_compute. repeat split; reflexivity. Qed.

(** C1 on the run that saves the pilot into the empty save root. *)
Lemma registry_follows_rename_witness :
  (∃ evs, log Sample.finished_world = log Sample.empty_world ++ evs ∧
     (∀ p, fs Sample.finished_world !! p = fs Sample.empty_world !! p ∨
           Exists (touches p) evs) ∧
     ∀ ev show item,
       ev ∈ evs →
       touches (item_file_path (E := Sample.appliance (Sample.answer 1000 ["abc"] None))
                  "root" show item) ev →
       ev = EvRename
              (item_file_path (E := Sample.appliance (Sample.answer 1000 ["abc"] None))
                 "root" show item +:+ CONST_LOCK)
              (item_file_path (E := Sample.appliance (Sample.answer 1000 ["abc"] None))
                 "root" show item) ∨
       ev = EvMakedirs
              (item_file_path (E := Sample.appliance (Sample.answer 1000 ["abc"] None))
                 "root" show item)) ∧
  (∃ evs, log Sample.finished_world = log Sample.loaded_world ++ evs ∧
     ((saved_files (mkSave true Sample.registry_of_pilot [0%nat])
         = saved_files Sample.fresh ∧ Forall unfinished evs) ∨
      ∃ pre tr,
        evs = pre ++ tr ++
                [EvTruncate "root/fetchtv_save_list.json";
                 EvStore "root/fetchtv_save_list.json" Sample.registry_of_pilot] ∧
        Forall unfinished pre ∧
        transfer_of (E := Sample.appliance (Sample.answer 1000 ["abc"] None))
          Sample.pilot "root/Drama/S01_E02_Pilot.mpeg" tr ∧
        sf_files Sample.registry_of_pilot = <["7" := "S01 E02 Pilot"]> ∅)) ∧
  (∃ evs, log Sample.finished_world = log Sample.loaded_world ++ evs ∧
     ∀ id title, sf_files Sample.registry_of_pilot !! id = Some title →
       (∅ : gmap string string) !! id = Some title ∨
       ∃ show item,
         (show, item) ∈ work [Sample.drama_listing] ∧
         item_id item = id ∧ item_title item = title ∧
         EvRename
           (item_file_path (E := Sample.appliance (Sample.answer 1000 ["abc"] None))
              "root" show item +:+ CONST_LOCK)
           (item_file_path (E := Sample.appliance (Sample.answer 1000 ["abc"] None))
              "root" show item) ∈ evs).
Proof.
  destruct (registry_follows_rename
              (E := Sample.appliance (Sample.answer 1000 ["abc"] None))
              "root" false [Sample.drama_listing])
    as (Hrun & Hround & Hbetween).
  split; [|split].
  - apply (Hrun Sample.empty_world
             (Ret [mkResult (create_item Sample.pilot) true None None])).
    vm_compute. reflexivity.
  - apply (Hround Sample.drama_listing Sample.pilot Sample.fresh Sample.loaded_world
             (mkSave true Sample.registry_of_pilot [0%nat]) Sample.finished_world).
    vm_compute. reflexivity.
  - apply (Hbetween Sample.empty_world (mkSavedFiles ∅ "root") Sample.loaded_world
             [(Sample.drama_listing, Sample.pilot)] []
             (mkSave true Sample.registry_of_pilot [0%nat]) Sample.finished_world);
      vm_compute; reflexivity.
Defined.

(** Witness for [valid_filename_has_no_special_character]: the colon of
    a title is not in its file name. *)
Lemma valid_filename_has_no_special_character_witness :
  ":"%char ∈ list_ascii_of_string ("<>:" +:+ Str.char 34 +:+ "/\|?*" +:+ Str.char 9 +:+ " ")
  ∧ ":"%char ∉ list_ascii_of_string (create_valid_filename "My:Show/2024").
Proof.
  assert (":"%char ∈ list_ascii_of_string
            ("<>:" +:+ Str.char 34 +:+ "/\|?*" +:+ Str.char 9 +:+ " ")) as Hin.
  { vm_compute. do 2 right. left. }
  split; [exact Hin|].
  exact (valid_filename_has_no_special_character "My:Show/2024" ":" Hin).
Defined.

(** Witness for [clean_title_is_its_own_filename]. *)
Lemma clean_title_is_its_own_filename_witness :
  create_valid_filename "Pilot" = "Pilot".
Proof.
  apply clean_title_is_its_own_filename.
  - vm_compute. lia.
  - intros c Hc. vm_compute in Hc.
    repeat (apply elem_of_cons in Hc as [->|Hc]); try by apply elem_of_nil in Hc.
    all: split; [reflexivity|].
    all: intros Hin; vm_compute in Hin.
    all: repeat (apply elem_of_cons in Hin as [[=]|Hin]); by apply elem_of_nil in Hin.
Defined.

(** Witness for [live_filter_returns_no_empty_folder]: of a folder with an
    item in progress and an empty folder, only the first is returned. *)
Lemma live_filter_returns_no_empty_folder_witness :
  Forall (λ l, l_items l ≠ []) [Sample.drama_listing].
Proof.
  apply (live_filter_returns_no_empty_folder
           (E := Sample.appliance (Sample.answer MAX_OCTET [] None))
           [] [] [] false [Sample.drama; Sample.news] Sample.empty_world
           [Sample.drama_listing]
           (mkWorld ∅ 1 0 [] [EvGet 0 "http://fetch/7" None])).
  vm_compute. reflexivity.
Defined.

(** Witness for [live_filter_items_were_answered_live]. *)
Lemma live_filter_items_were_answered_live_witness :
  ∃ evs, [EvGet 0 "http://fetch/7" None] = [] ++ evs ∧
    ∀ l item, l ∈ [Sample.drama_listing] → item ∈ l_items l →
      has_title_match item ["pilot"] = true ∧
      answered_live (E := Sample.appliance (Sample.answer MAX_OCTET [] None)) evs item.
Proof.
  apply (live_filter_items_were_answered_live
           (E := Sample.appliance (Sample.answer MAX_OCTET [] None))
           [] [] ["pilot"] false [Sample.drama; Sample.news] Sample.empty_world
           [Sample.drama_listing]
           (mkWorld ∅ 1 0 [] [EvGet 0 "http://fetch/7" None])).
  vm_compute. reflexivity.
Defined.

(** Witness for [added_entry_survives_reload]: the pilot is stored in the
    empty registry of the sample save root and read back. *)
Lemma added_entry_survives_reload_witness :
  ∃ w2,
    SavedFiles_load (E := Sample.appliance Refused) "root" Sample.stored_world
      = (Ret Sample.registry_of_pilot, w2) ∧
    fs w2 = fs Sample.stored_world ∧
    contains Sample.registry_of_pilot Sample.pilot = true ∧
    ∀ other, contains (mkSavedFiles ∅ "root") other = true →
             contains Sample.registry_of_pilot other = true.
Proof.
  apply (added_entry_survives_reload (E := Sample.appliance Refused)
           (mkSavedFiles ∅ "root") Sample.pilot Sample.loaded_world
           Sample.registry_of_pilot Sample.stored_world).
  - vm_compute. reflexivity.
  - vm_compute. discriminate.
  - vm_compute. reflexivity.
Defined.

(** Witness for [load_creates_missing_document]: the empty save root. *)
Lemma load_creates_missing_document_witness :
  ∃ w',
    SavedFiles_load (E := Sample.appliance Refused) "root" Sample.empty_world
      = (Ret (mkSavedFiles ∅ "root"), w') ∧
    fs w' = <[registry_path (E := Sample.appliance Refused) "root" := FFile (Data "")]>
              (fs Sample.empty_world) ∧
    ∀ item, contains (mkSavedFiles ∅ "root") item = false.
Proof.
  apply (load_creates_missing_document (E := Sample.appliance Refused)
           "root" Sample.empty_world).
  - vm_compute. reflexivity.
  - vm_compute. reflexivity.
Defined.

(** Witness for [load_only_creates_the_document]: the empty save root. *)
Lemma load_only_creates_the_document_witness :
  fs Sample.loaded_world = fs Sample.empty_world ∨
  (fs Sample.empty_world !! registry_path (E := Sample.appliance Refused) "root" = None ∧
   fs Sample.loaded_world
     = <[registry_path (E := Sample.appliance Refused) "root" := FFile (Data "")]>
         (fs Sample.empty_world)).
Proof.
  apply (load_only_creates_the_document (E := Sample.appliance Refused)
           "root" Sample.empty_world (Ret (mkSavedFiles ∅ "root")) Sample.loaded_world).
  vm_compute. reflexivity.
Defined.

(** Witness for [failed_store_empties_the_registry]: the disk fills up,
    with nothing written, while another title is stored for the pilot. *)
Lemma failed_store_empties_the_registry_witness :
  ∃ w',
    add_file (E := Sample.full_disk) Sample.registry_of_pilot Sample.pilot
      Sample.saved_world
      = (Raise (Exn OSError [PyStr "No space left on device"]), w') ∧
    fs w' !! "root/fetchtv_save_list.json" = Some (FFile (Data "")) ∧
    (disk (Env := Sample.full_disk) 2 = None →
     ∃ w'', SavedFiles_load (E := Sample.full_disk) "root" w'
            = (Ret (mkSavedFiles ∅ "root"), w'')).
Proof.
  apply (failed_store_empties_the_registry (E := Sample.full_disk)
           Sample.registry_of_pilot Sample.pilot Sample.saved_world
           "No space left on device").
  - vm_compute. discriminate.
  - vm_compute. reflexivity.
  - vm_compute. reflexivity.
  - vm_compute. reflexivity.
Defined.



(** Witness for [failed_download_request_ends_the_run]: the appliance
    refuses the connection for the pilot. *)
Lemma failed_download_request_ends_the_run_witness :
  ∃ w',
    save_item (E := Sample.appliance Refused)
      "root" false Sample.drama_listing Sample.pilot Sample.fresh Sample.loaded_world
      = (Raise (Exn ReqConnectionError []), w') ∧
    fs w' = fs Sample.directory_world ∧
    heap w' = heap Sample.loaded_world
              ++ [mkResult (create_item Sample.pilot) false None None] ∧
    ∀ recordings w_init reg before,
      reaches (E := Sample.appliance Refused) "root" false recordings w_init reg before
        Sample.drama_listing Sample.pilot Sample.fresh Sample.loaded_world →
      save_recordings (E := Sample.appliance Refused) recordings "root" false w_init
        = (Raise (Exn ReqConnectionError []), w').
Proof.
  apply (failed_download_request_ends_the_run (E := Sample.appliance Refused)
           "root" false Sample.drama_listing Sample.pilot Sample.fresh
           Sample.loaded_world Sample.directory_world (Exn ReqConnectionError [])).
  - vm_compute. reflexivity.
  - vm_compute. reflexivity.
  - vm_compute. reflexivity.
  - vm_compute. reflexivity.
Defined.

(** Witness for [download_refuses_existing_lock]: the save root in which
    the lock marker of the pilot exists. *)
Lemma download_refuses_existing_lock_witness :
  ∃ w',
    download_file (E := Sample.appliance (Sample.answer 1000 ["abc"] None))
      Sample.pilot "root/Drama/S01_E02_Pilot.mpeg" 0 Sample.locked_world
      = (Ret false, w') ∧
    fs w' = fs Sample.locked_world ∧ ops w' = ops Sample.locked_world ∧
    heap w' = alter (λ d, mkResult (res_item d) (recorded d)
                            (Some "Already writing (lock file exists) skipping")
                            (error d)) 0%nat (heap Sample.locked_world).
Proof.
  apply (download_refuses_existing_lock
           (E := Sample.appliance (Sample.answer 1000 ["abc"] None))
           Sample.pilot "root/Drama/S01_E02_Pilot.mpeg" 0%nat Sample.locked_world
           (mkReply 200 (Length 1000) ["abc"] None) 1000).
  - reflexivity.
  - reflexivity.
  - reflexivity.
  - vm_compute. discriminate.
  - vm_compute. reflexivity.
Defined.

(** Witness for [registry_only_grows]: the run that saves the pilot. *)
Lemma registry_only_grows_witness :
  sf_path Sample.registry_of_pilot = sf_path (saved_files Sample.fresh) ∧
  ∀ id title, sf_files (saved_files Sample.fresh) !! id = Some title →
    ∃ title', sf_files Sample.registry_of_pilot !! id = Some title' ∧
              (false = false → title' = title).
Proof.
  apply (registry_only_grows
           (E := Sample.appliance (Sample.answer 1000 ["abc"] None))
           "root" false [Sample.drama_listing] Sample.fresh Sample.loaded_world
           (mkSave true Sample.registry_of_pilot [0%nat]) Sample.finished_world).
  vm_compute. reflexivity.
Defined.

(** Witness for [report_lists_the_due_items]: the run that saves the
    pilot. *)
Lemma report_lists_the_due_items_witness :
  map res_item [mkResult (create_item Sample.pilot) true None None] =
    map create_item
        (due_items (E := Sample.appliance (Sample.answer 1000 ["abc"] None))
           "root" false (work [Sample.drama_listing])
           (mkSave false (mkSavedFiles ∅ "root") []) Sample.loaded_world) ∧
  (false = true →
   map res_item [mkResult (create_item Sample.pilot) true None None]
     = map create_item (map snd (work [Sample.drama_listing]))) ∧
  (false = false →
   NoDup (map (λ x : listing * Item, item_id x.2) (work [Sample.drama_listing])) →
   map res_item [mkResult (create_item Sample.pilot) true None None] =
     map create_item
         (filter (λ item, contains (mkSavedFiles ∅ "root") item = false)
                 (map snd (work [Sample.drama_listing])))).
Proof.
  apply (report_lists_the_due_items
           (E := Sample.appliance (Sample.answer 1000 ["abc"] None))
           [Sample.drama_listing] "root" false Sample.empty_world
           (mkSavedFiles ∅ "root") Sample.loaded_world
           [mkResult (create_item Sample.pilot) true None None] Sample.finished_world).
  - vm_compute. reflexivity.
  - vm_compute. reflexivity.
Defined.

(** Witness for [folder_listings_save_nothing]: the folders of the sample
    catalogue, saved into the empty save root. *)
Lemma folder_listings_save_nothing_witness :
  (rs ← filter_recording_items (E := Sample.appliance Refused) [] [] [] true false
          [Sample.drama; Sample.news];
   save_recordings (E := Sample.appliance Refused) rs "root" false) Sample.empty_world
  = (Ret [], emit (EvPrint msg_nothing_new) Sample.loaded_world).
Proof.
  apply (folder_listings_save_nothing (E := Sample.appliance Refused)
           [] [] [] false [Sample.drama; Sample.news] "root" false
           Sample.empty_world (mkSavedFiles ∅ "root") Sample.loaded_world).
  vm_compute. reflexivity.
Defined.
